(** * SnapURL: link registry, short-code validation and click counters

    A shallow embedding of the URL service ([services/urlService.js]), the URL
    model ([models/URL.js]), the short-code validator
    ([utils/shortCodeGenerator.js]) and the request schema
    ([middleware/validation.js]) of the SnapURL API, with the properties
    the design document states about them.

    Conventions of the embedding.
    - The MongoDB collection of URL documents is a [list Link] in insertion
      order; [findOne] returns the first document that matches the query.
    - The collection of users is a [gmap] from user id to [User].
    - JavaScript strings are [string]s; [String.length] stands for [.length].
    - Counters stored with [min: 0] in the schema are [N]; dates are
      milliseconds since the epoch, in [Z].
    - A thrown [Error] is a value of type [Error]; [error_message] gives
      its text.
    - JavaScript numbers that hold counts are exact up to [2^53]; the
      numbers computed from them are IEEE 754 binary64 values, with the
      operations of the Standard Library's [SpecFloat].
    - [Date.now()], the random generator behind [generateShortCode], the
      WHATWG URL parser behind [_isValidUrl] and the values read from
      [config] are parameters of the development.
    - A string path declared with [trim: true] holds trimmed values:
      Mongoose applies the setter to the value of the path in a new
      document, in an update and in a query alike.
    - [populate("userId", ...)] puts the owner's document in the place of
      the owner's id, or [null] when the collection of users has no such
      document; a populated Link keeps the owner's id in [userId] in the
      first case and has [None] there in the second. *)

From Stdlib Require Import Ascii String ZArith NArith QArith Qround Qabs Lqa.
From Stdlib Require Import Qpower SpecFloat.
From stdpp Require Import base list gmap strings pretty sorting.

Local Open Scope string_scope.
Local Open Scope list_scope.
Local Open Scope Z_scope.

(** ** Characters and strings *)

Module Chars.

Definition between (lo hi : nat) (c : ascii) : bool :=
  let n := nat_of_ascii c in (lo <=? n)%nat && (n <=? hi)%nat.

Definition is_upper : ascii -> bool := between 65 90.
Definition is_lower : ascii -> bool := between 97 122.
Definition is_digit : ascii -> bool := between 48 57.

(** The character class [[A-Za-z0-9]] of Joi's [alphanum()]. *)
Definition is_alphanum (c : ascii) : bool :=
  is_lower c || is_upper c || is_digit c.

(** The character class [[A-Za-z0-9_-]]. *)
Definition is_code_char (c : ascii) : bool :=
  is_upper c || is_lower c || is_digit c
  || Ascii.eqb c "_"%char || Ascii.eqb c "-"%char.

(** White space removed by [String.prototype.trim], among the characters
    below 256: tab, line feed, vertical tab, form feed, carriage return,
    space and no-break space. *)
Definition is_space (c : ascii) : bool :=
  let n := nat_of_ascii c in
  (n =? 32)%nat || ((9 <=? n)%nat && (n <=? 13)%nat) || (n =? 160)%nat.

Fixpoint all_chars (p : ascii -> bool) (s : string) : bool :=
  match s with
  | EmptyString => true
  | String c r => p c && all_chars p r
  end.

(** [/^[...]+$/.test(s)] for a character class [p]: one or more characters,
    all of them in the class. *)
Definition matches_plus (p : ascii -> bool) (s : string) : bool :=
  match s with
  | EmptyString => false
  | String _ _ => all_chars p s
  end.

Fixpoint trim_start (s : string) : string :=
  match s with
  | EmptyString => EmptyString
  | String c r => if is_space c then trim_start r else s
  end.

Fixpoint trim_end (s : string) : string :=
  match s with
  | EmptyString => EmptyString
  | String c r =>
      match trim_end r with
      | EmptyString => if is_space c then EmptyString else String c EmptyString
      | r' => String c r'
      end
  end.

Definition trim (s : string) : string := trim_end (trim_start s).

End Chars.

(** ** utils/shortCodeGenerator.js: [validateShortCode] *)

Record Validation := { isValid : bool; errors : list string }.

Definition push_if (b : bool) (e : string) (es : list string) : list string :=
  if b then es ++ [e] else es.

Definition validateShortCode (code : string) : Validation :=
  if (String.length code =? 0)%nat then
    {| isValid := false; errors := ["Short code is required"] |}
  else
    let e1 := push_if (String.length code <? 3)%nat
                "Short code is too short (min 3 characters)" [] in
    let e2 := push_if (30 <? String.length code)%nat
                "Short code is too long (max 30 characters)" e1 in
    let e3 := push_if (negb (Chars.matches_plus Chars.is_code_char code))
                "Short code contains invalid characters" e2 in
    {| isValid := (length e3 =? 0)%nat; errors := e3 |}.

(** ** middleware/validation.js: the [customAlias] rule of [schemas.createUrl]

    [Joi.string().alphanum().min(3).max(30).optional()]: the field may be
    absent; when present it is a non-empty string of letters and digits of
    length 3 to 30. *)
Definition schemas_createUrl_customAlias (alias : option string) : bool :=
  match alias with
  | None => true
  | Some a =>
      Chars.matches_plus Chars.is_alphanum a
      && (3 <=? String.length a)%nat && (String.length a <=? 30)%nat
  end.

(** The rule the design document gives for codes and aliases alike:
    characters from [[A-Za-z0-9_-]], length 3 to 30. *)
Definition well_formed_code (s : string) : Prop :=
  Chars.all_chars Chars.is_code_char s = true
  /\ (3 <= String.length s <= 30)%nat.

(** ** Data model (models/URL.js, models/User.js)

    The fields of a URL document that the service reads or writes. Tags, QR
    code, fetched metadata, password and variants are not read by the
    operations below and are left out. *)

Record Link := mkLink {
  _id : nat;
  originalUrl : string;
  shortCode : string;
  customAlias : option string;
  title : option string;
  description : option string;
  userId : option nat;
  isActive : bool;
  expiresAt : option Z;
  clickCount : N;
  uniqueClicks : N;
  lastClickedAt : option Z;
  createdAt : Z
}.

Record User := mkUser { urlCount : Z; totalClicks : Z }.

Definition set_clickCount (n : N) (l : Link) : Link :=
  mkLink (_id l) (originalUrl l) (shortCode l) (customAlias l) (title l)
    (description l) (userId l) (isActive l) (expiresAt l) n (uniqueClicks l)
    (lastClickedAt l) (createdAt l).

Definition set_uniqueClicks (n : N) (l : Link) : Link :=
  mkLink (_id l) (originalUrl l) (shortCode l) (customAlias l) (title l)
    (description l) (userId l) (isActive l) (expiresAt l) (clickCount l) n
    (lastClickedAt l) (createdAt l).

Definition set_lastClickedAt (t : option Z) (l : Link) : Link :=
  mkLink (_id l) (originalUrl l) (shortCode l) (customAlias l) (title l)
    (description l) (userId l) (isActive l) (expiresAt l) (clickCount l)
    (uniqueClicks l) t (createdAt l).

Definition set_userId (u : option nat) (l : Link) : Link :=
  mkLink (_id l) (originalUrl l) (shortCode l) (customAlias l) (title l)
    (description l) u (isActive l) (expiresAt l) (clickCount l)
    (uniqueClicks l) (lastClickedAt l) (createdAt l).

Definition set_isActive (b : bool) (l : Link) : Link :=
  mkLink (_id l) (originalUrl l) (shortCode l) (customAlias l) (title l)
    (description l) (userId l) b (expiresAt l) (clickCount l)
    (uniqueClicks l) (lastClickedAt l) (createdAt l).

Definition inc_urlCount (d : Z) (u : User) : User :=
  mkUser (urlCount u + d) (totalClicks u).

(** [query.populate("userId", ...)] on one document. *)
Definition populate (us : gmap nat User) (l : Link) : Link :=
  match userId l with
  | Some u =>
      match us !! u with
      | Some _ => l
      | None => set_userId None l
      end
  | None => l
  end.

(** ** JavaScript numbers

    A number is an IEEE 754 binary64 value: 53 binary digits, exponents
    below 1024. [/] and [*] round the exact result to the nearest number,
    ties to even; these are [SFdiv] and [SFmul] of [SpecFloat]. *)
Module Number.

Definition prec : Z := 53.
Definition emax : Z := 1024.

(** The number an integer stands for: the integer itself when it has at
    most 53 binary digits, the nearest number otherwise. *)
Definition of_Z (z : Z) : spec_float := binary_normalize prec emax z 0 false.
Definition of_N (n : N) : spec_float := of_Z (Z.of_N n).

Definition div : spec_float -> spec_float -> spec_float := SFdiv prec emax.
Definition mul : spec_float -> spec_float -> spec_float := SFmul prec emax.

(** The rational a finite number denotes; 0 for the zeros, and for
    [NaN] and the infinities, which denote none. *)
Definition to_Q (x : spec_float) : Q :=
  match x with
  | S754_finite s m e =>
      (if s then - (inject_Z (Z.pos m) * 2 ^ e)
       else inject_Z (Z.pos m) * 2 ^ e)%Q
  | _ => 0%Q
  end.

(** [Number.isFinite]. *)
Definition is_finite (x : spec_float) : bool :=
  match x with
  | S754_finite _ _ _ | S754_zero _ => true
  | _ => false
  end.

(** [Math.round]: the integer nearest to [x], the greater one at a tie;
    the zeros, [NaN] and the infinities are returned as they are, and a
    negative [x] that rounds to 0 gives [-0]. *)
Definition Math_round (x : spec_float) : spec_float :=
  match x with
  | S754_finite s _ _ =>
      binary_normalize prec emax (Qfloor (to_Q x + (1 # 2))) 0 s
  | _ => x
  end.

(** [Math.floor]. *)
Definition Math_floor (x : spec_float) : spec_float :=
  match x with
  | S754_finite s _ _ => binary_normalize prec emax (Qfloor (to_Q x)) 0 s
  | _ => x
  end.

(** [x || y] on numbers: [y] when [x] is [0], [-0] or [NaN]. *)
Definition or_else (x y : spec_float) : spec_float :=
  match x with
  | S754_zero _ | S754_nan => y
  | _ => x
  end.

End Number.

(** Virtuals, methods and statics of the URL schema. *)
Module URL_MODEL.

(** [urlSchema.virtual("clickThroughRate")]:
    [if (this.clickCount === 0) return 0;
     return Math.round((this.uniqueClicks / this.clickCount) * 100 * 100) / 100]. *)
Definition clickThroughRate (l : Link) : spec_float :=
  if (clickCount l =? 0)%N then Number.of_Z 0
  else
    Number.div
      (Number.Math_round
         (Number.mul
            (Number.mul
               (Number.div (Number.of_N (uniqueClicks l))
                           (Number.of_N (clickCount l)))
               (Number.of_Z 100))
            (Number.of_Z 100)))
      (Number.of_Z 100).

(** [urlSchema.virtual("isExpired")]: [expiresAt && expiresAt < new Date()]. *)
Definition isExpired (now : Z) (l : Link) : bool :=
  match expiresAt l with
  | Some t => t <? now
  | None => false
  end.

(** [urlSchema.methods.isAccessible]. *)
Definition isAccessible (now : Z) (l : Link) : bool :=
  isActive l && negb (isExpired now l).

(** [urlSchema.methods.recordClick], on the document itself. *)
Definition recordClick (isUnique : bool) (now : Z) (l : Link) : Link :=
  let l1 := set_clickCount (clickCount l + 1)%N l in
  let l2 := set_lastClickedAt (Some now) l1 in
  if isUnique then set_uniqueClicks (uniqueClicks l2 + 1)%N l2 else l2.

Definition ms_per_day : Z := 24 * 60 * 60 * 1000.

(** The order of [.sort({ clickCount: -1 })]. *)
Definition by_clicks (a b : Link) : Prop := (clickCount b <= clickCount a)%N.

#[global] Instance by_clicks_dec a b : Decision (by_clicks a b).
Proof. unfold by_clicks. apply _. Defined.

(** A cursor's [.limit(n)]; MongoDB reads a limit of 0 as no limit. *)
Definition limit {A} (n : nat) (l : list A) : list A :=
  match n with
  | O => l
  | _ => firstn n l
  end.

(** [urlSchema.statics.getPopularUrls(limit, days)]; the documents found
    are populated. *)
Definition getPopularUrls (lim : nat) (days : Z) (now : Z)
  (us : gmap nat User) (ls : list Link) : list Link :=
  let dateThreshold := now - days * ms_per_day in
  List.map (populate us)
    (limit lim
       (merge_sort by_clicks
          (List.filter
             (fun l => isActive l &&
                       match lastClickedAt l with
                       | Some t => dateThreshold <=? t
                       | None => false
                       end) ls))).

(** [urlSchema.virtual("ageInDays")]:
    [Math.floor((Date.now() - this.createdAt) / (1000 * 60 * 60 * 24))]. *)
Definition ageInDays (now : Z) (l : Link) : spec_float :=
  Number.Math_floor
    (Number.div (Number.of_Z (now - createdAt l))
                (Number.of_Z (1000 * 60 * 60 * 24))).

(** [urlSchema.virtual("averageClicksPerDay")]:
    [const ageInDays = this.ageInDays || 1;
     return Math.round((this.clickCount / ageInDays) * 100) / 100]. *)
Definition averageClicksPerDay (now : Z) (l : Link) : spec_float :=
  let ageInDays := Number.or_else (ageInDays now l) (Number.of_Z 1) in
  Number.div
    (Number.Math_round
       (Number.mul (Number.div (Number.of_N (clickCount l)) ageInDays)
                   (Number.of_Z 100)))
    (Number.of_Z 100).

(** The query [{ expiresAt: { $lt: new Date() } }]; a document without
    [expiresAt] does not match. *)
Definition q_expired (now : Z) (l : Link) : bool :=
  match expiresAt l with
  | Some t => t <? now
  | None => false
  end.

(** [urlSchema.statics.cleanupExpiredUrls]: [deleteMany] of the expired
    documents; the result is [deletedCount] and the collection left. *)
Definition cleanupExpiredUrls (now : Z) (ls : list Link) : nat * list Link :=
  (length (List.filter (q_expired now) ls),
   List.filter (fun l => negb (q_expired now l)) ls).

End URL_MODEL.

(** ** config/config.js and the outside world *)

Record Config := mkConfig { maxUrlLength : nat; allowCustomAlias : bool }.

Record Env := mkEnv {
  config : Config;
  (** [new NodeURL(url).protocol]; [None] when the constructor throws. *)
  NodeURL_protocol : string -> option string;
  (** The code [generateShortCode()] returns when the random generator is in
      its [n]-th state. *)
  generateShortCode : nat -> string
}.

(** ** The errors the service throws *)

Inductive Error :=
| InvalidUrlFormat
| UrlTooLong (max : nat)
| UrlLimitReached
| CustomAliasNotAllowed
| InvalidCustomAlias (errs : list string)
| CustomAliasTaken
| ShortCodeExhausted
| ValidationFailed
| DuplicateKey
| DeleteNotFound
| UrlsArrayRequired
| TooManyUrls
| NullEntry.

(** The text of each error; the two that Mongoose raises from [save()] carry
    a text of the library and stand here with a placeholder. [NullEntry] is
    the [TypeError] of reading [originalUrl] from [null]. *)
Definition error_message (e : Error) : string :=
  match e with
  | InvalidUrlFormat =>
      "Invalid URL format. URL must start with http:// or https://"
  | UrlTooLong max =>
      "URL too long. Maximum length is " +:+ pretty max +:+ " characters"
  | UrlLimitReached =>
      "URL limit reached. You can create up to 20 shortened URLs. Please delete some existing URLs to create new ones, or contact support for a premium account with higher limits."
  | CustomAliasNotAllowed => "Custom aliases are not allowed on this instance"
  | InvalidCustomAlias errs =>
      "Invalid custom alias: " +:+ String.concat ", " errs
  | CustomAliasTaken => "Custom alias is already taken"
  | ShortCodeExhausted =>
      "Unable to generate unique short code after multiple attempts"
  | ValidationFailed => "URL validation failed"
  | DuplicateKey => "E11000 duplicate key error"
  | DeleteNotFound =>
      "URL not found or you don't have permission to delete it"
  | UrlsArrayRequired => "URLs data array is required"
  | TooManyUrls => "Maximum 100 URLs allowed per bulk request"
  | NullEntry => "Cannot read properties of null (reading 'originalUrl')"
  end.

(** The errors of the operations other than creation and deletion. *)
Inductive OpError :=
| ToggleNotFound
| UpdateNotFound
| UrlNotFound
| UrlIdsRequired
| UpdatesRequired
| TooManyUpdates
| UrlIdRequired
| UpdateDuplicateKey
| NullUpdate
| InvalidAlias (errs : list string).

Definition op_error_message (e : OpError) : string :=
  match e with
  | ToggleNotFound => "URL not found or you don't have permission"
  | UpdateNotFound =>
      "URL not found or you don't have permission to update it"
  | UrlNotFound => "URL not found"
  | UrlIdsRequired => "URL IDs array is required"
  | UpdatesRequired => "Updates array is required"
  | TooManyUpdates => "Maximum 50 URLs allowed per bulk update request"
  | UrlIdRequired => "URL ID is required"
  | UpdateDuplicateKey => "E11000 duplicate key error"
  | NullUpdate => "Cannot read properties of null (reading 'id')"
  | InvalidAlias errs => "Invalid alias: " +:+ String.concat ", " errs
  end.

(** ** The state the service works on *)

Record State := mkState {
  urls : list Link;
  users : gmap nat User;
  nextId : nat;
  rng : nat
}.

(** The merged argument [{ ...urlData, ...options }] of [createUrl], with
    the defaults of the destructuring applied; [expiresIn] counts whole
    days. *)
Module UrlData.
Record t := mk {
  originalUrl : string;
  customAlias : option string;
  title : option string;
  description : option string;
  userId : option nat;
  generateQR : bool;
  fetchMetadata : bool;
  expiresIn : option Z
}.
End UrlData.

Record CreateResult := mkCreateResult {
  url : Link;
  isNew : bool;
  message : option string;
  qrCodePending : option bool;
  metadataPending : option bool
}.

Module Bulk.
Record Options := mkOptions {
  generateQR : bool;
  fetchMetadata : bool;
  skipDuplicates : bool;
  stopOnError : bool
}.
Record Results := mkResults {
  successful : list (nat * CreateResult);
  failed : list (nat * string * Error);
  skipped : list (nat * Link);
  totalProcessed : nat;
  successCount : nat;
  errorCount : nat;
  skippedCount : nat
}.
Definition empty : Results := mkResults [] [] [] 0 0 0 0.
End Bulk.

Module Popular.
Record Options := mkOptions {
  userId : option nat;
  limit : nat;
  days : Z;
  minClicks : Z
}.
End Popular.

(** ** services/urlService.js *)

Module UrlService.

(** [Model.findOne(query)]: the first document that satisfies the query. *)
Definition findOne (q : Link -> bool) (ls : list Link) : option Link :=
  List.find q ls.

(** [Model.countDocuments(query)]. *)
Definition countDocuments (q : Link -> bool) (ls : list Link) : nat :=
  length (List.filter q ls).

(** [Model.findOneAndDelete(query)]: the collection without the first
    document that satisfies the query. *)
Fixpoint delete_first (q : Link -> bool) (ls : list Link) : list Link :=
  match ls with
  | [] => []
  | l :: r => if q l then r else l :: delete_first q r
  end.

(** [doc.save()] of a document read from the collection: it replaces the
    stored document that has its [_id]. *)
Fixpoint save_existing (d : Link) (ls : list Link) : list Link :=
  match ls with
  | [] => []
  | l :: r =>
      if bool_decide (_id l = _id d) then d :: r else l :: save_existing d r
  end.

(** [User.findByIdAndUpdate(userId, { $inc: { urlCount: d } })]. *)
Definition inc_user_urlCount (u : nat) (d : Z) (us : gmap nat User)
  : gmap nat User :=
  alter (inc_urlCount d) u us.

(** The queries of the service. *)

(** [{ userId, isActive: true }] *)
Definition q_active_of (u : nat) (l : Link) : bool :=
  bool_decide (userId l = Some u) && isActive l.

(** [{ originalUrl, userId, isActive: true }]; the queried URL is cast
    by the schema, which trims it. *)
Definition q_duplicate (o : string) (u : nat) (l : Link) : bool :=
  bool_decide (originalUrl l = Chars.trim o)
  && bool_decide (userId l = Some u)
  && isActive l.

(** [{ originalUrl, userId }] *)
Definition q_same_url (o : string) (u : nat) (l : Link) : bool :=
  bool_decide (originalUrl l = Chars.trim o)
  && bool_decide (userId l = Some u).

(** [{ $or: [{ shortCode: c }, { customAlias: c }] }]; the queried code is
    cast by the schema, which trims it. *)
Definition q_code (c : string) (l : Link) : bool :=
  bool_decide (shortCode l = Chars.trim c)
  || bool_decide (customAlias l = Some (Chars.trim c)).

(** [{ $or: [{ shortCode }, { customAlias: shortCode }], isActive: true }] *)
Definition q_active_code (c : string) (l : Link) : bool :=
  q_code c l && isActive l.

(** [{ _id: urlId, userId }] *)
Definition q_owned (urlId u : nat) (l : Link) : bool :=
  bool_decide (_id l = urlId) && bool_decide (userId l = Some u).

(** A string option as a JavaScript condition: absent and empty are falsy. *)
Definition truthy (o : option string) : option string :=
  match o with
  | Some s => if bool_decide (s = "") then None else Some s
  | None => None
  end.

(** [x?.trim() || null] *)
Definition trimmed_or_null (o : option string) : option string :=
  match o with
  | Some s => truthy (Some (Chars.trim s))
  | None => None
  end.

(** The schema's rule for [shortCode] and [customAlias]: [minLength 3],
    [maxLength 30], [match /^[A-Za-z0-9_-]+$/]. *)
Definition schema_code_ok (s : string) : bool :=
  (3 <=? String.length s)%nat && (String.length s <=? 30)%nat
  && Chars.matches_plus Chars.is_code_char s.

Definition opt_length_le (n : nat) (o : option string) : bool :=
  match o with
  | Some s => (String.length s <=? n)%nat
  | None => true
  end.

(** The validators [save()] runs on a new document. Those of [originalUrl]
    (required, [maxLength], parseable) repeat, on the trimmed URL, checks
    [createUrl] has made on the URL as given; the parser skips leading and
    trailing white space itself. *)
Definition validate_doc (d : Link) : bool :=
  schema_code_ok (shortCode d)
  && match customAlias d with Some a => schema_code_ok a | None => true end
  && opt_length_le 100 (title d)
  && opt_length_le 500 (description d).

(** The unique indices on [shortCode] and (sparse) on [customAlias]. *)
Definition unique_ok (d : Link) (ls : list Link) : bool :=
  negb (existsb (fun l => bool_decide (shortCode l = shortCode d)) ls)
  && match customAlias d with
     | Some a => negb (existsb (fun l => bool_decide (customAlias l = Some a)) ls)
     | None => true
     end.

(** [urlDoc.save()] of a new document. *)
Definition save_new (d : Link) (ls : list Link) : Error + list Link :=
  if negb (validate_doc d) then inl ValidationFailed
  else if negb (unique_ok d ls) then inl DuplicateKey
  else inr (ls ++ [d]).

Section WithEnv.

Variable env : Env.

Definition _isValidUrl (u : string) : bool :=
  if bool_decide (u = "") then false
  else match NodeURL_protocol env u with
       | Some p => bool_decide (p = "http:") || bool_decide (p = "https:")
       | None => false
       end.

(** The loop of [_generateUniqueShortCode]; [fuel] is
    [maxAttempts - attempts]. The result is the code found, if any, and the
    state of the random generator. *)
Fixpoint generate_loop (fuel : nat) (ls : list Link) (r : nat)
  : option string * nat :=
  match fuel with
  | O => (None, r)
  | S fuel' =>
      let shortCode := generateShortCode env r in
      if bool_decide (Chars.trim shortCode = "") then
        generate_loop fuel' ls (S r)
      else
        match findOne (q_code shortCode) ls with
        | None => (Some shortCode, S r)
        | Some _ => generate_loop fuel' ls (S r)
        end
  end.

Definition _generateUniqueShortCode (ls : list Link) (r : nat)
  : (Error + string) * nat :=
  match generate_loop 10 ls r with
  | (Some c, r') => (inr c, r')
  | (None, r') => (inl ShortCodeExhausted, r')
  end.

(** The branch of [createUrl] that settles [finalShortCode]. *)
Definition choose_code (alias : option string) (ls : list Link) (r : nat)
  : (Error + string) * nat :=
  match truthy alias with
  | Some customAlias =>
      if negb (allowCustomAlias (config env)) then
        (inl CustomAliasNotAllowed, r)
      else
        let validation := validateShortCode customAlias in
        if negb (isValid validation) then
          (inl (InvalidCustomAlias (errors validation)), r)
        else
          match findOne (q_code customAlias) ls with
          | Some _ => (inl CustomAliasTaken, r)
          | None => (inr customAlias, r)
          end
  | None => _generateUniqueShortCode ls r
  end.

(** [new URL_MODEL({...})] with [customAlias] assigned after it; the
    setters of the schema trim [originalUrl] and [shortCode], and leave the
    alias, the title and the description, trimmed already, as they are. *)
Definition new_doc (a : UrlData.t) (finalShortCode : string) (now : Z)
  (id : nat) : Link :=
  {| _id := id;
     originalUrl := Chars.trim (UrlData.originalUrl a);
     shortCode := Chars.trim finalShortCode;
     customAlias :=
       match truthy (UrlData.customAlias a) with
       | Some c => truthy (Some (Chars.trim c))
       | None => None
       end;
     title := trimmed_or_null (UrlData.title a);
     description := trimmed_or_null (UrlData.description a);
     userId := UrlData.userId a;
     isActive := true;
     expiresAt :=
       match UrlData.expiresIn a with
       | Some d => if d =? 0 then None
                   else Some (now + d * 24 * 60 * 60 * 1000)
       | None => None
       end;
     clickCount := 0;
     uniqueClicks := 0;
     lastClickedAt := None;
     createdAt := now |}.

Definition over_limit (o : option nat) (ls : list Link) : bool :=
  match o with
  | Some u => (20 <=? countDocuments (q_active_of u) ls)%nat
  | None => false
  end.

Definition existing_duplicate (a : UrlData.t) (ls : list Link)
  : option Link :=
  match UrlData.userId a with
  | Some u => findOne (q_duplicate (UrlData.originalUrl a) u) ls
  | None => None
  end.

Definition bump_owner (o : option nat) (us : gmap nat User)
  : gmap nat User :=
  match o with
  | Some u => inc_user_urlCount u 1 us
  | None => us
  end.

(** [createUrl(urlData, options)]. The error returned is the one thrown
    inside the [try]; the [catch] rethrows it with the prefix of
    [createUrl_message]. *)
Definition createUrl (a : UrlData.t) (now : Z) (st : State)
  : (Error + CreateResult) * State :=
  if negb (_isValidUrl (UrlData.originalUrl a)) then
    (inl InvalidUrlFormat, st)
  else if (maxUrlLength (config env)
           <? String.length (UrlData.originalUrl a))%nat then
    (inl (UrlTooLong (maxUrlLength (config env))), st)
  else if over_limit (UrlData.userId a) (urls st) then
    (inl UrlLimitReached, st)
  else
    match existing_duplicate a (urls st) with
    | Some existingUrl =>
        (inr (mkCreateResult existingUrl false
                (Some "URL already exists in your account") None None), st)
    | None =>
        match choose_code (UrlData.customAlias a) (urls st) (rng st) with
        | (inl e, r) => (inl e, mkState (urls st) (users st) (nextId st) r)
        | (inr finalShortCode, r) =>
            let urlDoc := new_doc a finalShortCode now (nextId st) in
            match save_new urlDoc (urls st) with
            | inl e =>
                (inl e, mkState (urls st) (users st) (S (nextId st)) r)
            | inr ls =>
                (inr (mkCreateResult urlDoc true None
                        (Some (UrlData.generateQR a))
                        (Some (UrlData.fetchMetadata a))),
                 mkState ls (bump_owner (UrlData.userId a) (users st))
                   (S (nextId st)) r)
            end
        end
    end.

Definition createUrl_message (e : Error) : string :=
  "URL creation failed: " +:+ error_message e.

(** The view increment of [getUrlByShortCode]: [url.clickCount += 1]. *)
Definition incrementView (l : Link) : Link :=
  set_clickCount (clickCount l + 1)%N l.

(** [getUrlByShortCode(shortCode, incrementView)]; [None] is [null]. The
    document found is populated; [save()] writes the modified path,
    [clickCount], and leaves the stored owner as it is. *)
Definition getUrlByShortCode (shortCode : string) (incView : bool) (now : Z)
  (st : State) : option Link * State :=
  match findOne (q_active_code shortCode) (urls st) with
  | None => (None, st)
  | Some url =>
      if URL_MODEL.isExpired now url then (None, st)
      else if incView then
        let url' := incrementView url in
        (Some (populate (users st) url'),
         mkState (save_existing url' (urls st)) (users st) (nextId st)
           (rng st))
      else (Some (populate (users st) url), st)
  end.

(** [deleteUrl(urlId, userId)]. The service declares two parameters; a third
    argument, which the controller passes, is dropped by the call. *)
Definition deleteUrl (urlId userId : nat) (hard : bool) (st : State)
  : (Error + bool) * State :=
  match findOne (q_owned urlId userId) (urls st) with
  | None => (inl DeleteNotFound, st)
  | Some _ =>
      (inr true,
       mkState (delete_first (q_owned urlId userId) (urls st))
         (inc_user_urlCount userId (-1) (users st)) (nextId st) (rng st))
  end.

(** The order of [.sort({ clickCount: -1, createdAt: -1 })]. *)
Definition popular_order (a b : Link) : Prop :=
  (clickCount b < clickCount a)%N
  \/ (clickCount a = clickCount b /\ createdAt b <= createdAt a).

#[global] Instance popular_order_dec a b : Decision (popular_order a b).
Proof. unfold popular_order. apply _. Defined.

(** The query [getPopularUrls] builds from its options. *)
Definition popular_query (o : Popular.Options) (now : Z) (l : Link) : bool :=
  isActive l
  && (Popular.minClicks o <=? Z.of_N (clickCount l))
  && match Popular.userId o with
     | Some u => bool_decide (userId l = Some u)
     | None => true
     end
  && (if Popular.days o =? 0 then true
      else
        let dateThreshold := now - Popular.days o * 24 * 60 * 60 * 1000 in
        dateThreshold <=? createdAt l).

(** [getPopularUrls(options)]; the documents found are populated. *)
Definition getPopularUrls (o : Popular.Options) (now : Z) (st : State)
  : list Link :=
  List.map (populate (users st))
    (URL_MODEL.limit (Popular.limit o)
       (merge_sort popular_order
          (List.filter (popular_query o now) (urls st)))).

(** The [for] loop of [bulkCreateUrls], from index [i] on; [nowAt i] is the
    time at which entry [i] is handled. An entry is an object or [null].
    For [null] the handler of the loop itself throws, on reading
    [urlData.originalUrl], whatever failed before: the loop is left with
    that error and the results are lost. *)
Fixpoint bulk_loop (items : list (option UrlData.t)) (i : nat) (userId : nat)
  (o : Bulk.Options) (nowAt : nat -> Z) (res : Bulk.Results) (st : State)
  : (Error + Bulk.Results) * State :=
  match items with
  | [] => (inr res, st)
  | None :: _ => (inl NullEntry, st)
  | Some urlData :: rest =>
      let processed := S (Bulk.totalProcessed res) in
      let existing :=
        if Bulk.skipDuplicates o then
          findOne (q_same_url (UrlData.originalUrl urlData) userId) (urls st)
        else None in
      match existing with
      | Some existingUrl =>
          bulk_loop rest (S i) userId o nowAt
            (Bulk.mkResults (Bulk.successful res) (Bulk.failed res)
               (Bulk.skipped res ++ [(i, existingUrl)]) processed
               (Bulk.successCount res) (Bulk.errorCount res)
               (S (Bulk.skippedCount res))) st
      | None =>
          let urlWithUser :=
            UrlData.mk (UrlData.originalUrl urlData)
              (UrlData.customAlias urlData) (UrlData.title urlData)
              (UrlData.description urlData) (Some userId)
              (Bulk.generateQR o) (Bulk.fetchMetadata o)
              (UrlData.expiresIn urlData) in
          match createUrl urlWithUser (nowAt i) st with
          | (inr result, st') =>
              bulk_loop rest (S i) userId o nowAt
                (Bulk.mkResults (Bulk.successful res ++ [(i, result)])
                   (Bulk.failed res) (Bulk.skipped res) processed
                   (S (Bulk.successCount res)) (Bulk.errorCount res)
                   (Bulk.skippedCount res)) st'
          | (inl e, st') =>
              let res' :=
                Bulk.mkResults (Bulk.successful res)
                  (Bulk.failed res ++ [(i, UrlData.originalUrl urlData, e)])
                  (Bulk.skipped res) processed (Bulk.successCount res)
                  (S (Bulk.errorCount res)) (Bulk.skippedCount res) in
              if Bulk.stopOnError o then (inr res', st')
              else bulk_loop rest (S i) userId o nowAt res' st'
          end
      end
  end.

(** [bulkCreateUrls(urlsData, userId, options)]. *)
Definition bulkCreateUrls (urlsData : list (option UrlData.t)) (userId : nat)
  (o : Bulk.Options) (nowAt : nat -> Z) (st : State)
  : (Error + Bulk.Results) * State :=
  if (length urlsData =? 0)%nat then (inl UrlsArrayRequired, st)
  else if (100 <? length urlsData)%nat then (inl TooManyUrls, st)
  else
    match bulk_loop urlsData 0 userId o nowAt Bulk.empty st with
    | (inr results, st') =>
        if (0 <? Bulk.successCount results)%nat then
          (inr results,
           mkState (urls st')
             (inc_user_urlCount userId (Z.of_nat (Bulk.successCount results))
                (users st'))
             (nextId st') (rng st'))
        else (inr results, st')
    | (inl e, st') => (inl e, st')
    end.

End WithEnv.

(** *** The other operations of the service *)

(** [{ _id: urlId }], with [userId] added when one is given. *)
Definition q_id_of (urlId : nat) (owner : option nat) (l : Link) : bool :=
  bool_decide (_id l = urlId)
  && match owner with
     | Some u => bool_decide (userId l = Some u)
     | None => true
     end.

(** [getUrlById(urlId, userId)]; [None] is [null]. The document found is
    populated. *)
Definition getUrlById (urlId : nat) (owner : option nat) (st : State)
  : option Link :=
  populate (users st) <$> findOne (q_id_of urlId owner) (urls st).

Record UrlStats := mkUrlStats {
  stats_id : nat;
  stats_shortCode : string;
  stats_originalUrl : string;
  stats_title : option string;
  stats_clickCount : N;
  stats_uniqueClicks : N;
  stats_createdAt : Z;
  stats_lastClickedAt : option Z;
  stats_isActive : bool;
  stats_isExpired : bool
}.

(** [getUrlStats(urlId, userId)]. *)
Definition getUrlStats (urlId : nat) (owner : option nat) (now : Z)
  (st : State) : OpError + UrlStats :=
  match findOne (q_id_of urlId owner) (urls st) with
  | None => inl UrlNotFound
  | Some url =>
      inr (mkUrlStats (_id url) (shortCode url) (originalUrl url) (title url)
             (clickCount url) (uniqueClicks url) (createdAt url)
             (lastClickedAt url) (isActive url) (URL_MODEL.isExpired now url))
  end.

(** The update document [updateUrl] hands to [findOneAndUpdate], without
    update operators: for each path of the URL schema kept in a [Link],
    [_id] and [createdAt] apart, the value to set when the document has
    the key. A value has the type of its path; for a path that may hold
    [null] it is [None] for [null], except for [customAlias], where the
    sparse index tells [null] from a missing alias and only strings are
    covered. Mongoose drops the keys that are no paths of the schema,
    applies [trim] to the strings it sets and, as [runValidators] is not
    set, validates nothing. *)
Record UpdateData := mkUpdateData {
  upd_originalUrl : option string;
  upd_shortCode : option string;
  upd_customAlias : option string;
  upd_title : option (option string);
  upd_description : option (option string);
  upd_userId : option (option nat);
  upd_isActive : option bool;
  upd_expiresAt : option (option Z);
  upd_clickCount : option N;
  upd_uniqueClicks : option N;
  upd_lastClickedAt : option (option Z)
}.

(** The update [{}]; [undefined] in the place of the update does the same. *)
Definition no_update : UpdateData :=
  mkUpdateData None None None None None None None None None None None.

(** The value of a path after the update. *)
Definition set_path {A} (v : option A) (old : A) : A :=
  match v with
  | Some x => x
  | None => old
  end.

(** [trim] on a value that may be [null]. *)
Definition trim_opt (v : option string) : option string := Chars.trim <$> v.

Definition apply_update (d : UpdateData) (l : Link) : Link :=
  mkLink (_id l)
    (set_path (Chars.trim <$> upd_originalUrl d) (originalUrl l))
    (set_path (Chars.trim <$> upd_shortCode d) (shortCode l))
    (set_path (Some <$> (Chars.trim <$> upd_customAlias d)) (customAlias l))
    (set_path (trim_opt <$> upd_title d) (title l))
    (set_path (trim_opt <$> upd_description d) (description l))
    (set_path (upd_userId d) (userId l))
    (set_path (upd_isActive d) (isActive l))
    (set_path (upd_expiresAt d) (expiresAt l))
    (set_path (upd_clickCount d) (clickCount l))
    (set_path (upd_uniqueClicks d) (uniqueClicks l))
    (set_path (upd_lastClickedAt d) (lastClickedAt l))
    (createdAt l).

(** The unique indices on [shortCode] and (sparse) on [customAlias], for
    an update that sets one of them: another document holds the value that
    [url'], the updated document, would hold. *)
Definition index_conflict (d : UpdateData) (url' : Link) (ls : list Link)
  : bool :=
  match upd_shortCode d with
  | Some _ =>
      existsb (fun l => negb (_id l =? _id url')%nat
                        && bool_decide (shortCode l = shortCode url')) ls
  | None => false
  end
  || match upd_customAlias d with
     | Some _ =>
         existsb (fun l => negb (_id l =? _id url')%nat
                           && bool_decide (customAlias l = customAlias url'))
           ls
     | None => false
     end.

(** [Model.findOneAndUpdate(query, update)]: the update applied to the
    first document that satisfies the query. *)
Fixpoint update_first (q : Link -> bool) (f : Link -> Link) (ls : list Link)
  : list Link :=
  match ls with
  | [] => []
  | l :: r => if q l then f l :: r else l :: update_first q f r
  end.

(** [updateUrl(urlId, userId, updateData)]; the result is the updated
    document ([{ new: true }]). *)
Definition updateUrl (urlId userId : nat) (updateData : UpdateData)
  (st : State) : (OpError + Link) * State :=
  match findOne (q_owned urlId userId) (urls st) with
  | None => (inl UpdateNotFound, st)
  | Some url =>
      let url' := apply_update updateData url in
      if index_conflict updateData url' (urls st)
      then (inl UpdateDuplicateKey, st)
      else
        (inr url',
         mkState (update_first (q_owned urlId userId)
                    (apply_update updateData) (urls st))
           (users st) (nextId st) (rng st))
  end.

(** [toggleUrlStatus(urlId, userId)]. *)
Definition toggleUrlStatus (urlId userId : nat) (st : State)
  : (OpError + Link) * State :=
  match findOne (q_owned urlId userId) (urls st) with
  | None => (inl ToggleNotFound, st)
  | Some url =>
      let url' := set_isActive (negb (isActive url)) url in
      (inr url',
       mkState (save_existing url' (urls st)) (users st) (nextId st) (rng st))
  end.

(** [{ _id: { $in: urlIds }, userId }] *)
Definition q_ids_owned (urlIds : list nat) (u : nat) (l : Link) : bool :=
  bool_decide (_id l ∈ urlIds) && bool_decide (userId l = Some u).

Record BulkDeleteResult := mkBulkDeleteResult {
  deletedCount : nat;
  requestedCount : nat;
  success : bool
}.

(** [bulkDeleteUrls(urlIds, userId)]. *)
Definition bulkDeleteUrls (urlIds : list nat) (userId : nat) (st : State)
  : (OpError + BulkDeleteResult) * State :=
  if (length urlIds =? 0)%nat then (inl UrlIdsRequired, st)
  else
    let deleted := length (List.filter (q_ids_owned urlIds userId) (urls st)) in
    let ls := List.filter (fun l => negb (q_ids_owned urlIds userId l))
                (urls st) in
    (inr (mkBulkDeleteResult deleted (length urlIds) (0 <? deleted)%nat),
     mkState ls
       (if (0 <? deleted)%nat
        then inc_user_urlCount userId (- Z.of_nat deleted) (users st)
        else users st)
       (nextId st) (rng st)).


Module Recent.
Record Options := mkOptions {
  userId : option nat;
  limit : nat;
  isActive : option bool
}.
End Recent.

(** The order of [.sort({ createdAt: -1 })]. *)
Definition recent_order (a b : Link) : Prop := createdAt b <= createdAt a.

#[global] Instance recent_order_dec a b : Decision (recent_order a b).
Proof. unfold recent_order. apply _. Defined.

Definition recent_query (o : Recent.Options) (l : Link) : bool :=
  match Recent.userId o with
  | Some u => bool_decide (userId l = Some u)
  | None => true
  end
  && match Recent.isActive o with
     | Some b => bool_decide (isActive l = b)
     | None => true
     end.

(** [getRecentUrls(options)]; the documents found are populated. *)
Definition getRecentUrls (o : Recent.Options) (st : State) : list Link :=
  List.map (populate (users st))
    (URL_MODEL.limit (Recent.limit o)
       (merge_sort recent_order (List.filter (recent_query o) (urls st)))).

Module BulkUpdate.
Record Results := mkResults {
  successful : list (nat * nat * string);
  failed : list (nat * option nat * OpError);
  totalProcessed : nat;
  successCount : nat;
  errorCount : nat
}.
Definition empty : Results := mkResults [] [] 0 0 0.
End BulkUpdate.

(** The [for] loop of [bulkUpdateUrls], from index [i] on. An entry of the
    request is [None] for [null] or [undefined]; otherwise it is the [id]
    of the update, absent when falsy, and its [data]. Reading [update.id]
    of a [null] entry throws inside the [try], and again in the [catch]
    block, which ends the loop and the call. *)
Fixpoint bulk_update_loop
  (updates : list (option (option nat * UpdateData)))
  (i : nat) (userId : nat) (res : BulkUpdate.Results) (st : State)
  : (OpError + BulkUpdate.Results) * State :=
  match updates with
  | [] => (inr res, st)
  | None :: _ => (inl NullUpdate, st)
  | Some (id, data) :: rest =>
      let processed := S (BulkUpdate.totalProcessed res) in
      let fail e st' :=
        bulk_update_loop rest (S i) userId
          (BulkUpdate.mkResults (BulkUpdate.successful res)
             (BulkUpdate.failed res ++ [(i, id, e)]) processed
             (BulkUpdate.successCount res) (S (BulkUpdate.errorCount res)))
          st' in
      match id with
      | None => fail UrlIdRequired st
      | Some urlId =>
          match updateUrl urlId userId data st with
          | (inr updatedUrl, st') =>
              bulk_update_loop rest (S i) userId
                (BulkUpdate.mkResults
                   (BulkUpdate.successful res
                    ++ [(i, urlId, shortCode updatedUrl)])
                   (BulkUpdate.failed res) processed
                   (S (BulkUpdate.successCount res))
                   (BulkUpdate.errorCount res)) st'
          | (inl e, st') => fail e st'
          end
      end
  end.

(** [bulkUpdateUrls(updates, userId)]. *)
Definition bulkUpdateUrls
  (updates : list (option (option nat * UpdateData)))
  (userId : nat) (st : State) : (OpError + BulkUpdate.Results) * State :=
  if (length updates =? 0)%nat then (inl UpdatesRequired, st)
  else if (50 <? length updates)%nat then (inl TooManyUpdates, st)
  else bulk_update_loop updates 0 userId BulkUpdate.empty st.

Module UserUrls.
(** The options of [getUserUrls], with the defaults of the destructuring
    applied; [page] and [limit] are integers, as [parseInt] gives them for
    a numeral. *)
Record Options := mkOptions {
  page : Z;
  limit : Z;
  sortBy : string;
  sortOrder : string;
  search : string;
  isActive : option bool
}.
Record Pagination := mkPagination {
  currentPage : Z;
  totalPages : Z;
  totalUrls : nat;
  hasNextPage : bool;
  hasPrevPage : bool
}.
End UserUrls.

Section Listing.

(** [search_matches s l]: the [$or] of the case-insensitive [$regex] tests
    of [s] on the text fields of [l]. *)
Variable search_matches : string -> Link -> bool.

(** [sort_by f desc ls]: the cursor's [.sort({ [f]: desc ? -1 : 1 })]. *)
Variable sort_by : string -> bool -> list Link -> list Link.

Definition user_urls_query (owner : nat) (o : UserUrls.Options) (l : Link)
  : bool :=
  bool_decide (userId l = Some owner)
  && match UserUrls.isActive o with
     | Some b => bool_decide (isActive l = b)
     | None => true
     end
  && (if bool_decide (UserUrls.search o = "") then true
      else search_matches (UserUrls.search o) l).

(** [Math.ceil(totalUrls / limit)], for a positive [limit]. *)
Definition page_count (totalUrls : nat) (limit : Z) : Z :=
  Qceiling (inject_Z (Z.of_nat totalUrls) / inject_Z limit).

(** [getUserUrls(userId, options)]: the page of documents and the
    pagination record, for [1 <= page] and [1 <= limit]. The other
    requests are left out, with [None] for a result: there [skip] or
    [limit] is zero or negative and the outcome is the one of MongoDB's
    cursor for such values. *)
Definition getUserUrls (owner : nat) (o : UserUrls.Options) (st : State)
  : option (list Link * UserUrls.Pagination) :=
  let page := UserUrls.page o in
  let limit := UserUrls.limit o in
  if (1 <=? page) && (1 <=? limit) then
    let skip := (page - 1) * limit in
    let matched := List.filter (user_urls_query owner o) (urls st) in
    let totalUrls := length matched in
    let found :=
      firstn (Z.to_nat limit)
        (skipn (Z.to_nat skip)
           (sort_by (UserUrls.sortBy o)
              (bool_decide (UserUrls.sortOrder o = "desc")) matched)) in
    Some (found,
          UserUrls.mkPagination page (page_count totalUrls limit) totalUrls
            (page <? page_count totalUrls limit) (1 <? page))
  else None.

End Listing.

End UrlService.

(** ** controllers/urlController.js: [deleteUrl]

    [hardDelete] is the query parameter of [DELETE /api/urls/:id], absent or
    a string; the controller hands [hardDelete === "true"] to the service. *)
Module Controller.

Definition deleteUrl (id userId : nat) (hardDelete : option string)
  (st : State) : (Error + bool) * State :=
  UrlService.deleteUrl id userId (bool_decide (hardDelete = Some "true")) st.

End Controller.

(** ** What the design document asks of [delete]

    Soft delete flips [isActive] to [false] and keeps the record; hard delete
    removes it. Used only to compare the service with. *)
Module Design.

Fixpoint deactivate_first (q : Link -> bool) (ls : list Link) : list Link :=
  match ls with
  | [] => []
  | l :: r => if q l then set_isActive false l :: r
              else l :: deactivate_first q r
  end.

Definition delete_urls (id owner : nat) (hard : bool) (ls : list Link)
  : list Link :=
  if hard then UrlService.delete_first (UrlService.q_owned id owner) ls
  else deactivate_first (UrlService.q_owned id owner) ls.

End Design.

(** ** controllers/redirectController.js *)
Module Redirect.

Inductive Response :=
| NotFound (message : string)
| Found (location : string)
| BadRequest (message : string).

(** [handleRedirect]: 404 when the code does not resolve, else a 302 to the
    original URL. The click is recorded apart from the response. *)
Definition handleRedirect (shortCode : string) (now : Z) (st : State)
  : Response :=
  match (UrlService.getUrlByShortCode shortCode false now st).1 with
  | None => NotFound "Short URL not found or expired"
  | Some url => Found (originalUrl url)
  end.

Record Validation := mkValidation {
  shortCode : string;
  valid : bool;
  active : bool;
  expired : bool;
  destination : option string
}.

Record Summary := mkSummary {
  total : nat;
  valid_count : nat;
  invalid_count : nat;
  active_count : nat;
  expired_count : nat
}.

(** One entry of [validateBatchRedirects]; the Link is resolved at [now]
    and its [isExpired] is read at [later]. *)
Definition validate_one (now later : Z) (st : State) (code : string)
  : Validation :=
  match (UrlService.getUrlByShortCode code false now st).1 with
  | Some url =>
      mkValidation code true (isActive url) (URL_MODEL.isExpired later url)
        (Some (originalUrl url))
  | None => mkValidation code false false true None
  end.

Definition count (p : Validation -> bool) (rs : list Validation) : nat :=
  length (List.filter p rs).

(** [validateBatchRedirects]: the results and their summary, or a 400. *)
Definition validateBatchRedirects (shortCodes : list string) (now later : Z)
  (st : State) : Response + list Validation * Summary :=
  if (50 <? length shortCodes)%nat then
    inl (BadRequest "Maximum 50 short codes allowed per batch")
  else
    let results := List.map (validate_one now later st) shortCodes in
    inr (results,
         mkSummary (length shortCodes)
           (count valid results)
           (count (fun r => negb (valid r)) results)
           (count (fun r => valid r && active r) results)
           (count (fun r => valid r && expired r) results)).

End Redirect.

(** ** middleware/errorHandler.js *)
Module ErrorHandler.

(** The properties of a thrown object the handler reads. [keyPattern] lists
    the keys that hold a truthy value; [errors] lists the messages of the
    entries of [err.errors], and is [None] when the object has no such
    property. *)
Record Err := mkErr {
  name : string;
  code : option Z;
  keyPattern : list string;
  type : option string;
  statusCode : option nat;
  message : string;
  errors : option (list string)
}.

Definition has_key (k : string) (e : Err) : bool :=
  bool_decide (k ∈ keyPattern e).

(** One step of the handler: a rule that applies replaces the pair
    [(message, statusCode)] built so far. *)
Definition rule (applies : bool) (m : string) (c : nat)
  (error : string * option nat) : string * option nat :=
  if applies then (m, Some c) else error.

Definition duplicate_message (e : Err) : string :=
  if has_key "email" e then "Email already exists"
  else if has_key "shortCode" e then "Short code already exists"
  else if has_key "customAlias" e then "Custom alias already taken"
  else "Duplicate field value entered".

(** The rule for a Mongoose validation error. [Object.values(err.errors)]
    throws a [TypeError] when [err.errors] is missing: the handler is left
    and sends no response, which is [None]. *)
Definition validation_rule (err : Err) (error : string * option nat)
  : option (string * option nat) :=
  if bool_decide (name err = "ValidationError") then
    match errors err with
    | Some messages => Some (String.concat ", " messages, Some 400%nat)
    | None => None
    end
  else Some error.

(** [errorHandler(err, req, res, next)]: the status and the message of the
    response, or [None] when the handler throws. *)
Definition errorHandler (err : Err) : option (nat * string) :=
  let error0 := (message err, statusCode err) in
  let error1 :=
    rule (bool_decide (name err = "CastError")) "Resource not found" 404
      error0 in
  let error2 :=
    rule (bool_decide (code err = Some 11000)) (duplicate_message err) 400
      error1 in
  match validation_rule err error2 with
  | None => None
  | Some error3 =>
      let error4 :=
        rule (bool_decide (name err = "JsonWebTokenError")) "Invalid token"
          401 error3 in
      let error5 :=
        rule (bool_decide (name err = "TokenExpiredError")) "Token expired"
          401 error4 in
      let error6 :=
        rule (bool_decide (type err = Some "entity.too.large"))
          "Request body too large" 413 error5 in
      Some (match error6.2 with
            | Some c => if (c =? 0)%nat then 500%nat else c
            | None => 500%nat
            end,
            if bool_decide (error6.1 = "") then "Server Error" else error6.1)
  end.

(** A [new Error(text)] as the services throw it. *)
Definition plain (text : string) : Err :=
  mkErr "Error" None [] None None text None.

End ErrorHandler.

(** ** middleware/auth.js *)
Module Auth.

(** [s.split(" ")]. *)
Fixpoint split_space_acc (cur : string) (s : string) : list string :=
  match s with
  | EmptyString => [cur]
  | String c r =>
      if Ascii.eqb c " "%char then cur :: split_space_acc "" r
      else split_space_acc (cur +:+ String c "") r
  end.

Definition split_space (s : string) : list string := split_space_acc "" s.

Definition startsWith (p s : string) : bool :=
  bool_decide (String.substring 0 (String.length p) s = p).

(** The token both middlewares read from the [authorization] header;
    [None] when the variable stays falsy. *)
Definition token_of (authorization : option string) : option string :=
  match authorization with
  | Some h =>
      if negb (bool_decide (h = "")) && startsWith "Bearer" h then
        match nth_error (split_space h) 1 with
        | Some t => if bool_decide (t = "") then None else Some t
        | None => None
        end
      else None
  | None => None
  end.

Inductive Outcome :=
| Denied (status : nat) (message : string)
| Next (user : option (nat * User)).

Section WithJwt.

(** [jwt.verify(token, config.jwtSecret).id]; [None] when it throws. *)
Variable jwt_verify : string -> option nat.

(** [protect]. *)
Definition protect (authorization : option string) (us : gmap nat User)
  : Outcome :=
  match token_of authorization with
  | None => Denied 401 "No token, authorization denied"
  | Some token =>
      match jwt_verify token with
      | None => Denied 401 "Token is not valid"
      | Some id =>
          match us !! id with
          | None => Denied 401 "Token is valid but user no longer exists"
          | Some user => Next (Some (id, user))
          end
      end
  end.

(** [optionalAuth]. *)
Definition optionalAuth (authorization : option string) (us : gmap nat User)
  : Outcome :=
  match token_of authorization with
  | None => Next None
  | Some token =>
      match jwt_verify token with
      | None => Next None
      | Some id =>
          match us !! id with
          | None => Next None
          | Some user => Next (Some (id, user))
          end
      end
  end.

End WithJwt.

End Auth.

(** ** utils/shortCodeGenerator.js: [generateShortCode] *)
Module ShortCodeGenerator.

Definition characters : string :=
  "ABCDEFGHIJKLMNOPQRSTUVWXYZabcdefghijklmnopqrstuvwxyz0123456789".

(** [s.charAt(i)]: the empty string when [i] is out of range. *)
Definition charAt (i : nat) (s : string) : string :=
  match String.get i s with
  | Some c => String c ""
  | None => ""
  end.

(** The loop of [generateShortCode]; [draw i] is
    [Math.floor(Math.random() * characters.length)] at the [i]-th turn. *)
Fixpoint generate_from (n : nat) (draw : nat -> nat) (i : nat) : string :=
  match n with
  | O => ""
  | S n' => charAt (draw i) characters +:+ generate_from n' draw (S i)
  end.

Definition generateShortCode (length : nat) (draw : nat -> nat) : string :=
  generate_from length draw 0.

End ShortCodeGenerator.

(** ** utils/qrGenerator.js: [validateUrlForQR] *)
Module QR.

(** [/[^\x20-\x7E]/.test(url)]: some character outside the printable
    range. *)
Definition is_printable (c : ascii) : bool := Chars.between 32 126 c.

Definition has_problematic_chars (url : string) : bool :=
  negb (Chars.all_chars is_printable url).

Section WithParser.

(** [new URL(url)] does not throw. *)
Variable URL_parses : string -> bool.

Definition validateUrlForQR (url : string) : Validation :=
  if bool_decide (url = "") then
    {| isValid := false; errors := ["URL is required"] |}
  else
    let e1 := push_if (2048 <? String.length url)%nat
                "URL is too long for QR code (max 2048 characters)" [] in
    let e2 := push_if (negb (URL_parses url)) "Invalid URL format" e1 in
    let e3 := push_if (has_problematic_chars url)
                "URL contains non-printable characters that may cause issues"
                e2 in
    {| isValid := (length e3 =? 0)%nat; errors := e3 |}.

End WithParser.

End QR.

(** ** Operations on the counters of one Link *)

Inductive CounterOp :=
| OpRecordClick (isUnique : bool) (now : Z)
| OpIncrementView.

Definition apply_op (l : Link) (op : CounterOp) : Link :=
  match op with
  | OpRecordClick isUnique now => URL_MODEL.recordClick isUnique now l
  | OpIncrementView => UrlService.incrementView l
  end.

Definition run_ops (ops : list CounterOp) (l : Link) : Link :=
  fold_left apply_op ops l.

(** A Link that carries [code] as its short code or as its custom alias. *)
Definition code_of (code : string) (l : Link) : Prop :=
  shortCode l = code \/ customAlias l = Some code.

(** The counter invariant of the data model. *)
Definition counters_ok (l : Link) : Prop :=
  (uniqueClicks l <= clickCount l)%N.

(** A Link whose last recorded click is not older than [days] days. *)
Definition clicked_within (days now : Z) (l : Link) : Prop :=
  match lastClickedAt l with
  | Some t => now - days * URL_MODEL.ms_per_day <= t
  | None => False
  end.

(** The number of new Links among the successes of a bulk creation. *)
Definition created_count (res : Bulk.Results) : nat :=
  length (List.filter (fun p => isNew (snd p)) (Bulk.successful res)).

(** What holds of the results and the state at every turn of the loop of
    [bulkCreateUrls] run for user [u] from the state [st0], in which [u] is
    the user [usr0]. *)
Definition bulk_inv (u : nat) (o : Bulk.Options) (st0 : State) (usr0 : User)
  (res : Bulk.Results) (st : State) : Prop :=
  Bulk.successCount res = length (Bulk.successful res)
  /\ (length (urls st) = length (urls st0) + created_count res)%nat
  /\ (exists usr, users st !! u = Some usr
                  /\ urlCount usr
                     = urlCount usr0 + Z.of_nat (created_count res))
  /\ (Bulk.skipDuplicates o = true ->
      created_count res = Bulk.successCount res).

(** ** Invariants of a collection *)

(** No two documents share a code, be it as short code or as alias. *)
Definition codes_unique (ls : list Link) : Prop :=
  forall i j l1 l2 c,
    ls !! i = Some l1 -> ls !! j = Some l2 ->
    code_of c l1 -> code_of c l2 -> i = j.

(** The [_id]s of a collection are pairwise distinct. *)
Definition ids_unique (ls : list Link) : Prop := NoDup (List.map _id ls).

(** The number of active Links of user [u]. *)
Definition active_count (u : nat) (ls : list Link) : nat :=
  UrlService.countDocuments (UrlService.q_active_of u) ls.

(** The Links of a collection that do not belong to user [u]. *)
Definition others_of (u : nat) (ls : list Link) : list Link :=
  List.filter (fun l => negb (bool_decide (userId l = Some u))) ls.

(** A string without the space character. *)
Definition no_space (s : string) : Prop :=
  Chars.all_chars (fun c => negb (Ascii.eqb c " "%char)) s = true.

(** The fields of a Link that no update may change. *)
Definition fixed_part (l : Link)
  : nat * string * string * option string * option nat * option Z * N * N
    * option Z * Z :=
  (_id l, originalUrl l, shortCode l, customAlias l, userId l, expiresAt l,
   clickCount l, uniqueClicks l, lastClickedAt l, createdAt l).

(** An update that sets no path but [title], [description] and [isActive]:
    the paths among the fields [schemas.updateUrl] admits in a body. *)
Definition body_update (d : UrlService.UpdateData) : Prop :=
  UrlService.upd_originalUrl d = None
  /\ UrlService.upd_shortCode d = None
  /\ UrlService.upd_customAlias d = None
  /\ UrlService.upd_userId d = None
  /\ UrlService.upd_expiresAt d = None
  /\ UrlService.upd_clickCount d = None
  /\ UrlService.upd_uniqueClicks d = None
  /\ UrlService.upd_lastClickedAt d = None.

(** Some Link of the collection has the id and the user as owner. *)
Definition owns (u urlId : nat) (ls : list Link) : Prop :=
  exists l, In l ls /\ _id l = urlId /\ userId l = Some u.

(** The candidate [generateShortCode] yields in state [n] cannot be used:
    it is blank or some Link carries it, trimmed as the lookup trims it. *)
Definition candidate_rejected (env : Env) (ls : list Link) (n : nat) : Prop :=
  Chars.trim (generateShortCode env n) = ""
  \/ exists l, In l ls /\ code_of (Chars.trim (generateShortCode env n)) l.

(** ** Sample data *)

Module Demo.

Definition starts_with (p s : string) : bool :=
  bool_decide (String.substring 0 (String.length p) s = p).

Definition protocol (u : string) : option string :=
  if starts_with "https://" u then Some "https:"
  else if starts_with "http://" u then Some "http:"
  else None.

Definition env : Env :=
  mkEnv (mkConfig 2048 true) protocol (fun n => "c0de" +:+ pretty n).

Definition link (id : nat) (o code : string) (alias : option string)
  (owner : option nat) : Link :=
  mkLink id o code alias None None owner true None 0 0 None 0.

Definition user0 : User := mkUser 0 0.

Definition args (o : string) (alias : option string) (owner : option nat)
  : UrlData.t :=
  UrlData.mk o alias None None owner true true None.

(** Twenty active Links of user 1, the first of them for example.com. *)
Definition full_urls : list Link :=
  link 0 "https://example.com" "full0" None (Some 1%nat)
  :: List.map (fun i => link i ("https://site.example/" +:+ pretty i)
                          ("full" +:+ pretty i) None (Some 1%nat))
       (seq 1 19).

Definition full_state : State :=
  mkState full_urls {[ 1%nat := mkUser 20 0 ]} 20 0.

(** One Link of user 1 with the alias "launch". *)
Definition launch_state : State :=
  mkState [link 0 "https://example.com" "launch" (Some "launch") (Some 1%nat)]
    {[ 1%nat := mkUser 1 0 ]} 1 0.

Definition empty_state : State := mkState [] {[ 1%nat := user0 ]} 0 0.

Definition day : Z := URL_MODEL.ms_per_day.

(** A Link made one day before [10 * day] and viewed five times through
    the preview, never clicked. *)
Definition previewed : Link :=
  mkLink 3 "https://example.com" "prev123" None None None (Some 1%nat) true
    None 5 0 None (9 * day).

Definition popular_opts : Popular.Options :=
  Popular.mkOptions (Some 1%nat) 10 7 1.

Definition bulk_opts (skip : bool) : Bulk.Options :=
  Bulk.mkOptions false false skip false.

End Demo.

(** More sample data. *)
Module Sample.

Definition alice : nat := 1%nat.
Definition bob : nat := 2%nat.

Definition docs : list Link :=
  [ mkLink 10 "https://a.example" "aaa111" None (Some "A") None (Some alice)
      true None 4 2 (Some 50) 10;
    mkLink 11 "https://b.example" "promo" (Some "promo") None None
      (Some alice) true (Some 500) 9 9 (Some 60) 20;
    mkLink 12 "https://c.example" "ccc333" None None None (Some bob)
      true (Some 30) 1 0 None 25;
    mkLink 13 "https://d.example" "ddd444" None None None None
      false None 0 0 None 40 ].

Definition state : State :=
  mkState docs {[ alice := mkUser 2 13; bob := mkUser 1 1 ]} 14 0.

Definition env : Env :=
  mkEnv (mkConfig 2048 true) Demo.protocol
    (fun n => ShortCodeGenerator.generateShortCode 8 (fun i => (n + i) mod 62)%nat).

Definition by_created (f : string) (desc : bool) (ls : list Link)
  : list Link :=
  merge_sort UrlService.recent_order ls.

Definition verify (token : string) : option nat :=
  if bool_decide (token = "alice-token") then Some alice
  else if bool_decide (token = "ghost-token") then Some 99%nat
  else None.

End Sample.

(** ** Rounding: the notions the proofs about numbers use *)

(** Position of the rational [a / b] with respect to the integer [m]:
    equal to it, or strictly between [m] and [m + 1] and below, at or
    above the middle. *)
Definition inb (a b m : Z) (l : location) : Prop :=
  0 < b /\
  match l with
  | loc_Exact => a = m * b
  | loc_Inexact c =>
      m * b < a < (m + 1) * b /\ (2 * a ?= (2 * m + 1) * b) = c
  end.

Definition inbr (a b : Z) (r : shr_record) : Prop :=
  inb a b (shr_m r) (loc_of_shr_record r).

(** A positive number with a mantissa of 53 digits and an exponent
    between [lo] and [hi]. *)
Definition normal (x : spec_float) (lo hi : Z) : Prop :=
  exists m e, x = S754_finite false m e
              /\ 2 ^ 52 <= Z.pos m < 2 ^ 53 /\ lo <= e <= hi.

(** [v] is the positive rational [X] rounded to 53 binary digits: within
    [X / 2^53] of it, and on the same side of every integer below [2^52]. *)
Definition rounds (X v : Q) : Prop :=
  (0 < X
   /\ X - X * (1 # 2 ^ 53) <= v <= X + X * (1 # 2 ^ 53)
   /\ forall K, (0 < K < 2 ^ 52)%Z ->
                (X <= inject_Z K -> v <= inject_Z K)
                /\ (inject_Z K <= X -> inject_Z K <= v))%Q.

(** [n / 100] is a finite number between 0 and 100, within [10^-13] of
    the rational [n / 100]. *)
Definition hundredth_ok (n : Z) : bool :=
  let r := Number.div (Number.of_Z n) (Number.of_Z 100) in
  Number.is_finite r
  && Qle_bool 0 (Number.to_Q r) && Qle_bool (Number.to_Q r) 100
  && Qle_bool (Qabs (Number.to_Q r - (n # 100))) (1 # 10 ^ 13).

(** * Properties *)

(** ** Strings *)

Lemma all_chars_matches_plus p s :
  Chars.matches_plus p s = true <->
  Chars.all_chars p s = true /\ s <> "".
Proof.
  destruct s; simpl; split; intros H; try discriminate.
  - destruct H as [_ H]. congruence.
  - split; [exact H | discriminate].
  - apply H.
Qed.

Lemma length_push_if b e es :
  length (push_if b e es) = (length es + (if b then 1 else 0))%nat.
Proof. destruct b; simpl; [rewrite length_app; simpl |]; lia. Qed.

(** The validator of the service accepts exactly the well-formed codes. *)
Lemma validateShortCode_valid_iff s :
  isValid (validateShortCode s) = true <-> well_formed_code s.
Proof.
  unfold validateShortCode, well_formed_code.
  destruct (String.length s =? 0)%nat eqn:E0; simpl.
  - apply Nat.eqb_eq in E0. split; [discriminate | lia].
  - apply Nat.eqb_neq in E0.
    rewrite Nat.eqb_eq, !length_push_if.
    destruct (Nat.ltb_spec (String.length s) 3) as [E1|E1];
      destruct (Nat.ltb_spec 30 (String.length s)) as [E2|E2];
      destruct (Chars.matches_plus Chars.is_code_char s) eqn:E3;
      cbn [length negb];
      try (split; [lia | intros [_ ?]; lia]).
    + apply all_chars_matches_plus in E3 as [E3 _]. split; [intros _ | lia].
      split; [exact E3 | lia].
    + split; [lia | intros [Hc _]].
      assert (Chars.matches_plus Chars.is_code_char s = true); [| congruence].
      apply all_chars_matches_plus. split; [exact Hc |].
      intros ->. simpl in E0. lia.
Qed.

Lemma schema_code_ok_iff s :
  UrlService.schema_code_ok s = true <-> well_formed_code s.
Proof.
  unfold UrlService.schema_code_ok, well_formed_code.
  rewrite !andb_true_iff, !Nat.leb_le, all_chars_matches_plus.
  split.
  - intros [[? ?] [? _]]. auto.
  - intros [? [? ?]]. repeat split; try lia; auto.
    intros ->. simpl in *. lia.
Qed.

Lemma all_chars_impl (p q : ascii -> bool) s :
  (forall c, p c = true -> q c = true) ->
  Chars.all_chars p s = true -> Chars.all_chars q s = true.
Proof.
  intros Hpq. induction s as [|c s IH]; simpl; [reflexivity |].
  rewrite !andb_true_iff. intros [? ?]. auto.
Qed.

Lemma code_char_not_space c :
  Chars.is_code_char c = true -> Chars.is_space c = false.
Proof.
  destruct c as [[] [] [] [] [] [] [] []]; vm_compute; congruence.
Qed.

Lemma trim_end_no_space s :
  Chars.all_chars (fun c => negb (Chars.is_space c)) s = true ->
  Chars.trim_end s = s.
Proof.
  induction s as [|c s IH]; simpl; [reflexivity |].
  rewrite andb_true_iff, negb_true_iff. intros [Hc Hs].
  rewrite (IH Hs), Hc. destruct s; reflexivity.
Qed.

Lemma trim_well_formed s : well_formed_code s -> Chars.trim s = s.
Proof.
  intros [Hc _].
  assert (Hn : Chars.all_chars (fun c => negb (Chars.is_space c)) s = true).
  { apply (all_chars_impl Chars.is_code_char); [| exact Hc].
    intros c H. rewrite (code_char_not_space c H). reflexivity. }
  unfold Chars.trim.
  assert (Hs : Chars.trim_start s = s).
  { destruct s as [|c s]; [reflexivity |]. simpl in *.
    apply andb_true_iff in Hn as [Hn _]. apply negb_true_iff in Hn.
    rewrite Hn. reflexivity. }
  rewrite Hs. apply trim_end_no_space. exact Hn.
Qed.

(** C8. The alias [my-link] obeys the rule for codes (characters from
    [A-Za-z0-9_-], length 3 to 30) and the validator of the service accepts
    it, yet the request schema of the create route rejects it: the schema
    admits letters and digits only. *)
Theorem createUrl_schema_rejects_hyphen_alias :
  well_formed_code "my-link"
  /\ isValid (validateShortCode "my-link") = true
  /\ UrlService.schema_code_ok "my-link" = true
  /\ schemas_createUrl_customAlias (Some "my-link") = false.
Proof.
  split; [| repeat split; reflexivity].
  split; [reflexivity | simpl; lia].
Qed.

Lemma deleteUrl_ignores_hard id u hard st :
  UrlService.deleteUrl id u hard st = UrlService.deleteUrl id u true st.
Proof. reflexivity. Qed.

(** C3. A delete request without [hardDelete] (a soft delete) on a Link of
    the caller removes the record: nothing is left to carry
    [isActive = false], unlike what the documented behaviour keeps. The
    owner's [urlCount] goes down by one. *)
Theorem deleteUrl_soft_removes_record :
  let st := Demo.launch_state in
  let '(r, st') := Controller.deleteUrl 0 1 None st in
  r = inr true
  /\ urls st' = []
  /\ Design.delete_urls 0 1 false (urls st)
     = [set_isActive false (Demo.link 0 "https://example.com" "launch"
                              (Some "launch") (Some 1%nat))]
  /\ urlCount <$> (users st' !! 1%nat) = Some 0.
Proof. vm_compute. repeat split. Qed.

(** ** Counters *)

Lemma recordClick_counters isUnique now l :
  clickCount (URL_MODEL.recordClick isUnique now l) = (clickCount l + 1)%N
  /\ uniqueClicks (URL_MODEL.recordClick isUnique now l)
     = (uniqueClicks l + (if isUnique then 1 else 0))%N.
Proof. destruct isUnique; simpl; split; lia. Qed.

Lemma incrementView_counters l :
  clickCount (UrlService.incrementView l) = (clickCount l + 1)%N
  /\ uniqueClicks (UrlService.incrementView l) = uniqueClicks l.
Proof. split; reflexivity. Qed.

Lemma apply_op_counters l op :
  (clickCount (apply_op l op) = clickCount l + 1)%N
  /\ (uniqueClicks l <= uniqueClicks (apply_op l op) <= uniqueClicks l + 1)%N.
Proof.
  destruct op as [u now|]; simpl apply_op.
  - destruct (recordClick_counters u now l) as [-> ->]. destruct u; lia.
  - destruct (incrementView_counters l) as [-> ->]. lia.
Qed.

Lemma run_ops_app ops1 ops2 l :
  run_ops (ops1 ++ ops2) l = run_ops ops2 (run_ops ops1 l).
Proof. apply fold_left_app. Qed.

Lemma run_ops_counters ops : forall l,
  counters_ok l ->
  counters_ok (run_ops ops l)
  /\ (clickCount l <= clickCount (run_ops ops l))%N
  /\ (uniqueClicks l <= uniqueClicks (run_ops ops l))%N.
Proof.
  unfold counters_ok.
  induction ops as [|op ops IH]; intros l Hl; simpl.
  - lia.
  - pose proof (apply_op_counters l op) as [Hc Hu].
    destruct (IH (apply_op l op)) as (H1 & H2 & H3); [lia |].
    unfold run_ops in *. lia.
Qed.

(** C6. A new Link starts with both counters at 0. A recorded click adds
    exactly 1 to [clickCount] and adds 1 to [uniqueClicks] iff the click is
    unique; a view increment adds exactly 1 to [clickCount] and leaves
    [uniqueClicks] alone. Hence, for a Link with
    [uniqueClicks <= clickCount] and any sequence of these operations,
    [uniqueClicks <= clickCount] holds after every operation and neither
    counter ever decreases from one point of the sequence to a later one. *)
Theorem counters_monotone (l : Link) (ops1 ops2 : list CounterOp) :
  counters_ok l ->
  (forall a code now id ops,
      clickCount (UrlService.new_doc a code now id) = 0%N
      /\ uniqueClicks (UrlService.new_doc a code now id) = 0%N
      /\ counters_ok (run_ops ops (UrlService.new_doc a code now id)))
  /\ (forall isUnique now,
         clickCount (apply_op l (OpRecordClick isUnique now))
         = (clickCount l + 1)%N
         /\ uniqueClicks (apply_op l (OpRecordClick isUnique now))
            = (uniqueClicks l + (if isUnique then 1 else 0))%N)
  /\ (clickCount (apply_op l OpIncrementView) = (clickCount l + 1)%N
      /\ uniqueClicks (apply_op l OpIncrementView) = uniqueClicks l)
  /\ counters_ok (run_ops ops1 l)
  /\ (clickCount (run_ops ops1 l)
      <= clickCount (run_ops (ops1 ++ ops2) l))%N
  /\ (uniqueClicks (run_ops ops1 l)
      <= uniqueClicks (run_ops (ops1 ++ ops2) l))%N.
Proof.
  intros Hl.
  split.
  { intros a code now id ops. split; [reflexivity |]. split; [reflexivity |].
    apply run_ops_counters. unfold counters_ok. simpl. lia. }
  split; [intros; apply recordClick_counters |].
  split; [apply incrementView_counters |].
  destruct (run_ops_counters ops1 l Hl) as (H1 & _ & _).
  split; [exact H1 |].
  rewrite run_ops_app.
  destruct (run_ops_counters ops2 _ H1) as (_ & H2 & H3). auto.
Qed.

Lemma counters_monotone_witness :
  let l := Demo.previewed in
  let ops1 := [OpRecordClick true 1; OpIncrementView] in
  let ops2 := [OpRecordClick false 2] in
  counters_ok l
  /\ counters_ok (run_ops ops1 l)
  /\ (clickCount (run_ops ops1 l) <= clickCount (run_ops (ops1 ++ ops2) l))%N.
Proof.
  intros l ops1 ops2.
  assert (H : counters_ok l) by (vm_compute; discriminate).
  split; [exact H |].
  destruct (counters_monotone l ops1 ops2 H) as (_ & _ & _ & H1 & H2 & _).
  split; [exact H1 | exact H2].
Defined.

(** ** Binary64 arithmetic

    What [SpecFloat]'s rounding does to a quotient or a product of two
    normal numbers: the result is the rational value rounded to 53
    binary digits. *)

Lemma loc_of_record m l :
  loc_of_shr_record (shr_record_of_loc m l) = l
  /\ shr_m (shr_record_of_loc m l) = m.
Proof. destruct l as [|[]]; split; reflexivity. Qed.

Ltac cmp :=
  repeat match goal with
         | H : (?x ?= ?y) = Eq |- _ => apply Z.compare_eq_iff in H
         | H : (?x ?= ?y) = Lt |- _ => change (x < y) in H
         | H : (?x ?= ?y) = Gt |- _ => change (x > y) in H
         | |- (?x ?= ?y) = Eq => apply Z.compare_eq_iff
         | |- (?x ?= ?y) = Lt => change (x < y)
         | |- (?x ?= ?y) = Gt => change (x > y)
         end.

Lemma shr_1_spec a b r :
  0 <= shr_m r -> inbr a b r -> inbr a (2 * b) (shr_1 r) /\ 0 <= shr_m (shr_1 r).
Proof.
  destruct r as [m rb sb]. unfold inbr, inb. cbn [shr_m].
  intros Hm [Hb H].
  destruct m as [|[p|p|]|p]; try lia;
    destruct rb, sb; cbn [shr_1 shr_m loc_of_shr_record orb] in *;
    repeat match goal with H : _ /\ _ |- _ => destruct H end;
    cmp; (split; [| lia]); (split; [lia |]);
    try (split; [lia |]); cmp; try lia.
Qed.

Lemma pow2_xI n : 2 ^ Z.pos n~1 = 2 ^ Z.pos n * 2 ^ Z.pos n * 2.
Proof.
  assert (Z.pos n~1 = Z.pos n + Z.pos n + 1) as -> by lia.
  rewrite !Z.pow_add_r by lia. reflexivity.
Qed.

Lemma pow2_xO n : 2 ^ Z.pos n~0 = 2 ^ Z.pos n * 2 ^ Z.pos n.
Proof.
  assert (Z.pos n~0 = Z.pos n + Z.pos n) as -> by lia.
  rewrite !Z.pow_add_r by lia. reflexivity.
Qed.

Lemma iter_shr_spec n : forall a b r,
  0 <= shr_m r -> inbr a b r ->
  inbr a (2 ^ Z.pos n * b) (SpecFloat.iter_pos shr_1 n r)
  /\ 0 <= shr_m (SpecFloat.iter_pos shr_1 n r).
Proof.
  induction n as [n IH|n IH|]; intros a b r Hm H; cbn [SpecFloat.iter_pos].
  - destruct (shr_1_spec a b r Hm H) as [H1 Hm1].
    destruct (IH _ _ _ Hm1 H1) as [H2 Hm2].
    destruct (IH _ _ _ Hm2 H2) as [H3 Hm3].
    split; [| exact Hm3].
    replace (2 ^ Z.pos n~1 * b) with (2 ^ Z.pos n * (2 ^ Z.pos n * (2 * b)));
      [exact H3 |].
    rewrite pow2_xI. ring.
  - destruct (IH _ _ _ Hm H) as [H2 Hm2].
    destruct (IH _ _ _ Hm2 H2) as [H3 Hm3].
    split; [| exact Hm3].
    replace (2 ^ Z.pos n~0 * b) with (2 ^ Z.pos n * (2 ^ Z.pos n * b));
      [exact H3 |].
    rewrite pow2_xO. ring.
  - rewrite Z.pow_1_r. apply shr_1_spec; assumption.
Qed.

(** [shr] by [n >= 0] binary places. *)
Lemma shr_spec a b m l e n :
  0 <= m -> 0 <= n -> inb a b m l ->
  let '(r, e') := shr (shr_record_of_loc m l) e n in
  e' = e + n /\ inbr a (2 ^ n * b) r /\ 0 <= shr_m r.
Proof.
  intros Hm Hn H.
  assert (H0 : inbr a b (shr_record_of_loc m l)).
  { unfold inbr. destruct (loc_of_record m l) as [-> ->]. exact H. }
  assert (Hm0 : 0 <= shr_m (shr_record_of_loc m l)).
  { destruct (loc_of_record m l) as [_ ->]. exact Hm. }
  destruct n as [|n|n]; cbn [shr]; [| | lia].
  - rewrite Z.add_0_r, Z.pow_0_r, Z.mul_1_l. auto.
  - split; [reflexivity |]. apply iter_shr_spec; assumption.
Qed.

(** Binary digits. *)
Lemma digits2_pos_spec p :
  2 ^ (Z.pos (digits2_pos p) - 1) <= Z.pos p < 2 ^ Z.pos (digits2_pos p).
Proof.
  induction p as [p IH|p IH|]; cbn [digits2_pos].
  - rewrite Pos2Z.inj_succ.
    replace (Z.succ (Z.pos (digits2_pos p)) - 1) with (Z.pos (digits2_pos p) - 1 + 1) by lia.
    rewrite Z.pow_add_r, Z.pow_succ_r, Z.pow_1_r by lia. lia.
  - rewrite Pos2Z.inj_succ.
    replace (Z.succ (Z.pos (digits2_pos p)) - 1) with (Z.pos (digits2_pos p) - 1 + 1) by lia.
    rewrite Z.pow_add_r, Z.pow_succ_r, Z.pow_1_r by lia. lia.
  - simpl. lia.
Qed.

Lemma digits_unique m d :
  0 < d -> 2 ^ (d - 1) <= m < 2 ^ d -> Zdigits2 m = d.
Proof.
  intros Hd [H1 H2].
  assert (Hm : 0 < m) by (pose proof (Z.pow_pos_nonneg 2 (d - 1)); lia).
  destruct m as [|p|p]; try lia. cbn [Zdigits2].
  pose proof (digits2_pos_spec p) as [H3 H4].
  set (k := Z.pos (digits2_pos p)) in *.
  assert (Hk : 0 < k) by (subst k; lia).
  destruct (Z.lt_trichotomy k d) as [Hlt|[Heq|Hgt]]; [| exact Heq |].
  - assert (2 ^ k <= 2 ^ (d - 1)) by (apply Z.pow_le_mono_r; lia). lia.
  - assert (2 ^ d <= 2 ^ (k - 1)) by (apply Z.pow_le_mono_r; lia). lia.
Qed.

Lemma inb_bounds a b m l : inb a b m l -> 0 < b /\ m * b <= a < (m + 1) * b.
Proof. intros [Hb H]. destruct l; [subst a |]; lia. Qed.

Lemma round_nearest_even_spec a b m l :
  0 <= m -> inb a b m l ->
  let nr := round_nearest_even m l in
  m <= nr <= m + 1 /\ Z.abs (2 * nr * b - 2 * a) <= b.
Proof.
  intros Hm [Hb H]. cbn zeta.
  destruct l as [|[]]; cbn [round_nearest_even];
    [subst a; lia | | |]; destruct H as [[H1 H2] H3]; cmp.
  - destruct (Z.even m); lia.
  - lia.
  - lia.
Qed.

Lemma fexp_normal e : -1021 <= e -> fexp 53 1024 e = e - 53.
Proof. intros H. unfold fexp, emin. lia. Qed.

Lemma mul_lt_cancel_r x y b : 0 < b -> x * b < y * b -> x < y.
Proof. intros Hb H. apply (Z.mul_lt_mono_pos_r b); assumption. Qed.

Lemma bra_spec mx ex lx a b n :
  0 <= n -> 2 ^ (52 + n) <= mx < 2 ^ (53 + n) ->
  -1074 <= ex + n <= 970 ->
  inb a b mx lx ->
  exists m e nr,
    binary_round_aux 53 1024 false mx ex lx = S754_finite false m e
    /\ 2 ^ 52 <= Z.pos m < 2 ^ 53
    /\ ((e = ex + n /\ nr = Z.pos m) \/ (e = ex + n + 1 /\ nr = 2 * Z.pos m))
    /\ Z.abs (2 * nr * (2 ^ n * b) - 2 * a) <= 2 ^ n * b
    /\ 2 ^ 52 * (2 ^ n * b) <= a < 2 ^ 53 * (2 ^ n * b).
Proof.
  intros Hn Hmx He H.
  assert (Hpos : 0 < 2 ^ n) by (apply Z.pow_pos_nonneg; lia).
  assert (Hmx0 : 0 <= mx) by (pose proof (Z.pow_pos_nonneg 2 (52 + n)); lia).
  rewrite !Z.pow_add_r in Hmx by lia.
  set (P := 2 ^ n) in *.
  destruct (inb_bounds _ _ _ _ H) as (Hb & Ha1 & Ha2).
  unfold binary_round_aux, shr_fexp.
  rewrite (digits_unique mx (53 + n)); [| lia | rewrite !Z.pow_add_r by lia; fold P; replace (53 + n - 1) with (52 + n) by lia; rewrite Z.pow_add_r by lia; fold P; lia].
  rewrite fexp_normal by lia.
  replace (53 + n + ex - 53 - ex) with n by lia.
  pose proof (shr_spec a b mx lx ex n Hmx0 Hn H) as Hs.
  destruct (shr (shr_record_of_loc mx lx) ex n) as [r e'].
  destruct Hs as (-> & Hr & Hm'). fold P in Hr.
  set (m' := shr_m r) in *. set (l' := loc_of_shr_record r) in *.
  unfold inbr in Hr. fold m' l' in Hr.
  destruct (inb_bounds _ _ _ _ Hr) as (HB & Hr1 & Hr2).
  assert (Hm52 : 2 ^ 52 <= m' < 2 ^ 53).
  { split.
    - assert (2 ^ 52 * (P * b) < (m' + 1) * (P * b)) by nia.
      apply mul_lt_cancel_r in H0; lia.
    - assert (m' * P * b < 2 ^ 53 * P * b) by nia.
      assert (m' * (P * b) < 2 ^ 53 * (P * b)) by lia.
      apply mul_lt_cancel_r in H1; lia. }
  destruct (round_nearest_even_spec a (P * b) m' l' Hm' Hr) as [Hnr Herr].
  set (nr := round_nearest_even m' l') in *.
  assert (Hbin : 2 ^ 52 * (P * b) <= a < 2 ^ 53 * (P * b)) by nia.
  destruct (Z.eq_dec nr (2 ^ 53)) as [E|E].
  - rewrite E.
    rewrite (digits_unique (2 ^ 53) 54)
      by (vm_compute; first [reflexivity | split; [discriminate | reflexivity]]).
    rewrite fexp_normal by lia.
    replace (54 + (ex + n) - 53 - (ex + n)) with 1 by lia.
    change (shr (shr_record_of_loc (2 ^ 53) loc_Exact) (ex + n) 1)
      with ({| shr_m := 2 ^ 52; shr_r := false; shr_s := false |}, ex + n + 1).
    cbn [shr_m]. change (2 ^ 52) with (Z.pos (2 ^ 52)%positive) at 1.
    cbv iota beta.
    destruct (Z.leb_spec (ex + n + 1) (1024 - 53)); [| lia].
    exists (2 ^ 52)%positive, (ex + n + 1), nr.
    split; [reflexivity |]. split; [simpl; lia |].
    split; [right; split; [reflexivity | rewrite E; reflexivity] |].
    split; [exact Herr | exact Hbin].
  - assert (Hnr53 : 2 ^ 52 <= nr < 2 ^ 53) by lia.
    rewrite (digits_unique nr 53) by (first [reflexivity | exact Hnr53]).
    rewrite fexp_normal by lia.
    replace (53 + (ex + n) - 53 - (ex + n)) with 0 by lia.
    cbn [shr shr_record_of_loc shr_m].
    destruct nr as [|p|p]; try lia.
    destruct (Z.leb_spec (ex + n) (1024 - 53)); [| lia].
    exists p, (ex + n), (Z.pos p).
    split; [reflexivity |]. split; [exact Hnr53 |].
    split; [left; split; reflexivity |].
    split; [exact Herr | exact Hbin].
Qed.

(** ** From integers to rationals *)
Local Open Scope Q_scope.

Lemma pow2_pos e : 0 < 2 ^ e.
Proof. apply Qpower_0_lt. reflexivity. Qed.

Lemma pow2_add a b : 2 ^ (a + b) == 2 ^ a * 2 ^ b.
Proof. apply Qpower_plus. discriminate. Qed.

Lemma pow2_Z n : (0 <= n)%Z -> 2 ^ n == inject_Z (2 ^ n).
Proof. intros H. rewrite Zpower_Qpower by exact H. reflexivity. Qed.

Lemma near_Q (a B nr : Z) (y : Q) :
  (0 < B)%Z -> y * inject_Z B == inject_Z a ->
  (Z.abs (2 * nr * B - 2 * a) <= B)%Z ->
  - (1 # 2) <= inject_Z nr - y <= 1 # 2.
Proof.
  intros HB Hy Habs.
  assert (H1 : (- B <= 2 * nr * B - 2 * a)%Z) by lia.
  assert (H2 : (2 * nr * B - 2 * a <= B)%Z) by lia.
  rewrite Zle_Qle in H1, H2.
  rewrite inject_Z_opp in H1.
  unfold Z.sub in H1, H2.
  rewrite inject_Z_plus, inject_Z_opp, !inject_Z_mult in H1, H2.
  rewrite <- Hy in H1, H2.
  assert (HBq : 0 < inject_Z B) by (rewrite Zlt_Qlt in HB; exact HB).
  change (inject_Z 2) with 2 in *.
  generalize dependent (inject_Z B). generalize dependent (inject_Z nr).
  intros q b _ H1 H2 Hb. split; nra.
Qed.

Lemma bra_Q mx ex lx a b n X :
  (0 <= n)%Z -> (2 ^ (52 + n) <= mx < 2 ^ (53 + n))%Z ->
  (-1074 <= ex + n <= 970)%Z ->
  inb a b mx lx ->
  X * inject_Z b == inject_Z a * 2 ^ ex ->
  exists m e,
    binary_round_aux 53 1024 false mx ex lx = S754_finite false m e
    /\ (2 ^ 52 <= Z.pos m < 2 ^ 53)%Z
    /\ (ex + n <= e <= ex + n + 1)%Z
    /\ X - X * (1 # 2 ^ 53) <= inject_Z (Z.pos m) * 2 ^ e
       <= X + X * (1 # 2 ^ 53)
    /\ 0 < X
    /\ (forall K, (0 < K < 2 ^ 52)%Z ->
                  (X <= inject_Z K ->
                   inject_Z (Z.pos m) * 2 ^ e <= inject_Z K)
                  /\ (inject_Z K <= X ->
                      inject_Z K <= inject_Z (Z.pos m) * 2 ^ e)).
Proof.
  intros Hn Hmx He H HX.
  destruct (bra_spec mx ex lx a b n Hn Hmx He H)
    as (m & e & nr & Hrun & Hm & Hcase & Herr & Hbin).
  exists m, e. split; [exact Hrun |]. split; [exact Hm |].
  split; [lia |].
  destruct (inb_bounds _ _ _ _ H) as (Hb & _).
  assert (HP : (0 < 2 ^ n)%Z) by (apply Z.pow_pos_nonneg; lia).
  set (B := (2 ^ n * b)%Z) in *.
  assert (HB : (0 < B)%Z) by (subst B; lia).
  set (E0 := (ex + n)%Z) in *.
  pose proof (pow2_pos E0) as HE0.
  pose proof (pow2_pos ex) as Hex.
  pose proof (pow2_pos n) as Hpn.
  assert (HE0eq : 2 ^ E0 == 2 ^ ex * 2 ^ n) by (subst E0; apply pow2_add).
  assert (HBq : inject_Z B == 2 ^ n * inject_Z b).
  { subst B. rewrite inject_Z_mult, pow2_Z by exact Hn. reflexivity. }
  assert (Hbq : 0 < inject_Z b) by (rewrite Zlt_Qlt in Hb; exact Hb).
  set (y := X / 2 ^ E0).
  assert (Hy : y * inject_Z B == inject_Z a).
  { subst y. rewrite HBq, HE0eq.
    transitivity (X * inject_Z b / 2 ^ ex); [field; split; lra |].
    rewrite HX. field. lra. }
  assert (HXy : X == y * 2 ^ E0) by (subst y; field; lra).
  assert (Hv : inject_Z (Z.pos m) * 2 ^ e == inject_Z nr * 2 ^ E0).
  { destruct Hcase as [[-> ->]|[-> ->]]; [reflexivity |].
    rewrite pow2_add, inject_Z_mult. change (2 ^ 1) with 2. 
    change (inject_Z 2) with 2. ring. }
  destruct (near_Q a B nr y HB Hy Herr) as [Hn1 Hn2].
  assert (Hy52 : inject_Z (2 ^ 52) <= y /\ y < inject_Z (2 ^ 53)).
  { destruct Hbin as [Hb1 Hb2].
    rewrite Zle_Qle in Hb1. rewrite Zlt_Qlt in Hb2.
    rewrite inject_Z_mult, <- Hy in Hb1, Hb2.
    assert (HBpos : 0 < inject_Z B) by (rewrite Zlt_Qlt in HB; exact HB).
    split.
    - apply (Qmult_le_r _ _ (inject_Z B) HBpos). exact Hb1.
    - apply (Qmult_lt_r _ _ (inject_Z B) HBpos). exact Hb2. }
  change (inject_Z (2 ^ 52)) with (4503599627370496 # 1) in Hy52.
  change (inject_Z (2 ^ 53)) with (9007199254740992 # 1) in Hy52.
  change (1 # 2 ^ 53) with (1 # 9007199254740992).
  rewrite Hv.
  split; [| split].
  - rewrite HXy.
    generalize dependent (inject_Z nr). generalize dependent (2 ^ E0).
    intros. split; nra.
  - rewrite HXy. nra.
  - intros K HK.
    assert (HKq : inject_Z K < 4503599627370496 # 1).
    { change (4503599627370496 # 1) with (inject_Z (2 ^ 52)).
      rewrite <- Zlt_Qlt. lia. }
    assert (HK0 : 0 < inject_Z K).
    { change 0 with (inject_Z 0). rewrite <- Zlt_Qlt. lia. }
    destruct (Z_lt_le_dec E0 0) as [HE0neg|HE0pos].
    + set (j := (- E0)%Z).
      assert (Hj : 2 ^ E0 * 2 ^ j == 1).
      { subst j. rewrite <- pow2_add. replace (E0 + - E0)%Z with 0%Z by lia.
        reflexivity. }
      assert (Hjz : 2 ^ j == inject_Z (2 ^ j)) by (apply pow2_Z; subst j; lia).
      pose proof (pow2_pos j) as Hjpos.
      assert (Hyj : y == X * 2 ^ j).
      { rewrite HXy, <- Qmult_assoc, Hj. ring. }
      assert (HKj : inject_Z K == inject_Z K * 2 ^ j * 2 ^ E0).
      { rewrite <- Qmult_assoc, (Qmult_comm (2 ^ j)), Hj. ring. }
      split; intros HXK.
      * assert (HnrK : (nr <= K * 2 ^ j)%Z).
        { assert (Hlt : (nr < K * 2 ^ j + 1)%Z); [| lia].
          rewrite Zlt_Qlt, inject_Z_plus, inject_Z_mult, <- Hjz.
          change (inject_Z 1) with 1.
          assert (y <= inject_Z K * 2 ^ j).
          { rewrite Hyj. apply Qmult_le_compat_r; lra. }
          lra. }
        rewrite Zle_Qle, inject_Z_mult, <- Hjz in HnrK.
        rewrite Hv, HKj. apply Qmult_le_compat_r; lra.
      * assert (HnrK : (K * 2 ^ j <= nr)%Z).
        { assert (Hlt : (K * 2 ^ j + -1 < nr)%Z); [| lia].
          rewrite Zlt_Qlt, inject_Z_plus, inject_Z_mult, <- Hjz.
          change (inject_Z (-1)) with (-1).
          assert (inject_Z K * 2 ^ j <= y).
          { rewrite Hyj. apply Qmult_le_compat_r; lra. }
          lra. }
        rewrite Zle_Qle, inject_Z_mult, <- Hjz in HnrK.
        rewrite Hv, HKj. apply Qmult_le_compat_r; lra.
    + assert (H1 : 1 <= 2 ^ E0).
      { change 1 with (2 ^ 0). apply Qpower_le_compat_l; [lia | lra]. }
      assert (Hbig : 4503599627370496 <= X).
      { rewrite HXy. destruct Hy52 as [Hy1 _]. revert Hy1 H1.
        generalize (2 ^ E0) y. intros p1 y1 Hy1 H1. nra. }
      split; intros HXK; [lra |].
      rewrite Hv.
      assert (Hnrbig : 4503599627370496 <= inject_Z nr).
      { change (4503599627370496 # 1) with (inject_Z (2 ^ 52)).
        rewrite <- Zle_Qle.
        destruct Hcase as [[_ ->]|[_ ->]]; lia. }
      revert Hnrbig H1 HKq.
      generalize (inject_Z nr) (2 ^ E0) (inject_Z K). intros n1 p1 k1 ? ? ?.
      nra.
Qed.

Local Close Scope Q_scope.

Lemma new_location_spec q b r :
  0 < b -> 0 <= r < b -> inb (q * b + r) b q (new_location b r).
Proof.
  intros Hb Hr. split; [exact Hb |].
  unfold new_location, new_location_even, new_location_odd.
  destruct (Z.even b) eqn:Ev.
  - destruct (Z.eqb_spec r 0) as [->|Hr0]; [lia |].
    split; [nia |].
    destruct (2 * r ?= b) eqn:E; cmp; nia.
  - assert (Hodd : Z.odd b = true) by (rewrite <- Z.negb_even, Ev; reflexivity).
    apply Z.odd_spec in Hodd as [k Hk].
    destruct (Z.eqb_spec r 0) as [->|Hr0]; [lia |].
    split; [nia |].
    destruct (2 * r + 1 ?= b) eqn:E; cmp; nia.
Qed.

Lemma iter_xO p k : Z.pos (Pos.iter xO p k) = Z.pos p * 2 ^ Z.pos k.
Proof.
  induction k as [|k IH] using Pos.peano_ind.
  - cbn [Pos.iter]. change (2 ^ 1) with 2. lia.
  - rewrite Pos.iter_succ, Pos2Z.inj_xO, IH, Pos2Z.inj_succ.
    rewrite Z.pow_succ_r by lia. ring.
Qed.

Lemma of_Z_spec z :
  0 < z < 2 ^ 53 ->
  normal (Number.of_Z z) (-52) 0
  /\ (Number.to_Q (Number.of_Z z) == inject_Z z)%Q.
Proof.
  intros Hz. destruct z as [|p|p]; try lia.
  unfold Number.of_Z, binary_normalize, binary_round.
  pose proof (digits2_pos_spec p) as Hd.
  set (d := Z.pos (digits2_pos p)) in *.
  assert (Hd53 : 1 <= d <= 53).
  { split; [subst d; lia |].
    destruct (Z_le_gt_dec d 53) as [|Hgt]; [assumption | exfalso].
    assert (2 ^ 53 <= 2 ^ (d - 1)) by (apply Z.pow_le_mono_r; lia). lia. }
  assert (Hfexp : fexp Number.prec Number.emax (d + 0) = d - 53).
  { unfold fexp, emin, Number.prec, Number.emax. lia. }
  rewrite Hfexp. unfold shl_align.
  assert (Hal : exists mz, 
            (let '(mz, ez) :=
               match d - 53 - 0 with
               | Z.neg k => (Pos.iter xO p k, d - 53)
               | _ => (p, 0)
               end in
             binary_round_aux Number.prec Number.emax false (Z.pos mz) ez loc_Exact)
            = binary_round_aux 53 1024 false (Z.pos mz) (d - 53) loc_Exact
            /\ Z.pos mz = Z.pos p * 2 ^ (53 - d)).
  { destruct (d - 53 - 0) as [|k|k] eqn:Ek; try lia.
    - exists p. replace (d - 53) with 0 by lia.
      replace (53 - d) with 0 by lia. split; [reflexivity | lia].
    - exists (Pos.iter xO p k). split; [reflexivity |].
      rewrite iter_xO. f_equal. f_equal. lia. }
  destruct Hal as (mz & -> & Hmz).
  assert (Hp2 : 2 ^ (d - 1) * 2 ^ (53 - d) = 2 ^ 52).
  { rewrite <- Z.pow_add_r by lia. f_equal. lia. }
  assert (Hp3 : 2 ^ d * 2 ^ (53 - d) = 2 ^ 53).
  { rewrite <- Z.pow_add_r by lia. f_equal. lia. }
  assert (Hpk : 0 < 2 ^ (53 - d)) by (apply Z.pow_pos_nonneg; lia).
  assert (Hmzr : 2 ^ (52 + 0) <= Z.pos mz < 2 ^ (53 + 0)).
  { change (52 + 0) with 52. change (53 + 0) with 53.
    rewrite Hmz, <- Hp2, <- Hp3. split.
    - apply Z.mul_le_mono_nonneg_r; lia.
    - apply Z.mul_lt_mono_pos_r; lia. }
  destruct (bra_spec (Z.pos mz) (d - 53) loc_Exact (Z.pos mz) 1 0)
    as (m & e & nr & Hrun & Hm & Hcase & Herr & _);
    [lia | exact Hmzr | lia | split; [lia | cbn; lia] |].
  rewrite Hrun. split.
  - exists m, e. split; [reflexivity |]. split; [exact Hm | lia].
  - change (2 ^ 0 * 1) with 1 in Herr.
    assert (Hnr : nr = Z.pos mz) by lia.
    change (Number.to_Q (S754_finite false m e))
      with (inject_Z (Z.pos m) * 2 ^ e)%Q.
    assert (Hv : (inject_Z (Z.pos m) * 2 ^ e
                  == inject_Z (Z.pos mz) * 2 ^ (d - 53))%Q).
    { destruct Hcase as [[-> Hc]|[-> Hc]].
      - replace (d - 53 + 0) with (d - 53) by lia. rewrite <- Hc, Hnr.
        reflexivity.
      - replace (d - 53 + 0 + 1) with (d - 53 + 1) by lia.
        rewrite <- Hnr, Hc, pow2_add, inject_Z_mult.
        change (2 ^ 1)%Q with 2%Q. change (inject_Z 2) with 2%Q. ring. }
    rewrite Hv, Hmz, inject_Z_mult, <- pow2_Z by lia.
    rewrite <- Qmult_assoc, <- pow2_add.
    replace (53 - d + (d - 53)) with 0 by lia.
    change (2 ^ 0)%Q with 1%Q. ring.
Qed.

Lemma to_Q_finite m e :
  Number.to_Q (S754_finite false m e) = (inject_Z (Z.pos m) * 2 ^ e)%Q.
Proof. reflexivity. Qed.

Lemma mul_spec x y lo1 hi1 lo2 hi2 :
  normal x lo1 hi1 -> normal y lo2 hi2 ->
  -1126 <= lo1 + lo2 -> hi1 + hi2 <= 917 ->
  normal (Number.mul x y) (lo1 + lo2 + 52) (hi1 + hi2 + 54)
  /\ rounds (Number.to_Q x * Number.to_Q y) (Number.to_Q (Number.mul x y)).
Proof.
  intros (mx & ex & -> & Hmx & Hex) (my & ey & -> & Hmy & Hey) Hlo Hhi.
  unfold Number.mul, SFmul. cbn [xorb].
  change Number.prec with 53. change Number.emax with 1024.
  rewrite !to_Q_finite.
  set (P := Z.pos (mx * my)).
  assert (HP : P = Z.pos mx * Z.pos my) by reflexivity.
  assert (HPr : 2 ^ 104 <= P < 2 ^ 106).
  { rewrite HP. change (2 ^ 104) with (2 ^ 52 * 2 ^ 52).
    change (2 ^ 106) with (2 ^ 53 * 2 ^ 53). split.
    - apply Z.mul_le_mono_nonneg; lia.
    - apply Z.mul_lt_mono_nonneg; lia. }
  assert (Hn : exists n, 52 <= n <= 53 /\ 2 ^ (52 + n) <= P < 2 ^ (53 + n)).
  { destruct (Z_lt_le_dec P (2 ^ 105)).
    - exists 52. change (2 ^ (52 + 52)) with (2 ^ 104).
      change (2 ^ (53 + 52)) with (2 ^ 105). lia.
    - exists 53. change (2 ^ (52 + 53)) with (2 ^ 105).
      change (2 ^ (53 + 53)) with (2 ^ 106). lia. }
  destruct Hn as (n & Hn & HPn).
  destruct (bra_Q P (ex + ey) loc_Exact P 1 n
              (inject_Z (Z.pos mx) * 2 ^ ex * (inject_Z (Z.pos my) * 2 ^ ey))%Q)
    as (m & e & Hrun & Hm & He & Hnear & Hpos & Hmono);
    [lia | exact HPn | lia | split; [lia | cbn; lia] | |].
  { rewrite HP, inject_Z_mult, pow2_add. change (inject_Z 1) with 1%Q. ring. }
  rewrite Hrun, to_Q_finite. split.
  - exists m, e. split; [reflexivity |]. split; [exact Hm | lia].
  - split; [exact Hpos |]. split; [exact Hnear | exact Hmono].
Qed.

Lemma SFdiv_core_normal mx ex my ey :
  2 ^ 52 <= Z.pos mx < 2 ^ 53 -> 2 ^ 52 <= Z.pos my < 2 ^ 53 ->
  -1021 <= ex - ey ->
  SFdiv_core_binary 53 1024 (Z.pos mx) ex (Z.pos my) ey
  = (Z.pos mx * 2 ^ 53 / Z.pos my, ex - ey - 53,
     new_location (Z.pos my) ((Z.pos mx * 2 ^ 53) mod Z.pos my)).
Proof.
  intros Hmx Hmy He. unfold SFdiv_core_binary.
  rewrite (digits_unique (Z.pos mx) 53), (digits_unique (Z.pos my) 53)
    by first [lia | assumption].
  assert (E1 : Z.min (fexp 53 1024 (53 + ex - (53 + ey))) (ex - ey)
               = ex - ey - 53).
  { unfold fexp, emin. lia. }
  rewrite E1. replace (ex - ey - (ex - ey - 53)) with 53 by lia.
  cbv beta iota zeta.
  rewrite Z.shiftl_mul_pow2 by lia.
  unfold Z.div, Z.modulo.
  destruct (Z.div_eucl (Z.pos mx * 2 ^ 53) (Z.pos my)) as [q r].
  reflexivity.
Qed.

Lemma div_spec x y lo1 hi1 lo2 hi2 :
  normal x lo1 hi1 -> normal y lo2 hi2 ->
  -1021 <= lo1 - hi2 -> hi1 - lo2 <= 1022 ->
  normal (Number.div x y) (lo1 - hi2 - 53) (hi1 - lo2 - 51)
  /\ rounds (Number.to_Q x / Number.to_Q y) (Number.to_Q (Number.div x y)).
Proof.
  intros (mx & ex & -> & Hmx & Hex) (my & ey & -> & Hmy & Hey) Hlo Hhi.
  unfold Number.div, SFdiv. cbn [xorb].
  change Number.prec with 53. change Number.emax with 1024.
  rewrite SFdiv_core_normal by first [assumption | lia].
  rewrite !to_Q_finite.
  set (a := Z.pos mx * 2 ^ 53).
  set (q := a / Z.pos my). set (r := a mod Z.pos my).
  assert (Ha : a = q * Z.pos my + r).
  { subst q r. rewrite Z.mul_comm. apply Z.div_mod. lia. }
  assert (Hr : 0 <= r < Z.pos my) by (subst r; apply Z.mod_pos_bound; lia).
  assert (Hq : 2 ^ 52 <= q < 2 ^ 54).
  { subst q. split.
    - apply Z.div_le_lower_bound; [lia |]. subst a.
      change (2 ^ 52) with 4503599627370496 in *.
      change (2 ^ 53) with 9007199254740992 in *. lia.
    - apply Z.div_lt_upper_bound; [lia |]. subst a.
      change (2 ^ 54) with 18014398509481984 in *.
      change (2 ^ 53) with 9007199254740992 in *.
      change (2 ^ 52) with 4503599627370496 in *. lia. }
  assert (Hn : exists n, 0 <= n <= 1 /\ 2 ^ (52 + n) <= q < 2 ^ (53 + n)).
  { destruct (Z_lt_le_dec q (2 ^ 53)).
    - exists 0. change (2 ^ (52 + 0)) with (2 ^ 52).
      change (2 ^ (53 + 0)) with (2 ^ 53). lia.
    - exists 1. change (2 ^ (52 + 1)) with (2 ^ 53).
      change (2 ^ (53 + 1)) with (2 ^ 54). lia. }
  destruct Hn as (n & Hn & Hqn).
  pose proof (new_location_spec q (Z.pos my) r ltac:(lia) Hr) as Hloc.
  rewrite <- Ha in Hloc.
  destruct (bra_Q q (ex - ey - 53) (new_location (Z.pos my) r) a (Z.pos my) n
              (inject_Z (Z.pos mx) * 2 ^ ex / (inject_Z (Z.pos my) * 2 ^ ey))%Q)
    as (m & e & Hrun & Hm & He & Hnear & Hpos & Hmono);
    [lia | exact Hqn | lia | exact Hloc | |].
  { subst a. rewrite inject_Z_mult.
    change (inject_Z (2 ^ 53)) with (2 ^ 53)%Q.
    replace (ex - ey - 53) with (ex + (- ey + -53)) by lia.
    rewrite 2!pow2_add.
    pose proof (pow2_pos ey) as Hpey.
    assert (Hney : (2 ^ ey * 2 ^ (- ey) == 1)%Q).
    { rewrite <- pow2_add. replace (ey + - ey) with 0 by lia. reflexivity. }
    assert (Hmyq : (0 < inject_Z (Z.pos my))%Q) by reflexivity.
    assert (H53 : (2 ^ 53 * 2 ^ (-53) == 1)%Q) by reflexivity.
    transitivity (inject_Z (Z.pos mx) * 2 ^ ex * (2 ^ ey * 2 ^ (- ey)) / 2 ^ ey)%Q.
    - rewrite Hney. field. split; lra.
    - transitivity (inject_Z (Z.pos mx) * 2 ^ ex * 2 ^ (- ey) * (2 ^ 53 * 2 ^ (-53)))%Q.
      + rewrite H53. field. lra.
      + ring. }
  rewrite Hrun, to_Q_finite. split.
  - exists m, e. split; [reflexivity |]. split; [exact Hm | lia].
  - split; [exact Hpos |]. split; [exact Hnear | exact Hmono].
Qed.

Lemma hundredths_checked :
  forallb hundredth_ok (List.map Z.of_nat (seq 0 (Z.to_nat 10001))) = true.
Proof. vm_compute. reflexivity. Qed.

Lemma hundredth_spec n :
  0 <= n <= 10000 ->
  let r := Number.div (Number.of_Z n) (Number.of_Z 100) in
  Number.is_finite r = true
  /\ (0 <= Number.to_Q r <= 100)%Q
  /\ (Qabs (Number.to_Q r - (n # 100)) <= 1 # 10 ^ 13)%Q.
Proof.
  intros Hn.
  pose proof hundredths_checked as H.
  rewrite forallb_forall in H.
  specialize (H n).
  assert (Hin : In n (List.map Z.of_nat (seq 0 (Z.to_nat 10001)))).
  { apply in_map_iff. exists (Z.to_nat n). split; [lia |].
    apply in_seq. lia. }
  specialize (H Hin). unfold hundredth_ok in H.
  rewrite !andb_true_iff, !Qle_bool_iff in H.
  cbv zeta. tauto.
Qed.

Lemma of_Z_100 : Number.of_Z 100 = S754_finite false 7036874417766400 (-46).
Proof. vm_compute. reflexivity. Qed.

Lemma normal_100 : normal (Number.of_Z 100) (-46) (-46).
Proof.
  rewrite of_Z_100. exists 7036874417766400%positive, (-46).
  split; [reflexivity |]. split; [| lia]. split; [discriminate | reflexivity].
Qed.

Lemma to_Q_100 : (Number.to_Q (Number.of_Z 100) == 100)%Q.
Proof. rewrite of_Z_100. reflexivity. Qed.

Lemma round_finite m e :
  Number.Math_round (S754_finite false m e)
  = Number.of_Z (Qfloor (Number.to_Q (S754_finite false m e) + (1 # 2))).
Proof. reflexivity. Qed.

Lemma percent_spec (u c : N) :
  (u <= c)%N -> (0 < c)%N -> (c < 2 ^ 53)%N ->
  exists n : Z,
    0 <= n <= 10000
    /\ Number.div
      (Number.Math_round
         (Number.mul
            (Number.mul (Number.div (Number.of_N u) (Number.of_N c))
                        (Number.of_Z 100))
            (Number.of_Z 100)))
      (Number.of_Z 100)
      = Number.div (Number.of_Z n) (Number.of_Z 100)
    /\ (Qabs (inject_Z n - 10000 * inject_Z (Z.of_N u) / inject_Z (Z.of_N c))
        <= (1 # 2) + (1 # 10 ^ 11))%Q.
Proof.
  intros Huc Hc Hc53.
  assert (Hcz : 0 < Z.of_N c < 2 ^ 53).
  { split; [lia |]. change (2 ^ 53) with (Z.of_N (2 ^ 53)). lia. }
  destruct (of_Z_spec _ Hcz) as [Hnc Hqc].
  assert (Hcq : (0 < inject_Z (Z.of_N c))%Q).
  { change 0%Q with (inject_Z 0). rewrite <- Zlt_Qlt. lia. }
  destruct (N.eq_dec u 0%N) as [->|Hu].
  - exists 0. split; [lia |]. split.
    + unfold Number.of_N.
      destruct Hnc as (m & e & -> & _). rewrite of_Z_100. reflexivity.
    + change (inject_Z (Z.of_N 0)) with 0%Q.
      setoid_replace (inject_Z 0 - 10000 * 0 / inject_Z (Z.of_N c))%Q
        with 0%Q using relation Qeq by (field; lra).
      vm_compute. discriminate.
  - assert (Huz : 0 < Z.of_N u < 2 ^ 53) by lia.
    destruct (of_Z_spec _ Huz) as [Hnu Hqu].
    assert (Huq : (0 < inject_Z (Z.of_N u))%Q).
    { change 0%Q with (inject_Z 0). rewrite <- Zlt_Qlt. lia. }
    assert (Hucq : (inject_Z (Z.of_N u) <= inject_Z (Z.of_N c))%Q).
    { rewrite <- Zle_Qle. lia. }
    unfold Number.of_N.
    destruct (div_spec _ _ _ _ _ _ Hnu Hnc) as [Hn1 (Hp1 & Hr1 & Hm1)];
      [lia | lia |].
    set (t1 := Number.div (Number.of_Z (Z.of_N u)) (Number.of_Z (Z.of_N c))) in *.
    destruct (mul_spec _ _ _ _ _ _ Hn1 normal_100) as [Hn2 (Hp2 & Hr2 & Hm2)];
      [lia | lia |].
    set (t2 := Number.mul t1 (Number.of_Z 100)) in *.
    destruct (mul_spec _ _ _ _ _ _ Hn2 normal_100) as [Hn3 (Hp3 & Hr3 & Hm3)];
      [lia | lia |].
    set (t3 := Number.mul t2 (Number.of_Z 100)) in *.
    rewrite Hqu, Hqc in *. rewrite to_Q_100 in *.
    set (X1 := (inject_Z (Z.of_N u) / inject_Z (Z.of_N c))%Q) in *.
    assert (HX1 : (X1 <= 1)%Q).
    { subst X1. apply Qle_shift_div_r; [exact Hcq | lra]. }
    assert (Hb1 : (Number.to_Q t1 <= 1)%Q).
    { apply (proj1 (Hm1 1 ltac:(split; [lia | reflexivity]))).
      rewrite Hqu, Hqc. exact HX1. }
    assert (Hb2 : (Number.to_Q t2 <= 100)%Q).
    { apply (proj1 (Hm2 100 ltac:(split; [lia | reflexivity]))).
      rewrite to_Q_100. change (inject_Z 100) with 100%Q. lra. }
    assert (Hb3 : (Number.to_Q t3 <= 10000)%Q).
    { apply (proj1 (Hm3 10000 ltac:(split; [lia | reflexivity]))).
      rewrite to_Q_100. change (inject_Z 10000) with 10000%Q. lra. }
    clear Hm1 Hm2 Hm3.
    destruct Hn3 as (m3 & e3 & Ht3 & _).
    rewrite Ht3, round_finite, <- Ht3.
    set (x := (Number.to_Q t3 + (1 # 2))%Q).
    pose proof (Qfloor_le x) as Hf1. pose proof (Qlt_floor x) as Hf2.
    rewrite inject_Z_plus in Hf2. change (inject_Z 1) with 1%Q in Hf2.
    change (1 # 2 ^ 53)%Q with (1 # 9007199254740992)%Q in *.
    exists (Qfloor x). split; [| split; [reflexivity |]].
    + split.
      * assert (Hlt : -1 < Qfloor x); [| lia].
        rewrite Zlt_Qlt. change (inject_Z (-1)) with (-1)%Q.
        subst x. lra.
      * assert (Hlt : Qfloor x < 10001); [| lia].
        rewrite Zlt_Qlt. change (inject_Z 10001) with 10001%Q.
        subst x. lra.
    + setoid_replace (10000 * inject_Z (Z.of_N u) / inject_Z (Z.of_N c))%Q
        with (10000 * X1)%Q using relation Qeq by (subst X1; field; lra).
      change (10 ^ 11)%positive with 100000000000%positive.
      apply Qabs_Qle_condition. subst x.
      generalize dependent (inject_Z (Qfloor (Number.to_Q t3 + (1 # 2)))).
      generalize dependent (Number.to_Q t3).
      generalize dependent (Number.to_Q t2).
      generalize dependent (Number.to_Q t1).
      clearbody X1. intros. split; lra.
Qed.

Lemma of_Z_day :
  Number.of_Z 86400000 = S754_finite false 5798205849600000 (-26).
Proof. vm_compute. reflexivity. Qed.

Lemma normal_day : normal (Number.of_Z 86400000) (-26) (-26).
Proof.
  rewrite of_Z_day. exists 5798205849600000%positive, (-26).
  split; [reflexivity |]. split; [| lia]. split; [discriminate | reflexivity].
Qed.

Lemma to_Q_day : (Number.to_Q (Number.of_Z 86400000) == 86400000)%Q.
Proof. rewrite of_Z_day. reflexivity. Qed.

Lemma Qfloor_unique (x : Q) (k : Z) :
  (inject_Z k <= x)%Q -> (x < inject_Z (k + 1))%Q -> Qfloor x = k.
Proof.
  intros H1 H2.
  pose proof (Qfloor_le x) as Hf1. pose proof (Qlt_floor x) as Hf2.
  assert (Ha : Qfloor x < k + 1).
  { rewrite Zlt_Qlt. eapply Qle_lt_trans; eassumption. }
  assert (Hb : k < Qfloor x + 1).
  { rewrite Zlt_Qlt. eapply Qle_lt_trans; eassumption. }
  lia.
Qed.

Lemma days_spec (diff : Z) :
  0 <= diff < 2 ^ 53 ->
  Number.Math_floor (Number.div (Number.of_Z diff) (Number.of_Z 86400000))
  = Number.of_Z (diff / 86400000).
Proof.
  intros Hd.
  destruct (Z.eq_dec diff 0) as [->|Hnz].
  { rewrite of_Z_day. reflexivity. }
  destruct (of_Z_spec diff ltac:(lia)) as [Hn Hq].
  destruct (div_spec _ _ _ _ _ _ Hn normal_day) as [Hn1 (Hp1 & Hr1 & Hm1)];
    [lia | lia |].
  set (v := Number.div (Number.of_Z diff) (Number.of_Z 86400000)) in *.
  destruct Hn1 as (m & e & Hv & _).
  rewrite Hv. unfold Number.Math_floor. rewrite <- Hv. unfold Number.of_Z.
  change Number.prec with 53. change Number.emax with 1024.
  f_equal.
  set (k := diff / 86400000).
  assert (Hk : k * 86400000 <= diff < (k + 1) * 86400000).
  { subst k. pose proof (Z.div_mod diff 86400000 ltac:(lia)).
    pose proof (Z.mod_pos_bound diff 86400000 ltac:(lia)). lia. }
  assert (Hk0 : 0 <= k) by (subst k; apply Z.div_pos; lia).
  assert (Hk52 : k < 2 ^ 52).
  { change (2 ^ 53) with 9007199254740992 in Hd.
    change (2 ^ 52) with 4503599627370496. lia. }
  set (X := (Number.to_Q (Number.of_Z diff)
             / Number.to_Q (Number.of_Z 86400000))%Q) in *.
  assert (HX : (X == inject_Z diff * (1 # 86400000))%Q).
  { subst X. rewrite Hq, to_Q_day. reflexivity. }
  assert (Hkq : (inject_Z k * 86400000 <= inject_Z diff)%Q).
  { change 86400000%Q with (inject_Z 86400000).
    rewrite <- inject_Z_mult, <- Zle_Qle. lia. }
  assert (Hkq' : (inject_Z diff + 1 <= (inject_Z k + 1) * 86400000)%Q).
  { change 86400000%Q with (inject_Z 86400000).
    change 1%Q with (inject_Z 1).
    rewrite <- !inject_Z_plus, <- inject_Z_mult, <- Zle_Qle. lia. }
  assert (Hdq : (inject_Z diff < 9007199254740992)%Q).
  { change 9007199254740992%Q with (inject_Z (2 ^ 53)).
    rewrite <- Zlt_Qlt. lia. }
  change (1 # 2 ^ 53)%Q with (1 # 9007199254740992)%Q in Hr1.
  apply Qfloor_unique.
  - destruct (Z.eq_dec k 0) as [Ek|Ek].
    + rewrite Ek. change (inject_Z 0) with 0%Q. lra.
    + apply (proj2 (Hm1 k ltac:(lia))). lra.
  - rewrite inject_Z_plus. change (inject_Z 1) with 1%Q. lra.
Qed.

Lemma Qfloor_half (k : Z) (x : Q) :
  (x == inject_Z k)%Q -> Qfloor (x + (1 # 2)) = k.
Proof.
  intros E. apply Qfloor_unique.
  - lra.
  - rewrite inject_Z_plus. change (inject_Z 1) with 1%Q. lra.
Qed.

Lemma average_spec (c : N) (d : Z) :
  (Z.of_N c * 100 < 2 ^ 52) -> 1 <= d < 2 ^ 53 ->
  let q := (inject_Z (Z.of_N c) / inject_Z d)%Q in
  let v :=
    Number.div
      (Number.Math_round
         (Number.mul (Number.div (Number.of_N c) (Number.of_Z d))
                     (Number.of_Z 100)))
      (Number.of_Z 100) in
  exists n : Z,
    0 <= n <= Z.of_N c * 100
    /\ v = Number.div (Number.of_Z n) (Number.of_Z 100)
    /\ (Qabs (inject_Z n - 100 * q)
        <= (1 # 2) + 200 * inject_Z (Z.of_N c) * (1 # 2 ^ 53))%Q
    /\ Number.is_finite v = true
    /\ (0 <= Number.to_Q v <= inject_Z (Z.of_N c))%Q
    /\ (Qabs (Number.to_Q v - q)
        <= (1 # 200) + 3 * inject_Z (Z.of_N c) * (1 # 2 ^ 53))%Q
    /\ (d = 1 -> (Number.to_Q v == inject_Z (Z.of_N c))%Q).
Proof.
  intros Hc Hd q v.
  destruct (of_Z_spec d ltac:(lia)) as [Hnd Hqd].
  assert (Hdq : (1 <= inject_Z d)%Q).
  { change 1%Q with (inject_Z 1). rewrite <- Zle_Qle. lia. }
  change (2 ^ 52) with 4503599627370496 in Hc.
  destruct (N.eq_dec c 0%N) as [->|Hc0].
  - exists 0. subst v q. unfold Number.of_N.
    destruct Hnd as (m & e & -> & _). rewrite of_Z_100.
    change (inject_Z (Z.of_N 0)) with 0%Q.
    split; [cbn; lia |]. split; [reflexivity |].
    split.
    { setoid_replace (inject_Z 0 - 100 * (0 / inject_Z d))%Q with 0%Q using relation Qeq
        by (field; lra).
      vm_compute. discriminate. }
    split; [reflexivity |].
    split; [vm_compute; split; discriminate |].
    split.
    { change (Number.to_Q _) with 0%Q.
      setoid_replace (0 - 0 / inject_Z d)%Q with 0%Q using relation Qeq by (field; lra).
      vm_compute. discriminate. }
    intros _. reflexivity.
  - set (cz := Z.of_N c) in *.
    assert (Hcz : 0 < cz < 2 ^ 53).
    { change (2 ^ 53) with 9007199254740992. lia. }
    destruct (of_Z_spec cz Hcz) as [Hnc Hqc].
    assert (Hcq : (1 <= inject_Z cz)%Q).
    { change 1%Q with (inject_Z 1). rewrite <- Zle_Qle. lia. }
    assert (HqX : (0 < q <= inject_Z cz)%Q).
    { subst q. split.
      - apply Qlt_shift_div_l; lra.
      - apply Qle_shift_div_r; [lra |].
        assert (inject_Z cz * 1 <= inject_Z cz * inject_Z d)%Q; [| lra].
        apply Qmult_le_l; lra. }
    subst v. unfold Number.of_N. fold cz.
    destruct (div_spec _ _ _ _ _ _ Hnc Hnd) as [Hn1 (Hp1 & Hr1 & Hm1)];
      [lia | lia |].
    set (t1 := Number.div (Number.of_Z cz) (Number.of_Z d)) in *.
    destruct (mul_spec _ _ _ _ _ _ Hn1 normal_100) as [Hn2 (Hp2 & Hr2 & Hm2)];
      [lia | lia |].
    set (t2 := Number.mul t1 (Number.of_Z 100)) in *.
    assert (HX1 : (Number.to_Q (Number.of_Z cz) / Number.to_Q (Number.of_Z d)
                   == q)%Q).
    { rewrite Hqc, Hqd. reflexivity. }
    rewrite HX1 in Hp1, Hr1. rewrite to_Q_100 in Hp2, Hr2.
    assert (HK1 : 0 < cz < 2 ^ 52).
    { change (2 ^ 52) with 4503599627370496. lia. }
    assert (HK2 : 0 < cz * 100 < 2 ^ 52).
    { change (2 ^ 52) with 4503599627370496. lia. }
    assert (Hb1 : (Number.to_Q t1 <= inject_Z cz)%Q).
    { apply (proj1 (Hm1 cz HK1)). rewrite HX1. lra. }
    assert (Hb2 : (Number.to_Q t2 <= inject_Z cz * 100)%Q).
    { change 100%Q with (inject_Z 100). rewrite <- inject_Z_mult.
      apply (proj1 (Hm2 (cz * 100) HK2)).
      rewrite to_Q_100, inject_Z_mult. change (inject_Z 100) with 100%Q.
      lra. }
    destruct Hn2 as (m2 & e2 & Ht2 & _).
    rewrite Ht2, round_finite, <- Ht2.
    set (x := (Number.to_Q t2 + (1 # 2))%Q).
    set (n := Qfloor x).
    pose proof (Qfloor_le x) as Hf1. pose proof (Qlt_floor x) as Hf2.
    fold n in Hf1, Hf2.
    rewrite inject_Z_plus in Hf2. change (inject_Z 1) with 1%Q in Hf2.
    change (1 # 2 ^ 53)%Q with (1 # 9007199254740992)%Q in *.
    assert (Hn : 0 <= n <= cz * 100).
    { split.
      - assert (Hlt : -1 < n); [| lia].
        rewrite Zlt_Qlt. change (inject_Z (-1)) with (-1)%Q.
        subst x. lra.
      - assert (Hlt : n < cz * 100 + 1); [| lia].
        rewrite Zlt_Qlt, inject_Z_plus, inject_Z_mult.
        change (inject_Z 100) with 100%Q. change (inject_Z 1) with 1%Q.
        subst x. lra. }
    assert (Hnq : (0 <= inject_Z n <= inject_Z cz * 100)%Q).
    { change 100%Q with (inject_Z 100). change 0%Q with (inject_Z 0).
      rewrite <- inject_Z_mult, <- !Zle_Qle. exact Hn. }
    assert (Hnear : (Qabs (inject_Z n - 100 * q)
                     <= (1 # 2) + 200 * inject_Z cz * (1 # 9007199254740992))%Q).
    { apply Qabs_Qle_condition. subst x.
      revert Hf1 Hf2 Hr1 Hr2 Hb1 Hb2 HqX Hcq Hp1 Hp2.
      generalize (inject_Z n) (Number.to_Q t2) (Number.to_Q t1) q (inject_Z cz).
      intros. split; lra. }
    assert (Hexact : d = 1 -> n = cz * 100).
    { intros ->. 
      assert (Hq1 : (q == inject_Z cz)%Q) by (subst q; field).
      assert (Ht1 : (Number.to_Q t1 == inject_Z cz)%Q).
      { apply Qle_antisym; [exact Hb1 |].
        apply (proj2 (Hm1 cz HK1)). rewrite HX1. lra. }
      assert (Ht2' : (Number.to_Q t2 == inject_Z (cz * 100))%Q).
      { apply Qle_antisym.
        - rewrite inject_Z_mult. exact Hb2.
        - apply (proj2 (Hm2 (cz * 100) HK2)).
          rewrite to_Q_100, inject_Z_mult, Ht1.
          change (inject_Z 100) with 100%Q. lra. }
      subst n x. apply Qfloor_half. exact Ht2'. }
    exists n. split; [exact Hn |]. split; [reflexivity |].
    split; [exact Hnear |].
    destruct (Z.eq_dec n 0) as [En|En].
    + rewrite En, of_Z_100.
      change (Number.div (Number.of_Z 0) _) with (S754_zero false).
      split; [reflexivity |].
      change (Number.to_Q (S754_zero false)) with 0%Q.
      split; [lra |]. split.
      * apply Qabs_Qle_condition. apply Qabs_Qle_condition in Hnear.
        rewrite En in Hnear. change (inject_Z 0) with 0%Q in Hnear.
        revert Hnear HqX Hcq. generalize q (inject_Z cz). intros.
        split; lra.
      * intros Hd1. specialize (Hexact Hd1). lia.
    + assert (Hn53 : 0 < n < 2 ^ 53).
      { change (2 ^ 53) with 9007199254740992. lia. }
      destruct (of_Z_spec n Hn53) as [Hnn Hqn].
      destruct (div_spec _ _ _ _ _ _ Hnn normal_100) as [Hn4 (Hp4 & Hr4 & Hm4)];
        [lia | lia |].
      set (t4 := Number.div (Number.of_Z n) (Number.of_Z 100)) in *.
      assert (HX4 : (Number.to_Q (Number.of_Z n) / Number.to_Q (Number.of_Z 100)
                     == inject_Z n * (1 # 100))%Q).
      { rewrite Hqn, to_Q_100. reflexivity. }
      rewrite HX4 in Hp4, Hr4.
      change (1 # 2 ^ 53)%Q with (1 # 9007199254740992)%Q in Hr4.
      assert (Hb4 : (Number.to_Q t4 <= inject_Z cz)%Q).
      { apply (proj1 (Hm4 cz HK1)). rewrite HX4. lra. }
      split.
      { destruct Hn4 as (m4 & e4 & -> & _). reflexivity. }
      split; [lra |]. split.
      * apply Qabs_Qle_condition. apply Qabs_Qle_condition in Hnear.
        revert Hnear HqX Hcq Hr4 Hp4 Hnq.
        generalize (Number.to_Q t4) (inject_Z n) q (inject_Z cz). intros.
        split; lra.
      * intros Hd1. specialize (Hexact Hd1).
        apply Qle_antisym; [exact Hb4 |].
        apply (proj2 (Hm4 cz HK1)). rewrite HX4, Hexact, inject_Z_mult.
        change (inject_Z 100) with 100%Q. lra.
Qed.

(** ** Click-through rate *)

(** C7. The click-through rate is [0] when [clickCount] is 0. For a Link
    with [uniqueClicks <= clickCount] and [clickCount] below [2^53], where
    the counters are exact, it is the number [n / 100] for a whole number
    of hundredths [n] between 0 and 10000 that lies within a half, and the
    rounding of the three operations before [Math.round], of
    [uniqueClicks / clickCount * 10000]: the ratio as a percentage, rounded
    to two decimals. It is finite, so neither [NaN] nor an infinity, it
    lies in [0, 100] and within 0.005 and the rounding of
    [uniqueClicks / clickCount * 100]. *)
Theorem clickThroughRate_bounded (l : Link) :
  (clickCount l = 0%N -> URL_MODEL.clickThroughRate l = S754_zero false)
  /\ (clickCount l <> 0%N -> counters_ok l -> (clickCount l < 2 ^ 53)%N ->
      let ratio := (inject_Z (Z.of_N (uniqueClicks l))
                    / inject_Z (Z.of_N (clickCount l)))%Q in
      let rate := URL_MODEL.clickThroughRate l in
      exists n : Z,
        0 <= n <= 10000
        /\ rate = Number.div (Number.of_Z n) (Number.of_Z 100)
        /\ (Qabs (inject_Z n - ratio * 10000) <= (1 # 2) + (1 # 10 ^ 11))%Q
        /\ Number.is_finite rate = true
        /\ (0 <= Number.to_Q rate <= 100)%Q
        /\ (Qabs (Number.to_Q rate - ratio * 100)
            <= (1 # 200) + (1 # 10 ^ 12))%Q).
Proof.
  unfold URL_MODEL.clickThroughRate, counters_ok.
  destruct (N.eqb_spec (clickCount l) 0) as [E|E].
  - split; [reflexivity | congruence].
  - split; [congruence |]. intros _ Hinv H53. cbv zeta.
    destruct (percent_spec (uniqueClicks l) (clickCount l) Hinv
                ltac:(lia) H53) as (n & Hn & Hrate & Hnear).
    exists n. rewrite Hrate.
    destruct (hundredth_spec n Hn) as (Hfin & Hrange & Hclose).
    cbv zeta in Hfin, Hrange, Hclose.
    split; [exact Hn |]. split; [reflexivity |].
    assert (Hc : (0 < inject_Z (Z.of_N (clickCount l)))%Q).
    { change 0%Q with (inject_Z 0). rewrite <- Zlt_Qlt. lia. }
    set (ratio := (inject_Z (Z.of_N (uniqueClicks l))
                   / inject_Z (Z.of_N (clickCount l)))%Q) in *.
    assert (Hnear' : (Qabs (inject_Z n - ratio * 10000)
                      <= (1 # 2) + (1 # 10 ^ 11))%Q).
    { setoid_replace (ratio * 10000)%Q
        with (10000 * inject_Z (Z.of_N (uniqueClicks l))
              / inject_Z (Z.of_N (clickCount l)))%Q using relation Qeq
        by (subst ratio; field; lra).
      exact Hnear. }
    split; [exact Hnear' |]. split; [exact Hfin |].
    split; [exact Hrange |].
    apply Qabs_Qle_condition. apply Qabs_Qle_condition in Hnear', Hclose.
    setoid_replace (n # 100)%Q with (inject_Z n * (1 # 100))%Q using relation Qeq in Hclose
      by (unfold Qeq; simpl; lia).
    change (10 ^ 11)%positive with 100000000000%positive in Hnear'.
    change (10 ^ 12)%positive with 1000000000000%positive.
    change (10 ^ 13)%positive with 10000000000000%positive in Hclose.
    revert Hnear' Hclose.
    generalize (Number.to_Q (Number.div (Number.of_Z n) (Number.of_Z 100)))
               (inject_Z n) ratio.
    intros v nq r Hnear' Hclose. split; lra.
Qed.

Lemma clickThroughRate_bounded_witness :
  let l := set_uniqueClicks 23 (set_clickCount 160 Demo.previewed) in
  clickCount l <> 0%N /\ counters_ok l /\ (clickCount l < 2 ^ 53)%N
  /\ (exists n : Z,
        0 <= n <= 10000
        /\ URL_MODEL.clickThroughRate l
           = Number.div (Number.of_Z n) (Number.of_Z 100)
        /\ (0 <= Number.to_Q (URL_MODEL.clickThroughRate l) <= 100)%Q)
  /\ URL_MODEL.clickThroughRate l
     = Number.div (Number.of_Z 1437) (Number.of_Z 100).
Proof.
  intros l.
  assert (H0 : clickCount l <> 0%N) by (vm_compute; discriminate).
  assert (H1 : counters_ok l) by (vm_compute; discriminate).
  assert (H2 : (clickCount l < 2 ^ 53)%N) by (vm_compute; reflexivity).
  split; [exact H0 |]. split; [exact H1 |]. split; [exact H2 |]. split.
  - destruct (proj2 (clickThroughRate_bounded l) H0 H1 H2)
      as (n & Hn & Hrate & _ & _ & Hrange & _).
    exists n. split; [exact Hn |]. split; [exact Hrate | exact Hrange].
  - vm_compute. reflexivity.
Defined.

(** C7, for every Link: a Link with more unique clicks than clicks has a
    rate above 100; with 80 unique clicks out of 50 it is 160. *)
Lemma clickThroughRate_above_100 :
  let l := set_uniqueClicks 80 (set_clickCount 50 Demo.previewed) in
  clickCount l <> 0%N
  /\ URL_MODEL.clickThroughRate l = Number.of_Z 160
  /\ (Number.to_Q (URL_MODEL.clickThroughRate l) == 160)%Q
  /\ ~ (Number.to_Q (URL_MODEL.clickThroughRate l) <= 100)%Q.
Proof.
  intros l.
  split; [vm_compute; discriminate |].
  split; [vm_compute; reflexivity |].
  split; [vm_compute; reflexivity |].
  vm_compute. intros H. apply H. reflexivity.
Qed.

(** ** Resolution of a code *)

Lemma q_code_true code l :
  UrlService.q_code code l = true <-> code_of (Chars.trim code) l.
Proof.
  unfold UrlService.q_code, code_of.
  rewrite orb_true_iff, !bool_decide_eq_true. tauto.
Qed.

Lemma q_active_code_true code l :
  UrlService.q_active_code code l = true <->
  code_of (Chars.trim code) l /\ isActive l = true.
Proof.
  unfold UrlService.q_active_code.
  rewrite andb_true_iff, q_code_true. tauto.
Qed.

Lemma isExpired_true now l :
  URL_MODEL.isExpired now l = true <->
  exists t, expiresAt l = Some t /\ t < now.
Proof.
  unfold URL_MODEL.isExpired. destruct (expiresAt l) as [t|].
  - rewrite Z.ltb_lt. split; [eauto | intros (t' & [= <-] & H); exact H].
  - split; [discriminate | intros (t' & [=] & _)].
Qed.

Lemma findOne_first q l ls :
  In l ls -> q l = true ->
  (forall l', In l' ls -> q l' = true -> l' = l) ->
  UrlService.findOne q ls = Some l.
Proof.
  intros Hin Hq Huniq. unfold UrlService.findOne.
  destruct (List.find q ls) as [l'|] eqn:E.
  - apply find_some in E as [Hin' Hq']. f_equal. auto.
  - exfalso. pose proof (find_none _ _ E l Hin). congruence.
Qed.

(** C2. [getUrlByShortCode] searches both the [shortCode] and the
    [customAlias] namespace for the code, trimmed as the schema casts the
    queried value. What it returns is an active, unexpired Link of the
    collection that carries the code in one of the two, populated (and with
    the view counted when [incrementView] is set); a Link that is the only
    active one for the code and has not expired is returned. When every
    Link that carries the code is inactive or has an [expiresAt] in the
    past, the result is [null] and the state is untouched, the same result
    for both reasons. *)
Theorem getUrlByShortCode_resolves (code : string) (incView : bool)
  (now : Z) (st : State) :
  (forall l,
      (UrlService.getUrlByShortCode code incView now st).1 = Some l ->
      exists l0,
        In l0 (urls st) /\ code_of (Chars.trim code) l0
        /\ isActive l0 = true
        /\ URL_MODEL.isExpired now l0 = false
        /\ l = populate (users st)
                 (if incView then UrlService.incrementView l0 else l0))
  /\ (forall l0,
         In l0 (urls st) -> code_of (Chars.trim code) l0 ->
         isActive l0 = true ->
         URL_MODEL.isExpired now l0 = false ->
         (forall l1, In l1 (urls st) -> code_of (Chars.trim code) l1 ->
                     isActive l1 = true -> l1 = l0) ->
         (UrlService.getUrlByShortCode code incView now st).1
         = Some (populate (users st)
                   (if incView then UrlService.incrementView l0 else l0)))
  /\ ((forall l0,
          In l0 (urls st) -> code_of (Chars.trim code) l0 ->
          isActive l0 = false
          \/ exists t, expiresAt l0 = Some t /\ t < now) ->
      UrlService.getUrlByShortCode code incView now st = (None, st)).
Proof.
  unfold UrlService.getUrlByShortCode.
  split; [| split].
  - intros l.
    destruct (UrlService.findOne _ _) as [l0|] eqn:E; [| discriminate].
    apply find_some in E as [Hin Hq].
    apply q_active_code_true in Hq as [Hc Ha].
    destruct (URL_MODEL.isExpired now l0) eqn:Ex; [discriminate |].
    intros H. exists l0. repeat (split; [assumption |]).
    destruct incView; simpl in H; congruence.
  - intros l0 Hin Hc Ha Hx Huniq.
    rewrite (findOne_first _ l0), Hx.
    + destruct incView; reflexivity.
    + exact Hin.
    + apply q_active_code_true. auto.
    + intros l' Hin' Hq'. apply q_active_code_true in Hq' as [? ?]. auto.
  - intros Hall.
    destruct (UrlService.findOne _ _) as [l0|] eqn:E; [| reflexivity].
    apply find_some in E as [Hin Hq].
    apply q_active_code_true in Hq as [Hc Ha].
    destruct (Hall l0 Hin Hc) as [Hi|Hx]; [congruence |].
    apply isExpired_true in Hx. rewrite Hx. reflexivity.
Qed.

Lemma getUrlByShortCode_resolves_witness :
  let off := set_isActive false (Demo.link 1 "https://a.example" "gone111"
                                   None None) in
  let old := mkLink 2 "https://b.example" "past222" (Some "past222") None None
               None true (Some 5) 0 0 None 0 in
  let st := mkState [off; old] ∅ 3 0 in
  UrlService.getUrlByShortCode " gone111 " false 10 st = (None, st)
  /\ UrlService.getUrlByShortCode "past222" false 10 st = (None, st).
Proof.
  intros off old st. split.
  - apply (getUrlByShortCode_resolves " gone111 " false 10 st).
    intros l0 [<-|[<-|[]]] [Hc|Hc]; vm_compute in Hc; try discriminate.
    left. reflexivity.
  - apply (getUrlByShortCode_resolves "past222" false 10 st).
    intros l0 [<-|[<-|[]]] [Hc|Hc]; vm_compute in Hc; try discriminate;
      right; exists 5; split; reflexivity.
Defined.

(** ** Popular Links *)

#[local] Instance popular_order_total : Total UrlService.popular_order.
Proof.
  intros a b. unfold UrlService.popular_order.
  destruct (N.lt_trichotomy (clickCount a) (clickCount b)) as [H|[H|H]];
    [right; left; exact H | | left; left; exact H].
  destruct (Z.le_ge_cases (createdAt a) (createdAt b)).
  - right. right. split; [congruence | assumption].
  - left. right. split; [congruence | lia].
Qed.

#[local] Instance popular_order_trans : Transitive UrlService.popular_order.
Proof.
  intros a b c. unfold UrlService.popular_order.
  intros [H1|[H1 H1']] [H2|[H2 H2']].
  - left. lia.
  - left. lia.
  - left. lia.
  - right. split; [congruence | lia].
Qed.

Lemma limit_firstn {A} n (l : list A) :
  exists m, URL_MODEL.limit n l = firstn m l
            /\ (n <> 0%nat -> m = n)
            /\ (n = 0%nat -> (length l <= m)%nat).
Proof.
  destruct n as [|n].
  - exists (length l). simpl. rewrite firstn_all.
    split; [reflexivity | split; lia].
  - exists (S n). split; [reflexivity | split; [reflexivity | discriminate]].
Qed.

Lemma popular_query_true o now l :
  UrlService.popular_query o now l = true <->
  isActive l = true
  /\ Popular.minClicks o <= Z.of_N (clickCount l)
  /\ (forall u, Popular.userId o = Some u -> userId l = Some u)
  /\ (Popular.days o <> 0 ->
      now - Popular.days o * 24 * 60 * 60 * 1000 <= createdAt l).
Proof.
  unfold UrlService.popular_query.
  rewrite !andb_true_iff, Z.leb_le.
  assert (Hu : match Popular.userId o with
               | Some u => bool_decide (userId l = Some u)
               | None => true
               end = true <->
               forall u, Popular.userId o = Some u -> userId l = Some u).
  { destruct (Popular.userId o) as [u|].
    - rewrite bool_decide_eq_true. split; [intros H ? [= <-]; exact H | auto].
    - split; [intros _ ? [=] | reflexivity]. }
  assert (Hd : (if Popular.days o =? 0 then true
                else now - Popular.days o * 24 * 60 * 60 * 1000
                     <=? createdAt l) = true <->
               (Popular.days o <> 0 ->
                now - Popular.days o * 24 * 60 * 60 * 1000 <= createdAt l)).
  { destruct (Z.eqb_spec (Popular.days o) 0) as [E|E].
    - split; [intros _ ?; contradiction | reflexivity].
    - rewrite Z.leb_le. split; auto. }
  rewrite Hu, Hd. tauto.
Qed.

(** What [populate] leaves as it is: every field but the owner, and the
    owner too when the user exists. *)
Lemma populate_cases us l :
  (populate us l = l
   /\ forall u, userId l = Some u -> is_Some (us !! u))
  \/ (populate us l = set_userId None l
      /\ exists u, userId l = Some u /\ us !! u = None).
Proof.
  unfold populate. destruct (userId l) as [u|] eqn:Eu.
  - destruct (us !! u) eqn:E.
    + left. split; [reflexivity |]. intros ? [= <-]. rewrite E. eauto.
    + right. split; [reflexivity |]. eauto.
  - left. split; [reflexivity |]. intros ? [=].
Qed.

Lemma populate_fields us l :
  _id (populate us l) = _id l
  /\ originalUrl (populate us l) = originalUrl l
  /\ shortCode (populate us l) = shortCode l
  /\ customAlias (populate us l) = customAlias l
  /\ isActive (populate us l) = isActive l
  /\ expiresAt (populate us l) = expiresAt l
  /\ clickCount (populate us l) = clickCount l
  /\ uniqueClicks (populate us l) = uniqueClicks l
  /\ lastClickedAt (populate us l) = lastClickedAt l
  /\ createdAt (populate us l) = createdAt l.
Proof.
  destruct (populate_cases us l) as [[-> _]|[-> _]]; repeat split.
Qed.

Lemma populate_known us l u :
  userId l = Some u -> is_Some (us !! u) -> populate us l = l.
Proof.
  intros Hu [usr Hs]. unfold populate. rewrite Hu, Hs. reflexivity.
Qed.

Lemma populate_anonymous us l : userId l = None -> populate us l = l.
Proof. intros Hu. unfold populate. rewrite Hu. reflexivity. Qed.

Lemma isExpired_populate now us l :
  URL_MODEL.isExpired now (populate us l) = URL_MODEL.isExpired now l.
Proof.
  unfold URL_MODEL.isExpired.
  destruct (populate_fields us l) as (_ & _ & _ & _ & _ & -> & _).
  reflexivity.
Qed.

Lemma StronglySorted_map_populate (R : Link -> Link -> Prop) us ls :
  (forall a b, R a b -> R (populate us a) (populate us b)) ->
  StronglySorted R ls -> StronglySorted R (List.map (populate us) ls).
Proof.
  intros HR. induction 1 as [|a ls Hs IH Hall]; simpl; constructor.
  - exact IH.
  - apply Forall_forall. intros y Hy.
    apply list_elem_of_In, in_map_iff in Hy as (b & <- & Hb).
    apply HR. rewrite Forall_forall in Hall. apply Hall.
    apply list_elem_of_In. exact Hb.
Qed.

Lemma popular_order_populate us a b :
  UrlService.popular_order a b ->
  UrlService.popular_order (populate us a) (populate us b).
Proof.
  unfold UrlService.popular_order.
  destruct (populate_fields us a) as (_ & _ & _ & _ & _ & _ & -> & _ & _ & ->).
  destruct (populate_fields us b) as (_ & _ & _ & _ & _ & _ & -> & _ & _ & ->).
  auto.
Qed.

(** C9 (amended). [getPopularUrls] returns, populated, only active Links of
    the collection whose [clickCount] is at least [minClicks], that belong
    to [userId] when one is given and, unless [days] is 0, that were
    created within the last [days] days: the date filter reads
    [createdAt], not the time of the last click. The result is sorted
    descending by [clickCount], ties descending by [createdAt]; it is a
    prefix of the sorted matches, cut at [limit] entries when [limit] is
    not 0. *)
Theorem getPopularUrls_created_within (o : Popular.Options) (now : Z)
  (st : State) :
  let r := UrlService.getPopularUrls o now st in
  exists found,
    r = List.map (populate (users st)) found
    /\ (forall l, In l found ->
          In l (urls st)
          /\ isActive l = true
          /\ Popular.minClicks o <= Z.of_N (clickCount l)
          /\ (forall u, Popular.userId o = Some u -> userId l = Some u)
          /\ (Popular.days o <> 0 ->
              now - Popular.days o * 24 * 60 * 60 * 1000 <= createdAt l))
    /\ StronglySorted UrlService.popular_order found
    /\ StronglySorted UrlService.popular_order r
    /\ (Popular.limit o <> 0%nat -> (length r <= Popular.limit o)%nat)
    /\ exists rest,
         found ++ rest
         ≡ₚ List.filter (UrlService.popular_query o now) (urls st)
         /\ (forall x y, In x found -> In y rest ->
                         UrlService.popular_order x y)
         /\ (rest <> [] -> length r = Popular.limit o).
Proof.
  intros r. unfold UrlService.getPopularUrls in r.
  set (matches := List.filter (UrlService.popular_query o now) (urls st)) in *.
  set (sorted := merge_sort UrlService.popular_order matches) in *.
  assert (Hperm : sorted ≡ₚ matches) by apply merge_sort_Permutation.
  assert (Hsorted : StronglySorted UrlService.popular_order sorted)
    by (apply StronglySorted_merge_sort; apply _).
  destruct (limit_firstn (Popular.limit o) sorted) as (m & Hm & Hlim & Hzero).
  set (found := URL_MODEL.limit (Popular.limit o) sorted) in *.
  assert (Hlen : length r = length found) by (subst r; apply length_map).
  assert (Hsplit : found ++ skipn m sorted = sorted).
  { rewrite Hm. apply firstn_skipn. }
  rewrite <- Hsplit in Hsorted.
  assert (Hsf : StronglySorted UrlService.popular_order found)
    by (eapply StronglySorted_app_1_l; exact Hsorted).
  exists found. split; [reflexivity |].
  split; [| split; [exact Hsf | split; [| split]]].
  - intros l Hl.
    assert (Hin : In l matches).
    { apply list_elem_of_In. rewrite <- Hperm, <- Hsplit.
      apply list_elem_of_In, in_or_app. left. exact Hl. }
    apply filter_In in Hin as [Hin Hq].
    apply popular_query_true in Hq. tauto.
  - apply StronglySorted_map_populate;
      [apply popular_order_populate | exact Hsf].
  - intros Hn. rewrite Hlen, Hm, (Hlim Hn). apply firstn_le_length.
  - exists (skipn m sorted). split; [| split].
    + rewrite Hsplit. exact Hperm.
    + intros x y Hx Hy.
      eapply StronglySorted_app_1_elem_of;
        [exact Hsorted | apply list_elem_of_In; exact Hx
        | apply list_elem_of_In; exact Hy].
    + intros Hrest.
      assert (Hlt : (m < length sorted)%nat).
      { destruct (Nat.lt_ge_cases m (length sorted)) as [?|Hge];
          [assumption |].
        exfalso. apply Hrest. apply skipn_all2. exact Hge. }
      assert (Hn : Popular.limit o <> 0%nat).
      { intros E0. specialize (Hzero E0). lia. }
      rewrite Hlen, Hm, (Hlim Hn), length_firstn.
      rewrite (Hlim Hn) in Hlt. lia.
Qed.

Lemma getPopularUrls_created_within_witness :
  let st := mkState [Demo.previewed] {[ 1%nat := Demo.user0 ]} 4 0 in
  let now := 10 * Demo.day in
  In Demo.previewed (UrlService.getPopularUrls Demo.popular_opts now st)
  /\ now - 7 * 24 * 60 * 60 * 1000 <= createdAt Demo.previewed.
Proof.
  intros st now.
  assert (H : In Demo.previewed
                (UrlService.getPopularUrls Demo.popular_opts now st))
    by (vm_compute; left; reflexivity).
  split; [exact H |].
  destruct (getPopularUrls_created_within Demo.popular_opts now st)
    as (found & Hr & Hall & _).
  rewrite Hr in H. apply in_map_iff in H as (l0 & Hl0 & Hin).
  destruct (Hall _ Hin) as (_ & _ & _ & _ & Hd).
  destruct (populate_fields (users st) l0)
    as (_ & _ & _ & _ & _ & _ & _ & _ & _ & Hc).
  rewrite <- Hl0, Hc. apply Hd. vm_compute. discriminate.
Defined.

(** C9 as stated fails: a Link created one day ago, viewed five times and
    never clicked, is returned for [days = 7] although no click of it falls
    within the last seven days; the static [getPopularUrls] of the model,
    which reads [lastClickedAt], leaves it out. *)
Lemma getPopularUrls_not_by_last_click :
  let st := mkState [Demo.previewed] {[ 1%nat := Demo.user0 ]} 4 0 in
  let now := 10 * Demo.day in
  Demo.previewed
  = run_ops (repeat OpIncrementView 5)
      (UrlService.new_doc
         (Demo.args "https://example.com" None (Some 1%nat)) "prev123"
         (9 * Demo.day) 3)
  /\ In Demo.previewed (UrlService.getPopularUrls Demo.popular_opts now st)
  /\ ~ clicked_within (Popular.days Demo.popular_opts) now Demo.previewed
  /\ URL_MODEL.getPopularUrls 10 7 now (users st) (urls st) = [].
Proof.
  intros st now. split; [reflexivity |].
  split; [vm_compute; left; reflexivity |].
  split; [intros H; exact H | reflexivity].
Qed.

(** ** Creation *)

Section Creation.

Variable env : Env.

Lemma state_eta st : mkState (urls st) (users st) (nextId st) (rng st) = st.
Proof. destruct st; reflexivity. Qed.

Lemma q_duplicate_true o u l :
  UrlService.q_duplicate o u l = true <->
  originalUrl l = Chars.trim o /\ userId l = Some u /\ isActive l = true.
Proof.
  unfold UrlService.q_duplicate.
  rewrite !andb_true_iff, !bool_decide_eq_true. tauto.
Qed.

Lemma q_same_url_true o u l :
  UrlService.q_same_url o u l = true <->
  originalUrl l = Chars.trim o /\ userId l = Some u.
Proof.
  unfold UrlService.q_same_url.
  rewrite !andb_true_iff, !bool_decide_eq_true. tauto.
Qed.

Lemma over_limit_false u ls :
  UrlService.over_limit (Some u) ls = false <->
  (UrlService.countDocuments (UrlService.q_active_of u) ls < 20)%nat.
Proof. unfold UrlService.over_limit. rewrite Nat.leb_gt. tauto. Qed.

Lemma save_new_inv d ls ls' :
  UrlService.save_new d ls = inr ls' -> ls' = ls ++ [d].
Proof.
  unfold UrlService.save_new.
  destruct (negb _); [discriminate |].
  destruct (negb _); [discriminate |]. congruence.
Qed.

(** What a successful [createUrl] has done: either it found an active Link
    of the owner for the URL and changed nothing, or it appended one new
    document and raised the owner's [urlCount] by one. *)
Lemma createUrl_ok_inv a now st r st' :
  UrlService.createUrl env a now st = (inr r, st') ->
  UrlService._isValidUrl env (UrlData.originalUrl a) = true
  /\ (String.length (UrlData.originalUrl a)
      <= maxUrlLength (config env))%nat
  /\ UrlService.over_limit (UrlData.userId a) (urls st) = false
  /\ ((isNew r = false /\ st' = st
       /\ UrlService.existing_duplicate a (urls st) = Some (url r)
       /\ message r = Some "URL already exists in your account")
      \/ (isNew r = true
          /\ UrlService.existing_duplicate a (urls st) = None
          /\ urls st' = urls st ++ [url r]
          /\ users st' = UrlService.bump_owner (UrlData.userId a) (users st)
          /\ exists code,
               url r = UrlService.new_doc a code now (nextId st))).
Proof.
  unfold UrlService.createUrl.
  destruct (UrlService._isValidUrl env _) eqn:Ev; simpl; [| discriminate].
  destruct (Nat.ltb_spec (maxUrlLength (config env))
              (String.length (UrlData.originalUrl a))) as [El|El];
    [discriminate |].
  destruct (UrlService.over_limit _ _) eqn:Eo; [discriminate |].
  destruct (UrlService.existing_duplicate a (urls st)) as [e|] eqn:Ed.
  - intros [= <- <-]. repeat (split; [auto; lia |]). left. auto.
  - destruct (UrlService.choose_code _ _ _ _) as [[e|code] r0];
      [discriminate |].
    destruct (UrlService.save_new _ _) as [e|ls] eqn:Es; [discriminate |].
    apply save_new_inv in Es. intros [= <- <-].
    repeat (split; [auto; lia |]). right. simpl. eauto 10.
Qed.

(** A failed [createUrl] leaves the collection and the users as they were. *)
Lemma createUrl_err_inv a now st e st' :
  UrlService.createUrl env a now st = (inl e, st') ->
  urls st' = urls st /\ users st' = users st.
Proof.
  unfold UrlService.createUrl.
  repeat match goal with
         | |- context [if ?b then _ else _] => destruct b
         | |- context [match ?x with _ => _ end] => destruct x
         end;
    intros [= <- <-]; auto.
Qed.

Lemma findOne_In q ls l :
  UrlService.findOne q ls = Some l -> In l ls /\ q l = true.
Proof. apply find_some. Qed.

Lemma findOne_app_new q ls d :
  UrlService.findOne q ls = None -> q d = true ->
  UrlService.findOne q (ls ++ [d]) = Some d.
Proof.
  unfold UrlService.findOne. induction ls as [|x ls IH]; simpl.
  - intros _ ->. reflexivity.
  - destruct (q x); [discriminate | exact IH].
Qed.

Lemma findOne_is_Some q ls l :
  In l ls -> q l = true -> exists e, UrlService.findOne q ls = Some e.
Proof.
  intros Hin Hq. destruct (UrlService.findOne q ls) as [e|] eqn:E; [eauto |].
  pose proof (find_none _ _ E l Hin). congruence.
Qed.

(** [createUrl] on arguments that pass the checks made before the search
    for a duplicate. *)
Lemma createUrl_past_checks a now st u :
  UrlData.userId a = Some u ->
  UrlService._isValidUrl env (UrlData.originalUrl a) = true ->
  (String.length (UrlData.originalUrl a) <= maxUrlLength (config env))%nat ->
  (UrlService.countDocuments (UrlService.q_active_of u) (urls st) < 20)%nat ->
  forall e,
    UrlService.findOne (UrlService.q_duplicate (UrlData.originalUrl a) u)
      (urls st) = Some e ->
    UrlService.createUrl env a now st
    = (inr (mkCreateResult e false
              (Some "URL already exists in your account") None None), st).
Proof.
  intros Hu Hv Hl Hq e He. unfold UrlService.createUrl.
  rewrite Hv. simpl.
  destruct (Nat.ltb_spec (maxUrlLength (config env))
              (String.length (UrlData.originalUrl a))) as [El|El]; [lia |].
  rewrite Hu. rewrite (proj2 (over_limit_false u (urls st)) Hq).
  unfold UrlService.existing_duplicate. rewrite Hu, He. reflexivity.
Qed.

(** C1 (amended). For an owner with fewer than 20 active Links and an
    [originalUrl] that passes the format and length checks: if the
    collection holds an active Link with the same [(originalUrl, ownerId)],
    the URL of the request trimmed as the schema casts it, [createUrl]
    returns such a Link, the first one, with [isNew = false] and the
    message "URL already exists in your account", and changes neither the
    collection nor the users. After a successful [createUrl], a second call
    with the same arguments returns the same Link id with [isNew = false]
    and changes nothing, provided the owner is still below 20 active
    Links. *)
Theorem createUrl_returns_existing (a : UrlData.t) (now : Z) (st : State)
  (u : nat) :
  UrlData.userId a = Some u ->
  UrlService._isValidUrl env (UrlData.originalUrl a) = true ->
  (String.length (UrlData.originalUrl a) <= maxUrlLength (config env))%nat ->
  (UrlService.countDocuments (UrlService.q_active_of u) (urls st) < 20)%nat ->
  (forall l,
      In l (urls st) ->
      originalUrl l = Chars.trim (UrlData.originalUrl a) ->
      userId l = Some u -> isActive l = true ->
      exists e,
        UrlService.createUrl env a now st
        = (inr (mkCreateResult e false
                  (Some "URL already exists in your account") None None), st)
        /\ In e (urls st)
        /\ originalUrl e = Chars.trim (UrlData.originalUrl a)
        /\ userId e = Some u /\ isActive e = true
        /\ ((forall l', In l' (urls st) ->
                        originalUrl l' = Chars.trim (UrlData.originalUrl a) ->
                        userId l' = Some u -> isActive l' = true -> l' = l) ->
            e = l))
  /\ (forall r st1 now',
         UrlService.createUrl env a now st = (inr r, st1) ->
         (UrlService.countDocuments (UrlService.q_active_of u) (urls st1)
          < 20)%nat ->
         exists r',
           UrlService.createUrl env a now' st1 = (inr r', st1)
           /\ _id (url r') = _id (url r) /\ url r' = url r
           /\ isNew r' = false).
Proof.
  intros Hu Hv Hl Hq. split.
  - intros l Hin Ho Hown Hact.
    destruct (findOne_is_Some
                (UrlService.q_duplicate (UrlData.originalUrl a) u)
                (urls st) l Hin) as [e He].
    { apply q_duplicate_true. auto. }
    exists e. split; [apply (createUrl_past_checks a now st u); auto |].
    apply findOne_In in He as He'. destruct He' as [Hine Hqe].
    apply q_duplicate_true in Hqe as (? & ? & ?).
    repeat (split; [assumption |]).
    intros Huniq. apply Huniq; assumption.
  - intros r st1 now' Hc Hq1.
    apply createUrl_ok_inv in Hc as (_ & _ & _ & Hcase).
    unfold UrlService.existing_duplicate in Hcase. rewrite Hu in Hcase.
    destruct Hcase as [(Hn & -> & Hd & _)|(Hn & Hd & Hurls & _ & code & Hdoc)].
    + exists (mkCreateResult (url r) false
                (Some "URL already exists in your account") None None).
      split; [apply (createUrl_past_checks a now' st u); auto |].
      simpl. auto.
    + exists (mkCreateResult (url r) false
                (Some "URL already exists in your account") None None).
      split; [| simpl; auto].
      apply (createUrl_past_checks a now' st1 u); auto.
      rewrite Hurls. apply findOne_app_new; [exact Hd |].
      apply q_duplicate_true. rewrite Hdoc. simpl. auto.
Qed.

End Creation.

Lemma createUrl_returns_existing_witness :
  let a := Demo.args "https://example.com" None (Some 1%nat) in
  let e := Demo.link 0 "https://example.com" "launch" (Some "launch")
             (Some 1%nat) in
  UrlService.createUrl Demo.env a 7 Demo.launch_state
  = (inr (mkCreateResult e false
            (Some "URL already exists in your account") None None),
     Demo.launch_state)
  /\ exists r st1 r',
       UrlService.createUrl Demo.env a 7 Demo.empty_state = (inr r, st1)
       /\ isNew r = true /\ length (urls st1) = 1%nat
       /\ UrlService.createUrl Demo.env a 8 st1 = (inr r', st1)
       /\ _id (url r') = _id (url r) /\ isNew r' = false.
Proof.
  intros a e. split.
  - destruct (createUrl_returns_existing Demo.env a 7 Demo.launch_state 1)
      as [H _].
    + reflexivity.
    + reflexivity.
    + vm_compute. lia.
    + vm_compute. lia.
    + destruct (H e) as (e' & Hc & _ & _ & _ & _ & Huniq).
      * left. reflexivity.
      * reflexivity.
      * reflexivity.
      * reflexivity.
      * rewrite Hc. rewrite Huniq; [reflexivity |].
        intros l' [<-|[]] _ _ _. reflexivity.
  - destruct (UrlService.createUrl Demo.env a 7 Demo.empty_state)
      as [[err|r] st1] eqn:E; [vm_compute in E; discriminate |].
    assert (Hnew : isNew r = true /\ length (urls st1) = 1%nat).
    { vm_compute in E. injection E as <- <-. split; reflexivity. }
    destruct (createUrl_returns_existing Demo.env a 7 Demo.empty_state 1)
      as [_ H].
    + reflexivity.
    + reflexivity.
    + vm_compute. lia.
    + vm_compute. lia.
    + destruct (H r st1 8 E) as (r' & Hc & Hid & _ & Hn).
      * vm_compute in E. injection E as _ <-. vm_compute. lia.
      * exists r, st1, r'. tauto.
Defined.

(** C1 as stated fails at the limit of 20 active Links. An owner with 20
    active Links, one of them for the URL, gets the limit error instead of
    the existing Link; an owner with 19 gets a new Link from the first call
    and the limit error from the second call with the same arguments. *)
Lemma createUrl_duplicate_at_limit :
  let a := Demo.args "https://example.com" None (Some 1%nat) in
  (In (Demo.link 0 "https://example.com" "full0" None (Some 1%nat))
     (urls Demo.full_state)
   /\ UrlService.createUrl Demo.env a 7 Demo.full_state
      = (inl UrlLimitReached, Demo.full_state))
  /\ (let st := mkState (tail Demo.full_urls) {[ 1%nat := mkUser 19 0 ]} 20 0 in
      exists r st1,
        UrlService.createUrl Demo.env a 7 st = (inr r, st1)
        /\ isNew r = true
        /\ UrlService.createUrl Demo.env a 8 st1 = (inl UrlLimitReached, st1)).
Proof.
  intros a. split.
  - split; [left; reflexivity | reflexivity].
  - eexists _, _. split; [reflexivity |]. split; reflexivity.
Qed.

(** ** The limit of 20 active Links *)

(** C5 (amended). When the owner already has 20 or more active Links,
    [createUrl] fails and leaves the state as it was, so no Link is created;
    the error is the limit error, whose text names the limit of 20, whenever
    the [originalUrl] passes the format and length checks, which come
    first. *)
Theorem createUrl_limit_reached (env : Env) (a : UrlData.t) (now : Z)
  (st : State) (u : nat) :
  UrlData.userId a = Some u ->
  (20 <= UrlService.countDocuments (UrlService.q_active_of u) (urls st))%nat ->
  exists e,
    UrlService.createUrl env a now st = (inl e, st)
    /\ (UrlService._isValidUrl env (UrlData.originalUrl a) = true ->
        (String.length (UrlData.originalUrl a)
         <= maxUrlLength (config env))%nat ->
        e = UrlLimitReached)
    /\ UrlService.createUrl_message UrlLimitReached
       = "URL creation failed: URL limit reached. You can create up to 20 shortened URLs. Please delete some existing URLs to create new ones, or contact support for a premium account with higher limits.".
Proof.
  intros Hu Hq. unfold UrlService.createUrl.
  destruct (UrlService._isValidUrl env _) eqn:Ev; simpl.
  - destruct (Nat.ltb_spec (maxUrlLength (config env))
                (String.length (UrlData.originalUrl a))) as [El|El].
    + eexists. split; [reflexivity |]. split; [intros _ ?; lia | reflexivity].
    + rewrite Hu. unfold UrlService.over_limit.
      destruct (Nat.leb_spec 20
                  (UrlService.countDocuments (UrlService.q_active_of u)
                     (urls st))) as [_|?]; [| lia].
      eexists. split; [reflexivity |]. split; [reflexivity | reflexivity].
  - eexists. split; [reflexivity |]. split; [discriminate | reflexivity].
Qed.

Lemma createUrl_limit_reached_witness :
  UrlService.createUrl Demo.env
    (Demo.args "https://fresh.example" None (Some 1%nat)) 7 Demo.full_state
  = (inl UrlLimitReached, Demo.full_state).
Proof.
  destruct (createUrl_limit_reached Demo.env
              (Demo.args "https://fresh.example" None (Some 1%nat)) 7
              Demo.full_state 1) as (e & Hc & He & _).
  - reflexivity.
  - vm_compute. lia.
  - rewrite Hc, He; [reflexivity | reflexivity | vm_compute; lia].
Defined.

(** C5 as stated fails for a malformed URL: with 20 active Links the owner
    gets the format error, not the limit error. *)
Lemma createUrl_limit_after_format :
  (20 <= UrlService.countDocuments (UrlService.q_active_of 1)
           (urls Demo.full_state))%nat
  /\ UrlService.createUrl Demo.env
       (Demo.args "not-a-valid-url" None (Some 1%nat)) 7 Demo.full_state
     = (inl InvalidUrlFormat, Demo.full_state)
  /\ InvalidUrlFormat <> UrlLimitReached.
Proof.
  split; [vm_compute; lia |]. split; [reflexivity | discriminate].
Qed.

(** ** Custom aliases *)

Lemma truthy_Some s : s <> "" -> UrlService.truthy (Some s) = Some s.
Proof.
  intros H. unfold UrlService.truthy.
  destruct (bool_decide_reflect (s = "")); [contradiction | reflexivity].
Qed.

Lemma findOne_code_taken alias ls :
  (exists l, In l ls /\ code_of (Chars.trim alias) l) <->
  exists e, UrlService.findOne (UrlService.q_code alias) ls = Some e.
Proof.
  split.
  - intros (l & Hin & Hc). apply (findOne_is_Some _ _ l Hin).
    apply q_code_true. exact Hc.
  - intros (e & He). apply findOne_In in He as [Hin Hq].
    exists e. split; [exact Hin | apply q_code_true; exact Hq].
Qed.

(** The alias branch of [createUrl] never lets a malformed or a used alias
    through. *)
Lemma choose_code_alias env alias ls r :
  alias <> "" ->
  ~ well_formed_code alias \/ (exists l, In l ls /\ code_of alias l) ->
  exists e, UrlService.choose_code env (Some alias) ls r = (inl e, r)
            /\ (allowCustomAlias (config env) = true ->
                (~ well_formed_code alias ->
                 e = InvalidCustomAlias (errors (validateShortCode alias)))
                /\ (well_formed_code alias -> e = CustomAliasTaken)).
Proof.
  intros Hne Hbad. unfold UrlService.choose_code.
  rewrite (truthy_Some _ Hne).
  destruct (allowCustomAlias (config env)); simpl.
  2: { eexists. split; [reflexivity | discriminate]. }
  destruct (isValid (validateShortCode alias)) eqn:Ev; simpl.
  - apply validateShortCode_valid_iff in Ev.
    destruct Hbad as [Hbad|Htaken]; [contradiction |].
    rewrite <- (trim_well_formed alias Ev) in Htaken.
    apply findOne_code_taken in Htaken as [e ->].
    eexists. split; [reflexivity |]. intros _. split; [contradiction | auto].
  - assert (Hm : ~ well_formed_code alias).
    { intros Hw. apply validateShortCode_valid_iff in Hw. congruence. }
    eexists. split; [reflexivity |]. intros _.
    split; [reflexivity | contradiction].
Qed.

(** C4 (amended). For a create request with a non-empty [customAlias] that
    is malformed or already used by some Link as its [shortCode] or its
    [customAlias]: no Link is created and no user is touched, whatever the
    rest of the request. When the request gets as far as the alias, that is
    the [originalUrl] passes the format and length checks, the owner, if
    any, has fewer than 20 active Links and no active Link for the same
    [originalUrl], and custom aliases are allowed, creation fails, with the
    invalid-alias error for a malformed alias and with the alias-taken error
    for a well-formed alias that is in use, also when the [originalUrl]
    differs from that of the Link in use. *)
Theorem createUrl_alias_conflict (env : Env) (a : UrlData.t) (now : Z)
  (st : State) (alias : string) :
  UrlData.customAlias a = Some alias ->
  alias <> "" ->
  ~ well_formed_code alias
  \/ (exists l, In l (urls st) /\ code_of alias l) ->
  (urls (UrlService.createUrl env a now st).2 = urls st
   /\ users (UrlService.createUrl env a now st).2 = users st)
  /\ (UrlService._isValidUrl env (UrlData.originalUrl a) = true ->
      (String.length (UrlData.originalUrl a)
       <= maxUrlLength (config env))%nat ->
      UrlService.over_limit (UrlData.userId a) (urls st) = false ->
      UrlService.existing_duplicate a (urls st) = None ->
      allowCustomAlias (config env) = true ->
      (~ well_formed_code alias ->
       UrlService.createUrl env a now st
       = (inl (InvalidCustomAlias (errors (validateShortCode alias))), st))
      /\ (well_formed_code alias ->
          UrlService.createUrl env a now st = (inl CustomAliasTaken, st))).
Proof.
  intros Ha Hne Hbad.
  destruct (choose_code_alias env alias (urls st) (rng st) Hne Hbad)
    as (e & Hc & He).
  split.
  - unfold UrlService.createUrl.
    destruct (negb _); [auto |].
    destruct (_ <? _)%nat; [auto |].
    destruct (UrlService.over_limit _ _); [auto |].
    destruct (UrlService.existing_duplicate _ _); [auto |].
    rewrite Ha, Hc. auto.
  - intros Hv Hl Ho Hd Hallow.
    assert (Hrun : UrlService.createUrl env a now st = (inl e, st)).
    { unfold UrlService.createUrl. rewrite Hv. simpl.
      destruct (Nat.ltb_spec (maxUrlLength (config env))
                  (String.length (UrlData.originalUrl a))); [lia |].
      rewrite Ho, Hd, Ha, Hc, state_eta. reflexivity. }
    destruct (He Hallow) as [H1 H2].
    split; intros Hw; rewrite Hrun; f_equal; f_equal; auto.
Qed.

Lemma createUrl_alias_conflict_witness :
  UrlService.createUrl Demo.env
    (Demo.args "https://different.example" (Some "launch") (Some 1%nat)) 7
    Demo.launch_state
  = (inl CustomAliasTaken, Demo.launch_state).
Proof.
  destruct (createUrl_alias_conflict Demo.env
              (Demo.args "https://different.example" (Some "launch")
                 (Some 1%nat)) 7 Demo.launch_state "launch")
    as [_ H].
  - reflexivity.
  - discriminate.
  - right. eexists. split; [left; reflexivity | left; reflexivity].
  - apply H; try reflexivity.
    + vm_compute. lia.
    + split; [reflexivity | vm_compute; lia].
Defined.

(** C4 as stated fails when the request repeats the [originalUrl] of an
    active Link of the same owner: the existing Link is returned, with
    [isNew = false] and no error, although the alias is in use, and also
    when the alias is malformed. *)
Lemma createUrl_alias_after_duplicate :
  let e := Demo.link 0 "https://example.com" "launch" (Some "launch")
             (Some 1%nat) in
  let found := mkCreateResult e false
                 (Some "URL already exists in your account") None None in
  (exists l, In l (urls Demo.launch_state) /\ code_of "launch" l)
  /\ UrlService.createUrl Demo.env
       (Demo.args "https://example.com" (Some "launch") (Some 1%nat)) 7
       Demo.launch_state
     = (inr found, Demo.launch_state)
  /\ ~ well_formed_code "a!"
  /\ UrlService.createUrl Demo.env
       (Demo.args "https://example.com" (Some "a!") (Some 1%nat)) 7
       Demo.launch_state
     = (inr found, Demo.launch_state).
Proof.
  intros e found.
  split; [exists e; split; [left; reflexivity | left; reflexivity] |].
  split; [reflexivity |].
  split; [| reflexivity].
  intros [_ H]. simpl in H. lia.
Qed.

(** ** Bulk creation *)

Section BulkCreation.

Variable env : Env.
Variable u : nat.
Variable o : Bulk.Options.
Variable nowAt : nat -> Z.
Variable st0 : State.
Variable usr0 : User.

Lemma created_count_le res :
  (created_count res <= length (Bulk.successful res))%nat.
Proof. apply List.filter_length_le. Qed.

Lemma duplicate_is_same_url a ls e :
  UrlData.userId a = Some u ->
  UrlService.existing_duplicate a ls = Some e ->
  UrlService.findOne (UrlService.q_same_url (UrlData.originalUrl a) u) ls
  <> None.
Proof.
  intros Hu. unfold UrlService.existing_duplicate. rewrite Hu.
  intros He Hnone. apply findOne_In in He as [Hin Hq].
  apply q_duplicate_true in Hq as (? & ? & _).
  pose proof (find_none _ _ Hnone e Hin) as Hf.
  assert (UrlService.q_same_url (UrlData.originalUrl a) u e = true)
    by (apply q_same_url_true; auto).
  congruence.
Qed.

Lemma bulk_loop_inv items : forall i res st res' st',
  UrlService.bulk_loop env items i u o nowAt res st = (inr res', st') ->
  bulk_inv u o st0 usr0 res st -> bulk_inv u o st0 usr0 res' st'.
Proof.
  induction items as [|[urlData|] rest IH]; intros i res st res' st'; simpl.
  - intros [= <- <-]. auto.
  - intros Hloop (Hsc & Hlen & (usr & Husr & Hcnt) & Hskip).
    destruct res as [succ fl sk tp sc ec skc]. simpl in *.
    set (skipFound :=
           if Bulk.skipDuplicates o
           then UrlService.findOne
                  (UrlService.q_same_url (UrlData.originalUrl urlData) u)
                  (urls st)
           else None) in *.
    destruct skipFound as [existingUrl|] eqn:Efound.
    { apply IH in Hloop; [exact Hloop |].
      unfold bulk_inv, created_count in *. simpl. eauto 10. }
    set (a := UrlData.mk _ _ _ _ _ _ _ _) in *.
    destruct (UrlService.createUrl env a (nowAt i) st) as [[e|r] st1] eqn:Ec.
    + apply (createUrl_err_inv env) in Ec as [Hu1 Hu2].
      assert (Hinv : bulk_inv u o st0 usr0
                (Bulk.mkResults succ
                   (fl ++ [(i, UrlData.originalUrl urlData, e)]) sk
                   (S tp) sc (S ec) skc) st1).
      { unfold bulk_inv, created_count in *. simpl.
        rewrite Hu1, Hu2. eauto 10. }
      destruct (Bulk.stopOnError o).
      * injection Hloop as <- <-. exact Hinv.
      * apply IH in Hloop; auto.
    + apply IH in Hloop; [exact Hloop |].
      apply (createUrl_ok_inv env) in Ec as (_ & _ & _ & Hcase).
      unfold bulk_inv, created_count in *. simpl in *.
      rewrite List.filter_app, !length_app. simpl.
      destruct Hcase as [(Hn & -> & Hd & _)|(Hn & _ & Hurls & Husers & _)];
        rewrite Hn; simpl.
      * split; [lia |]. split; [lia |].
        split; [exists usr; split; [exact Husr | lia] |].
        intros Hs. exfalso.
        apply (duplicate_is_same_url a (urls st) (url r)) in Hd;
          [| reflexivity].
        apply Hd. subst skipFound. rewrite Hs in Efound. exact Efound.
      * split; [lia |]. rewrite Hurls, Husers, length_app. simpl.
        split; [lia |].
        split; [| intros Hs; specialize (Hskip Hs); lia].
        exists (inc_urlCount 1 usr). split.
        -- unfold UrlService.inc_user_urlCount.
           rewrite lookup_alter_eq, Husr. reflexivity.
        -- simpl. lia.
  - discriminate.
Qed.

End BulkCreation.

(** C10 (amended). A [bulkCreateUrls] call by an existing user that creates
    [k] new Links raises the user's [urlCount] by [k + successCount]: once
    for each created Link inside [createUrl], and once more by
    [successCount] after the loop, where [successCount] also counts the
    entries answered with a Link that existed already. With
    [skipDuplicates] on, the default, every success is a new Link and the
    increase is [2k]. In each case the collection grows by [k] Links only,
    so for [k > 0] the increase of [urlCount] exceeds the number of Links
    created. *)
Theorem bulkCreateUrls_urlCount (env : Env)
  (urlsData : list (option UrlData.t))
  (u : nat) (o : Bulk.Options) (nowAt : nat -> Z) (st st' : State)
  (usr : User) (res : Bulk.Results) :
  users st !! u = Some usr ->
  UrlService.bulkCreateUrls env urlsData u o nowAt st = (inr res, st') ->
  let k := created_count res in
  (exists usr',
      users st' !! u = Some usr'
      /\ urlCount usr'
         = urlCount usr + Z.of_nat k + Z.of_nat (Bulk.successCount res))
  /\ length (urls st') = (length (urls st) + k)%nat
  /\ (k <= Bulk.successCount res)%nat
  /\ (Bulk.skipDuplicates o = true ->
      Bulk.successCount res = k
      /\ exists usr',
           users st' !! u = Some usr'
           /\ urlCount usr' = urlCount usr + 2 * Z.of_nat k)
  /\ ((0 < k)%nat ->
      exists usr',
        users st' !! u = Some usr'
        /\ urlCount usr + Z.of_nat k < urlCount usr').
Proof.
  intros Husr Hrun k. unfold UrlService.bulkCreateUrls in Hrun.
  destruct (length urlsData =? 0)%nat; [discriminate |].
  destruct (100 <? length urlsData)%nat; [discriminate |].
  destruct (UrlService.bulk_loop env urlsData 0 u o nowAt Bulk.empty st)
    as [[err|results] st1] eqn:Eloop; [discriminate |].
  apply (bulk_loop_inv env u o nowAt st usr) in Eloop.
  2: { unfold bulk_inv, created_count. simpl.
       split; [reflexivity |]. split; [lia |].
       split; [exists usr; split; [exact Husr | lia] | reflexivity]. }
  destruct Eloop as (Hsc & Hlen & (usr1 & Husr1 & Hcnt) & Hskip).
  pose proof (created_count_le results) as Hle.
  assert (Hfinal : res = results
            /\ urls st' = urls st1
            /\ exists usr',
                 users st' !! u = Some usr'
                 /\ urlCount usr'
                    = urlCount usr1 + Z.of_nat (Bulk.successCount results)).
  { destruct (Nat.ltb_spec 0 (Bulk.successCount results)) as [Hpos|Hz];
      injection Hrun as <- <-; simpl.
    - split; [reflexivity |]. split; [reflexivity |].
      exists (inc_urlCount (Z.of_nat (Bulk.successCount results)) usr1).
      split; [| reflexivity].
      unfold UrlService.inc_user_urlCount.
      rewrite lookup_alter_eq, Husr1. reflexivity.
    - split; [reflexivity |]. split; [reflexivity |].
      exists usr1. split; [exact Husr1 | lia]. }
  destruct Hfinal as (-> & Hurls & usr' & Husr' & Hcnt').
  subst k. rewrite Hurls.
  split; [exists usr'; split; [exact Husr' | lia] |].
  split; [exact Hlen |].
  split; [lia |].
  split.
  - intros Hs. specialize (Hskip Hs).
    split; [lia |]. exists usr'. split; [exact Husr' | lia].
  - intros Hk. exists usr'. split; [exact Husr' | lia].
Qed.

Lemma bulkCreateUrls_urlCount_witness :
  let items := [Some (Demo.args "https://one.example" None None);
                Some (Demo.args "https://two.example" None None)] in
  let out := UrlService.bulkCreateUrls Demo.env items 1 (Demo.bulk_opts true)
               (fun i => Z.of_nat i) Demo.empty_state in
  exists res usr',
    out.1 = inr res
    /\ created_count res = 2%nat
    /\ users out.2 !! 1%nat = Some usr'
    /\ urlCount usr' = 4.
Proof.
  intros items out.
  destruct out as [[e|res] st'] eqn:E; [vm_compute in E; discriminate |].
  destruct (bulkCreateUrls_urlCount Demo.env items 1 (Demo.bulk_opts true)
              (fun i => Z.of_nat i) Demo.empty_state st' Demo.user0 res)
    as (_ & _ & _ & Hskip & _).
  - reflexivity.
  - exact E.
  - destruct (Hskip eq_refl) as (Hk & usr' & Hu & Hc).
    assert (Hres : created_count res = 2%nat).
    { vm_compute in E. injection E as <- _. reflexivity. }
    exists res, usr'. split; [reflexivity |]. split; [exact Hres |].
    split; [exact Hu |]. rewrite Hc, Hres. reflexivity.
Defined.

(** C10 as stated fails when [skipDuplicates] is off and an entry repeats
    an active Link of the user: no Link is created, yet [urlCount] goes from
    1 to 2. *)
Lemma bulkCreateUrls_counts_duplicates :
  let out := UrlService.bulkCreateUrls Demo.env
               [Some (Demo.args "https://example.com" None None)] 1
               (Demo.bulk_opts false) (fun _ => 7) Demo.launch_state in
  exists res,
    out.1 = inr res
    /\ created_count res = 0%nat
    /\ urls out.2 = urls Demo.launch_state
    /\ urlCount <$> (users Demo.launch_state !! 1%nat) = Some 1
    /\ urlCount <$> (users out.2 !! 1%nat) = Some 2
    /\ 2 <> 1 + 2 * Z.of_nat 0.
Proof.
  intros out. eexists. split; [reflexivity |].
  repeat split; vm_compute; discriminate.
Qed.

(** * Further properties of the code *)

(** ** The validator and the generator of short codes *)

Lemma In_push_if b e es x :
  In x (push_if b e es) <-> In x es \/ (b = true /\ x = e).
Proof.
  unfold push_if. destruct b.
  - rewrite in_app_iff. simpl. intuition.
  - intuition. discriminate.
Qed.

(** X1. [validateShortCode] reports an empty code with the single error
    "Short code is required". For a non-empty code it lists the too-short
    error iff the length is below 3, the too-long error iff it is above 30
    and the character error iff some character is outside [A-Za-z0-9_-];
    the code is valid iff the list is empty, which is the case iff the code
    has 3 to 30 characters, all of them from that class. *)
Theorem validateShortCode_errors (code : string) :
  (code = "" ->
   validateShortCode code
   = {| isValid := false; errors := ["Short code is required"] |})
  /\ (code <> "" ->
      (In "Short code is too short (min 3 characters)"
          (errors (validateShortCode code))
       <-> (String.length code < 3)%nat)
      /\ (In "Short code is too long (max 30 characters)"
             (errors (validateShortCode code))
          <-> (30 < String.length code)%nat)
      /\ (In "Short code contains invalid characters"
             (errors (validateShortCode code))
          <-> Chars.all_chars Chars.is_code_char code = false))
  /\ (isValid (validateShortCode code) = true
      <-> errors (validateShortCode code) = [])
  /\ (isValid (validateShortCode code) = true <-> well_formed_code code).
Proof.
  split; [intros ->; reflexivity |].
  split.
  - intros Hne. unfold validateShortCode.
    destruct (Nat.eqb_spec (String.length code) 0) as [E0|E0].
    { destruct code; [contradiction | discriminate]. }
    cbn [errors]. rewrite !In_push_if.
    assert (Hm : Chars.matches_plus Chars.is_code_char code
                 = Chars.all_chars Chars.is_code_char code).
    { destruct code; [contradiction | reflexivity]. }
    rewrite Hm, negb_true_iff, Nat.ltb_lt, Nat.ltb_lt.
    repeat split; intros H;
      repeat match goal with
             | H : _ \/ _ |- _ => destruct H
             | H : _ /\ _ |- _ => destruct H
             | H : In _ [] |- _ => destruct H
             end; try discriminate; try assumption; auto 6.
  - split; [| apply validateShortCode_valid_iff].
    unfold validateShortCode.
    destruct (String.length code =? 0)%nat; cbn [isValid errors].
    + split; discriminate.
    + rewrite Nat.eqb_eq. apply length_zero_iff_nil.
Qed.

Lemma characters_alphanum n :
  (n < 62)%nat ->
  exists c, ShortCodeGenerator.charAt n ShortCodeGenerator.characters
            = String c ""
            /\ Chars.is_alphanum c = true.
Proof.
  intros Hn.
  assert (Hall : forallb
            (fun n => match String.get n ShortCodeGenerator.characters with
                      | Some c => Chars.is_alphanum c
                      | None => false
                      end) (seq 0 62) = true) by (vm_compute; reflexivity).
  rewrite forallb_forall in Hall.
  specialize (Hall n). unfold ShortCodeGenerator.charAt.
  destruct (String.get n ShortCodeGenerator.characters) as [c|].
  - exists c. split; [reflexivity |]. apply Hall. apply in_seq. lia.
  - assert (false = true); [| discriminate]. apply Hall. apply in_seq. lia.
Qed.

Lemma is_alphanum_code_char c :
  Chars.is_alphanum c = true -> Chars.is_code_char c = true.
Proof.
  unfold Chars.is_alphanum, Chars.is_code_char.
  destruct (Chars.is_upper c), (Chars.is_lower c), (Chars.is_digit c);
    simpl; auto; discriminate.
Qed.

Lemma append_char c s : String c "" +:+ s = String c s.
Proof. reflexivity. Qed.

Lemma generate_from_spec draw :
  (forall i, (draw i < 62)%nat) ->
  forall n i,
    String.length (ShortCodeGenerator.generate_from n draw i) = n
    /\ Chars.all_chars Chars.is_alphanum
         (ShortCodeGenerator.generate_from n draw i) = true.
Proof.
  intros Hd. induction n as [|n IH]; intros i; simpl.
  - split; reflexivity.
  - destruct (characters_alphanum (draw i) (Hd i)) as (c & -> & Hc).
    destruct (IH (S i)) as [Hl Ha]. rewrite append_char. simpl.
    rewrite Hl, Hc, Ha.
    split; reflexivity.
Qed.


(** X2. When every random draw is an index into the 62 characters,
    [generateShortCode(length)] returns exactly [length] characters, all of
    them letters or digits. For a length from 3 to 30 (the default is 8)
    the code passes [validateShortCode], the schema of the model and the
    alias rule of the request schema. *)
Theorem generateShortCode_well_formed (length : nat) (draw : nat -> nat) :
  (forall i, (draw i < 62)%nat) ->
  let code := ShortCodeGenerator.generateShortCode length draw in
  String.length code = length
  /\ Chars.all_chars Chars.is_alphanum code = true
  /\ ((3 <= length <= 30)%nat ->
      isValid (validateShortCode code) = true
      /\ UrlService.schema_code_ok code = true
      /\ schemas_createUrl_customAlias (Some code) = true).
Proof.
  intros Hd code.
  destruct (generate_from_spec draw Hd length 0) as [Hl Ha].
  fold (ShortCodeGenerator.generateShortCode length draw) in Hl, Ha.
  fold code in Hl, Ha.
  split; [exact Hl |]. split; [exact Ha |].
  intros Hlen.
  assert (Hw : well_formed_code code).
  { split; [| lia].
    apply (all_chars_impl Chars.is_alphanum); [| exact Ha].
    apply is_alphanum_code_char. }
  split; [apply validateShortCode_valid_iff; exact Hw |].
  split; [apply schema_code_ok_iff; exact Hw |].
  unfold schemas_createUrl_customAlias.
  rewrite !andb_true_iff, !Nat.leb_le, all_chars_matches_plus.
  repeat split; try lia; [exact Ha |].
  intros E. rewrite E in Hl. simpl in Hl. lia.
Qed.

Lemma generateShortCode_well_formed_witness :
  let code :=
    ShortCodeGenerator.generateShortCode 8 (fun i => (i * 7) mod 62)%nat in
  code = "AHOVcjqx" /\ isValid (validateShortCode code) = true.
Proof.
  intros code.
  destruct (generateShortCode_well_formed 8 (fun i => (i * 7) mod 62)%nat)
    as (_ & _ & H).
  - intros i. apply Nat.mod_upper_bound. lia.
  - split; [reflexivity |]. apply H. lia.
Defined.

(** ** Allocation of a short code *)

Lemma findOne_code_none c ls :
  UrlService.findOne (UrlService.q_code c) ls = None <->
  forall l, In l ls -> ~ code_of (Chars.trim c) l.
Proof.
  split.
  - intros Hn l Hin Hc. pose proof (find_none _ _ Hn l Hin) as Hq.
    apply q_code_true in Hc. congruence.
  - intros Hall.
    destruct (UrlService.findOne (UrlService.q_code c) ls) as [e|] eqn:E;
      [| reflexivity].
    apply findOne_In in E as [Hin Hq]. apply q_code_true in Hq.
    exfalso. exact (Hall e Hin Hq).
Qed.

Lemma generate_loop_spec env ls fuel : forall r res r',
  UrlService.generate_loop env fuel ls r = (res, r') ->
  match res with
  | Some c =>
      exists k, (k < fuel)%nat /\ c = generateShortCode env (r + k)
                /\ r' = S (r + k)
                /\ Chars.trim c <> ""
                /\ (forall l, In l ls -> ~ code_of (Chars.trim c) l)
                /\ forall j, (j < k)%nat -> candidate_rejected env ls (r + j)
  | None =>
      r' = (r + fuel)%nat
      /\ forall j, (j < fuel)%nat -> candidate_rejected env ls (r + j)
  end.
Proof.
  induction fuel as [|fuel IH]; intros r res r'; simpl.
  - intros [= <- <-]. split; [lia | intros j Hj; lia].
  - assert (Hstep : forall res r',
        UrlService.generate_loop env fuel ls (S r) = (res, r') ->
        candidate_rejected env ls r ->
        match res with
        | Some c =>
            exists k, (k < S fuel)%nat /\ c = generateShortCode env (r + k)
                      /\ r' = S (r + k)
                      /\ Chars.trim c <> ""
                      /\ (forall l, In l ls -> ~ code_of (Chars.trim c) l)
                      /\ forall j, (j < k)%nat ->
                                   candidate_rejected env ls (r + j)
        | None =>
            r' = (r + S fuel)%nat
            /\ forall j, (j < S fuel)%nat -> candidate_rejected env ls (r + j)
        end).
    { intros res0 r0 Hrec Hrej. apply IH in Hrec.
      destruct res0 as [c|].
      - destruct Hrec as (k & Hk & -> & -> & Ht & Hfree & Hprev).
        exists (S k). replace (r + S k)%nat with (S r + k)%nat by lia.
        repeat (split; [auto; lia |]).
        intros j Hj. destruct j as [|j].
        + rewrite Nat.add_0_r. exact Hrej.
        + replace (r + S j)%nat with (S r + j)%nat by lia. apply Hprev. lia.
      - destruct Hrec as [-> Hprev]. split; [lia |].
        intros j Hj. destruct j as [|j].
        + rewrite Nat.add_0_r. exact Hrej.
        + replace (r + S j)%nat with (S r + j)%nat by lia. apply Hprev. lia. }
    destruct (bool_decide_reflect
                (Chars.trim (generateShortCode env r) = "")) as [Hb|Hb].
    { intros Hrec. apply Hstep; [exact Hrec | left; exact Hb]. }
    destruct (UrlService.findOne _ _) as [e|] eqn:Ef.
    + intros Hrec. apply Hstep; [exact Hrec |]. right.
      apply findOne_In in Ef as [Hin Hq]. apply q_code_true in Hq. eauto.
    + intros [= <- <-]. exists 0%nat. rewrite Nat.add_0_r.
      repeat (split; [auto; lia |]).
      split; [apply findOne_code_none; exact Ef | intros j Hj; lia].
Qed.

(** X3. [_generateUniqueShortCode] tries at most 10 candidates. When it
    returns a code, the code is the first candidate that is neither blank
    nor, trimmed as the lookup and the schema trim it, carried by a Link of
    the collection, as short code or as alias, and every earlier candidate
    was rejected for one of these reasons. It fails only after 10
    candidates, all of them blank or in use. *)
Theorem generateUniqueShortCode_fresh (env : Env) (ls : list Link) (r : nat) :
  let '(res, r') := UrlService._generateUniqueShortCode env ls r in
  match res with
  | inr c =>
      exists k, (k < 10)%nat /\ c = generateShortCode env (r + k)
                /\ r' = S (r + k)
                /\ Chars.trim c <> ""
                /\ (forall l, In l ls -> ~ code_of (Chars.trim c) l)
                /\ forall j, (j < k)%nat -> candidate_rejected env ls (r + j)
  | inl e =>
      e = ShortCodeExhausted /\ r' = (r + 10)%nat
      /\ forall j, (j < 10)%nat -> candidate_rejected env ls (r + j)
  end.
Proof.
  unfold UrlService._generateUniqueShortCode.
  destruct (UrlService.generate_loop env 10 ls r) as [[c|] r'] eqn:E;
    apply generate_loop_spec in E.
  - exact E.
  - split; [reflexivity | exact E].
Qed.

(** ** What creation keeps *)

(** The code [choose_code] settles on is carried by no Link; with an alias
    in the request it is that alias, well formed. *)
Lemma choose_code_ok env alias ls r code r' :
  UrlService.choose_code env alias ls r = (inr code, r') ->
  (forall l, In l ls -> ~ code_of (Chars.trim code) l)
  /\ match UrlService.truthy alias with
     | Some a => code = a /\ well_formed_code a /\ r' = r
     | None => Chars.trim code <> ""
     end.
Proof.
  unfold UrlService.choose_code.
  destruct (UrlService.truthy alias) as [a|].
  - destruct (negb (allowCustomAlias (config env))); [discriminate |].
    destruct (isValid (validateShortCode a)) eqn:Ev; simpl; [| discriminate].
    destruct (UrlService.findOne _ _) eqn:Ef; [discriminate |].
    intros [= <- <-]. split; [apply findOne_code_none; exact Ef |].
    split; [reflexivity |].
    split; [apply validateShortCode_valid_iff; exact Ev | reflexivity].
  - unfold UrlService._generateUniqueShortCode.
    destruct (UrlService.generate_loop env 10 ls r) as [[c|] r0] eqn:E;
      [| discriminate].
    intros [= <- <-]. apply generate_loop_spec in E.
    destruct E as (k & _ & _ & _ & Ht & Hfree & _). auto.
Qed.

(** What a [createUrl] that made a new Link has done, in full. *)
Lemma createUrl_new_inv env a now st r st' :
  UrlService.createUrl env a now st = (inr r, st') ->
  isNew r = true ->
  exists code,
    url r = UrlService.new_doc a code now (nextId st)
    /\ urls st' = urls st ++ [url r]
    /\ users st' = UrlService.bump_owner (UrlData.userId a) (users st)
    /\ UrlService.over_limit (UrlData.userId a) (urls st) = false
    /\ (forall l, In l (urls st) -> ~ code_of (shortCode (url r)) l)
    /\ (customAlias (url r) = None
        \/ customAlias (url r) = Some (shortCode (url r)))
    /\ well_formed_code (shortCode (url r)).
Proof.
  unfold UrlService.createUrl.
  destruct (negb _); [discriminate |].
  destruct (_ <? _)%nat; [discriminate |].
  destruct (UrlService.over_limit _ _) eqn:Eo; [discriminate |].
  destruct (UrlService.existing_duplicate a (urls st)) as [e|];
    [intros [= <- <-]; discriminate |].
  destruct (UrlService.choose_code _ _ _ _) as [[e|code] r0] eqn:Ec;
    [discriminate |].
  destruct (UrlService.save_new _ _) as [e|ls] eqn:Es; [discriminate |].
  pose proof Es as Hv. unfold UrlService.save_new in Hv.
  destruct (UrlService.validate_doc _) eqn:Evd; simpl in Hv; [| discriminate].
  apply save_new_inv in Es. intros [= <- <-] _. simpl.
  apply choose_code_ok in Ec as [Hfree Halias].
  exists code. do 5 (split; [solve [auto] |]).
  assert (Hw : well_formed_code (Chars.trim code)).
  { unfold UrlService.validate_doc in Evd. simpl in Evd.
    rewrite !andb_true_iff in Evd. apply schema_code_ok_iff. tauto. }
  split; [| exact Hw].
  destruct (UrlService.truthy (UrlData.customAlias a)) as [al|];
    [| left; reflexivity].
  destruct Halias as (-> & Hwf & _). right.
  rewrite (trim_well_formed al Hwf). apply truthy_Some.
  intros ->. destruct Hwf as [_ Hl]. simpl in Hl. lia.
Qed.

(** The owner of a new Link is a user of the collection after the call
    exactly when it was one before. *)
Lemma populate_new env a now st r st' :
  UrlService.createUrl env a now st = (inr r, st') ->
  isNew r = true ->
  (forall u, UrlData.userId a = Some u -> is_Some (users st !! u)) ->
  populate (users st') (url r) = url r.
Proof.
  intros E En Hex.
  destruct (createUrl_new_inv env a now st r st' E En)
    as (code & Hdoc & _ & Hus & _).
  destruct (userId (url r)) as [u|] eqn:Eu;
    [| apply populate_anonymous; exact Eu].
  apply (populate_known _ _ u Eu).
  assert (Ha : UrlData.userId a = Some u)
    by (rewrite Hdoc in Eu; exact Eu).
  rewrite Hus, Ha. simpl. unfold UrlService.inc_user_urlCount.
  rewrite lookup_alter_eq. destruct (Hex u Ha) as [usr ->]. simpl. eauto.
Qed.

Lemma codes_unique_snoc ls d code :
  codes_unique ls ->
  (forall c, code_of c d -> c = code) ->
  (forall l, In l ls -> ~ code_of code l) ->
  codes_unique (ls ++ [d]).
Proof.
  intros Hu Hd Hfree i j l1 l2 c H1 H2 Hc1 Hc2.
  apply lookup_app_Some in H1, H2.
  destruct H1 as [H1|[Hi H1]], H2 as [H2|[Hj H2]].
  - exact (Hu i j l1 l2 c H1 H2 Hc1 Hc2).
  - exfalso. apply list_lookup_singleton_Some in H2 as [_ <-].
    apply Hd in Hc2 as ->.
    apply (Hfree l1); [| exact Hc1].
    apply list_elem_of_In, list_elem_of_lookup. eauto.
  - exfalso. apply list_lookup_singleton_Some in H1 as [_ <-].
    apply Hd in Hc1 as ->.
    apply (Hfree l2); [| exact Hc2].
    apply list_elem_of_In, list_elem_of_lookup. eauto.
  - apply list_lookup_singleton_Some in H1 as [H1 _].
    apply list_lookup_singleton_Some in H2 as [H2 _]. lia.
Qed.

Lemma new_doc_codes a code now id c :
  customAlias (UrlService.new_doc a code now id) = None
  \/ customAlias (UrlService.new_doc a code now id)
     = Some (Chars.trim code) ->
  code_of c (UrlService.new_doc a code now id) -> c = Chars.trim code.
Proof.
  intros Ha [Hc|Hc].
  - simpl in Hc. congruence.
  - destruct Ha as [Ha|Ha]; rewrite Ha in Hc; congruence.
Qed.

(** A [createUrl], whatever its outcome, either leaves the collection as it
    is or appends one document. *)
Lemma createUrl_urls_cases env a now st :
  urls (UrlService.createUrl env a now st).2 = urls st
  \/ exists r, (UrlService.createUrl env a now st).1 = inr r
               /\ isNew r = true
               /\ urls (UrlService.createUrl env a now st).2
                  = urls st ++ [url r].
Proof.
  destruct (UrlService.createUrl env a now st) as [[e|r] st'] eqn:E.
  - left. apply createUrl_err_inv in E. apply E.
  - destruct (isNew r) eqn:En.
    + right. exists r. destruct (createUrl_new_inv env a now st r st' E En)
        as (code & _ & Hu & _). auto.
    + left. apply createUrl_ok_inv in E as (_ & _ & _ & [(_ & -> & _)|(H & _)]);
        [reflexivity | congruence].
Qed.

(** X4. [createUrl] keeps the codes of the collection unique: if no two
    Links share a code, as short code or as alias, the same holds
    afterwards, whatever the outcome. The short code of a new Link has 3 to
    30 characters from [A-Za-z0-9_-] and was carried by no Link before. *)
Theorem createUrl_keeps_codes_unique (env : Env) (a : UrlData.t) (now : Z)
  (st : State) :
  codes_unique (urls st) ->
  codes_unique (urls (UrlService.createUrl env a now st).2)
  /\ forall r,
       (UrlService.createUrl env a now st).1 = inr r -> isNew r = true ->
       well_formed_code (shortCode (url r))
       /\ forall l, In l (urls st) -> ~ code_of (shortCode (url r)) l.
Proof.
  intros Hu.
  destruct (UrlService.createUrl env a now st) as [[e|r] st'] eqn:E; simpl.
  - apply createUrl_err_inv in E as [-> _].
    split; [exact Hu | intros r [=]].
  - destruct (isNew r) eqn:En.
    + destruct (createUrl_new_inv env a now st r st' E En)
        as (code & Hdoc & -> & _ & _ & Hfree & Halias & Hw).
      assert (Hsc : shortCode (url r) = Chars.trim code)
        by (rewrite Hdoc; reflexivity).
      split.
      * apply (codes_unique_snoc _ _ (Chars.trim code));
          [exact Hu | | rewrite <- Hsc; exact Hfree].
        intros c. rewrite Hsc in Halias. rewrite Hdoc in *.
        apply new_doc_codes. exact Halias.
      * intros r0 [= <-] _. split; [exact Hw | exact Hfree].
    + apply createUrl_ok_inv in E as (_ & _ & _ & [(_ & -> & _)|(H & _)]);
        [| congruence].
      split; [exact Hu | intros r0 [= <-] Hn; congruence].
Qed.

Lemma createUrl_keeps_codes_unique_witness :
  let a := Demo.args "https://new.example" (Some "fresh-1") (Some 1%nat) in
  codes_unique (urls Demo.launch_state)
  /\ codes_unique (urls (UrlService.createUrl Demo.env a 7 Demo.launch_state).2)
  /\ length (urls (UrlService.createUrl Demo.env a 7 Demo.launch_state).2)
     = 2%nat.
Proof.
  intros a.
  assert (H : codes_unique (urls Demo.launch_state)).
  { intros i j l1 l2 c H1 H2 _ _.
    destruct i as [|i]; [| discriminate H1].
    destruct j as [|j]; [reflexivity | discriminate H2]. }
  split; [exact H |].
  split; [apply (createUrl_keeps_codes_unique Demo.env a 7 _ H) |].
  reflexivity.
Defined.

(** X5. A Link that [createUrl] has just made resolves: as long as it has
    not expired, [getUrlByShortCode] on its short code, padded with white
    space or not, returns that very Link, populated, and a redirect request
    for the code answers with the original URL of the request, trimmed as
    the schema stores it. The Link comes back as it is when its owner, if
    any, is a user of the collection. A Link made without [expiresIn] never
    expires. *)
Theorem createUrl_then_redirect (env : Env) (a : UrlData.t) (now now' : Z)
  (st st' : State) (r : CreateResult) (c : string) :
  UrlService.createUrl env a now st = (inr r, st') ->
  isNew r = true ->
  URL_MODEL.isExpired now' (url r) = false ->
  Chars.trim c = shortCode (url r) ->
  UrlService.getUrlByShortCode c false now' st'
  = (Some (populate (users st') (url r)), st')
  /\ Redirect.handleRedirect c now' st'
     = Redirect.Found (Chars.trim (UrlData.originalUrl a))
  /\ Chars.trim (shortCode (url r)) = shortCode (url r)
  /\ ((forall u, UrlData.userId a = Some u -> is_Some (users st !! u)) ->
      populate (users st') (url r) = url r)
  /\ (UrlData.expiresIn a = None ->
      forall t, URL_MODEL.isExpired t (url r) = false).
Proof.
  intros E En Hx Hc.
  destruct (createUrl_new_inv env a now st r st' E En)
    as (code & Hdoc & Hurls & _ & _ & Hfree & _ & Hw).
  assert (Hres : UrlService.getUrlByShortCode c false now' st'
                 = (Some (populate (users st') (url r)), st')).
  { unfold UrlService.getUrlByShortCode. rewrite Hurls.
    rewrite (findOne_app_new _ _ (url r)).
    - rewrite Hx. reflexivity.
    - destruct (UrlService.findOne _ (urls st)) as [e|] eqn:Ef;
        [| reflexivity].
      apply findOne_In in Ef as [Hin Hq].
      apply q_active_code_true in Hq as [Hq _].
      exfalso. apply (Hfree e Hin). rewrite <- Hc. exact Hq.
    - apply q_active_code_true. split; [left; symmetry; exact Hc |].
      rewrite Hdoc. reflexivity. }
  split; [exact Hres |]. split; [| split; [| split]].
  - unfold Redirect.handleRedirect. rewrite Hres. simpl.
    destruct (populate_fields (users st') (url r)) as (_ & -> & _).
    rewrite Hdoc. reflexivity.
  - apply trim_well_formed. exact Hw.
  - apply (populate_new env a now st r st' E En).
  - intros He t. rewrite Hdoc. unfold URL_MODEL.isExpired. simpl.
    rewrite He. reflexivity.
Qed.

Lemma createUrl_then_redirect_witness :
  let a := Demo.args "https://new.example " (Some "fresh-1") (Some 1%nat) in
  Redirect.handleRedirect " fresh-1" 99
    (UrlService.createUrl Demo.env a 7 Demo.launch_state).2
  = Redirect.Found "https://new.example".
Proof.
  intros a.
  destruct (UrlService.createUrl Demo.env a 7 Demo.launch_state)
    as [[e|r] st'] eqn:E; [vm_compute in E; discriminate |].
  assert (Hr : isNew r = true /\ Chars.trim " fresh-1" = shortCode (url r)
               /\ URL_MODEL.isExpired 99 (url r) = false).
  { vm_compute in E. injection E as <- _. repeat split. }
  destruct Hr as (Hn & Hs & Hx).
  destruct (createUrl_then_redirect Demo.env a 7 99 _ _ r " fresh-1" E Hn Hx Hs)
    as (_ & H & _).
  exact H.
Defined.

Lemma active_count_snoc v ls d :
  active_count v (ls ++ [d])
  = (active_count v ls + if UrlService.q_active_of v d then 1 else 0)%nat.
Proof.
  unfold active_count, UrlService.countDocuments.
  rewrite List.filter_app, length_app. simpl.
  destruct (UrlService.q_active_of v d); reflexivity.
Qed.

(** X6. [createUrl] never takes a user beyond 20 active Links: whoever had
    at most 20 before has at most 20 afterwards, whatever the request and
    its outcome. A user already at 20 gets no further active Link. *)
Theorem createUrl_respects_limit (env : Env) (a : UrlData.t) (now : Z)
  (st : State) (v : nat) :
  (active_count v (urls st) <= 20)%nat ->
  (active_count v (urls (UrlService.createUrl env a now st).2) <= 20)%nat
  /\ ((20 <= active_count v (urls st))%nat ->
      active_count v (urls (UrlService.createUrl env a now st).2)
      = active_count v (urls st)).
Proof.
  intros Hle.
  destruct (UrlService.createUrl env a now st) as [[e|r] st'] eqn:E; simpl.
  - apply createUrl_err_inv in E as [-> _]. auto.
  - destruct (isNew r) eqn:En.
    + destruct (createUrl_new_inv env a now st r st' E En)
        as (code & Hdoc & -> & _ & Ho & _).
      rewrite active_count_snoc.
      destruct (UrlService.q_active_of v (url r)) eqn:Eq;
        [| rewrite Nat.add_0_r; auto].
      unfold UrlService.q_active_of in Eq.
      apply andb_true_iff in Eq as [Eq _]. apply bool_decide_eq_true in Eq.
      rewrite Hdoc in Eq. simpl in Eq. rewrite Eq in Ho.
      apply over_limit_false in Ho. fold (active_count v (urls st)) in Ho.
      split; lia.
    + apply createUrl_ok_inv in E as (_ & _ & _ & [(_ & -> & _)|(H & _)]);
        [auto | congruence].
Qed.

Lemma createUrl_respects_limit_witness :
  let a := Demo.args "https://fresh.example" None (Some 1%nat) in
  active_count 1 (urls Demo.full_state) = 20%nat
  /\ active_count 1
       (urls (UrlService.createUrl Demo.env a 7 Demo.full_state).2) = 20%nat.
Proof.
  intros a.
  assert (H : active_count 1 (urls Demo.full_state) = 20%nat)
    by reflexivity.
  split; [exact H |].
  destruct (createUrl_respects_limit Demo.env a 7 Demo.full_state 1)
    as [_ Heq]; [rewrite H; lia |].
  rewrite Heq; [exact H | rewrite H; lia].
Defined.

(** X7. An anonymous [createUrl] (no [userId]) never reads or changes the
    users, is never answered with an existing Link and is not subject to
    the limit: every success is a new Link appended to the collection, so
    the same URL shortened twice yields two Links. *)
Theorem createUrl_anonymous (env : Env) (a : UrlData.t) (now : Z)
  (st : State) :
  UrlData.userId a = None ->
  users (UrlService.createUrl env a now st).2 = users st
  /\ (UrlService.createUrl env a now st).1 <> inl UrlLimitReached
  /\ forall r,
       (UrlService.createUrl env a now st).1 = inr r ->
       isNew r = true
       /\ userId (url r) = None
       /\ urls (UrlService.createUrl env a now st).2 = urls st ++ [url r].
Proof.
  intros Ha.
  destruct (UrlService.createUrl env a now st) as [[e|r] st'] eqn:E; simpl.
  - pose proof E as E'. apply createUrl_err_inv in E' as [_ ->].
    split; [reflexivity |]. split; [| intros r [=]].
    intros [= ->]. unfold UrlService.createUrl in E.
    rewrite Ha in E. simpl in E.
    destruct (negb _); [discriminate |].
    destruct (_ <? _)%nat; [discriminate |].
    unfold UrlService.existing_duplicate in E. rewrite Ha in E.
    destruct (UrlService.choose_code _ _ _ _) as [[e|code] r0] eqn:Ec.
    + injection E as -> _. unfold UrlService.choose_code in Ec.
      destruct (UrlService.truthy _).
      * destruct (negb _); [discriminate |].
        destruct (negb _); [discriminate |].
        destruct (UrlService.findOne _ _); discriminate.
      * unfold UrlService._generateUniqueShortCode in Ec.
        destruct (UrlService.generate_loop _ _ _ _) as [[?|] ?]; discriminate.
    + unfold UrlService.save_new in E.
      destruct (negb _); [discriminate |].
      destruct (negb _); discriminate.
  - pose proof E as E'.
    apply createUrl_ok_inv in E' as (_ & _ & _ & Hcase).
    unfold UrlService.existing_duplicate in Hcase. rewrite Ha in Hcase.
    destruct Hcase as [(_ & _ & [=] & _)|(Hn & _ & Hurls & Husers & code & Hd)].
    split; [exact Husers |]. split; [discriminate |].
    intros r0 [= <-]. split; [exact Hn |].
    split; [rewrite Hd; exact Ha | exact Hurls].
Qed.

Lemma createUrl_anonymous_witness :
  let a := Demo.args "https://example.com" None None in
  let st1 := (UrlService.createUrl Demo.env a 7 Demo.launch_state).2 in
  let st2 := (UrlService.createUrl Demo.env a 8 st1).2 in
  users st2 = users Demo.launch_state
  /\ List.map originalUrl (urls st2)
     = ["https://example.com"; "https://example.com"; "https://example.com"].
Proof.
  intros a st1 st2. split; [| reflexivity].
  destruct (createUrl_anonymous Demo.env a 8 st1 eq_refl) as [H2 _].
  destruct (createUrl_anonymous Demo.env a 7 Demo.launch_state eq_refl)
    as [H1 _].
  unfold st2. rewrite H2. exact H1.
Defined.

(** ** Bulk creation, as a whole *)

Lemma createUrl_codes_unique_step env a now st :
  codes_unique (urls st) ->
  codes_unique (urls (UrlService.createUrl env a now st).2).
Proof.
  intros Hu.
  destruct (createUrl_urls_cases env a now st) as [->|(r & E & En & ->)];
    [exact Hu |].
  destruct (UrlService.createUrl env a now st) as [res st'] eqn:Ec.
  simpl in E. subst res.
  destruct (createUrl_new_inv env a now st r st' Ec En)
    as (code & Hdoc & _ & _ & _ & Hfree & Halias & _).
  assert (Hsc : shortCode (url r) = Chars.trim code)
    by (rewrite Hdoc; reflexivity).
  apply (codes_unique_snoc _ _ (Chars.trim code));
    [exact Hu | | rewrite <- Hsc; exact Hfree].
  intros c. rewrite Hsc in Halias. rewrite Hdoc in *.
  apply new_doc_codes. exact Halias.
Qed.

Lemma createUrl_limit_step env a now st v :
  (active_count v (urls st) <= 20)%nat ->
  (active_count v (urls (UrlService.createUrl env a now st).2) <= 20)%nat.
Proof.
  intros Hle.
  destruct (createUrl_urls_cases env a now st) as [->|(r & E & En & ->)];
    [exact Hle |].
  destruct (UrlService.createUrl env a now st) as [res st'] eqn:Ec.
  simpl in E. subst res.
  destruct (createUrl_new_inv env a now st r st' Ec En)
    as (code & Hdoc & _ & _ & Ho & _).
  rewrite active_count_snoc.
  destruct (UrlService.q_active_of v (url r)) eqn:Eq; [| lia].
  unfold UrlService.q_active_of in Eq.
  apply andb_true_iff in Eq as [Eq _]. apply bool_decide_eq_true in Eq.
  rewrite Hdoc in Eq. simpl in Eq. rewrite Eq in Ho.
  apply over_limit_false in Ho. fold (active_count v (urls st)) in Ho. lia.
Qed.

(** A property of the collection that each [createUrl] keeps is kept by the
    loop of [bulkCreateUrls]. *)
Lemma bulk_loop_urls_inv env (P : list Link -> Prop) :
  (forall a now st, P (urls st) ->
                    P (urls (UrlService.createUrl env a now st).2)) ->
  forall items i u o nowAt res st,
    P (urls st) ->
    P (urls (UrlService.bulk_loop env items i u o nowAt res st).2).
Proof.
  intros Hstep. induction items as [|[urlData|] rest IH];
    intros i u o nowAt res st HP; simpl; [exact HP | | exact HP].
  destruct (if Bulk.skipDuplicates o then _ else _); [apply IH; exact HP |].
  match goal with
  | |- context [UrlService.createUrl env ?a ?n st] =>
      pose proof (Hstep a n st HP) as H1;
      destruct (UrlService.createUrl env a n st) as [[e|r] st1]
  end; simpl in H1.
  - destruct (Bulk.stopOnError o); [exact H1 | apply IH; exact H1].
  - apply IH. exact H1.
Qed.

Lemma bulkCreateUrls_urls env urlsData u o nowAt st :
  urls (UrlService.bulkCreateUrls env urlsData u o nowAt st).2 = urls st
  \/ urls (UrlService.bulkCreateUrls env urlsData u o nowAt st).2
     = urls (UrlService.bulk_loop env urlsData 0 u o nowAt Bulk.empty st).2.
Proof.
  unfold UrlService.bulkCreateUrls.
  destruct (_ =? _)%nat; [left; reflexivity |].
  destruct (_ <? _)%nat; [left; reflexivity |].
  destruct (UrlService.bulk_loop _ _ _ _ _ _ _ _) as [[e|res] st'];
    [right; reflexivity |].
  destruct (_ <? _)%nat; right; reflexivity.
Qed.

(** X8. [bulkCreateUrls] keeps what [createUrl] keeps: after a bulk
    creation no two Links share a code if none did before, and a user who
    had at most 20 active Links still has at most 20, however many entries
    the request holds. *)
Theorem bulkCreateUrls_keeps_invariants (env : Env)
  (urlsData : list (option UrlData.t)) (u : nat) (o : Bulk.Options)
  (nowAt : nat -> Z) (st : State) :
  let st' := (UrlService.bulkCreateUrls env urlsData u o nowAt st).2 in
  (codes_unique (urls st) -> codes_unique (urls st'))
  /\ (forall v, (active_count v (urls st) <= 20)%nat ->
                (active_count v (urls st') <= 20)%nat).
Proof.
  intros st'. subst st'.
  destruct (bulkCreateUrls_urls env urlsData u o nowAt st) as [->| ->].
  - auto.
  - split.
    + apply (bulk_loop_urls_inv env codes_unique).
      apply createUrl_codes_unique_step.
    + intros v.
      apply (bulk_loop_urls_inv env
               (fun ls => (active_count v ls <= 20)%nat)).
      intros a now st0. apply createUrl_limit_step.
Qed.

Lemma bulkCreateUrls_keeps_invariants_witness :
  let items :=
    List.map (fun i => Some (Demo.args ("https://bulk.example/" +:+ pretty i)
                               None None)) (seq 0 30) in
  let st' := (UrlService.bulkCreateUrls Demo.env items 1
                (Demo.bulk_opts true) (fun i => Z.of_nat i)
                Demo.empty_state).2 in
  (active_count 1 (urls st') <= 20)%nat /\ length (urls st') = 20%nat.
Proof.
  intros items st'. split; [| reflexivity].
  apply (bulkCreateUrls_keeps_invariants Demo.env items 1
           (Demo.bulk_opts true) (fun i => Z.of_nat i) Demo.empty_state).
  vm_compute. lia.
Defined.

Lemma bulk_loop_accounting env items : forall i u o nowAt res st res' st',
  let done r := (Bulk.successCount r + Bulk.errorCount r
                 + Bulk.skippedCount r)%nat in
  UrlService.bulk_loop env items i u o nowAt res st = (inr res', st') ->
  Bulk.successCount res = length (Bulk.successful res) ->
  Bulk.errorCount res = length (Bulk.failed res) ->
  Bulk.skippedCount res = length (Bulk.skipped res) ->
  Bulk.totalProcessed res = done res ->
  Bulk.successCount res' = length (Bulk.successful res')
  /\ Bulk.errorCount res' = length (Bulk.failed res')
  /\ Bulk.skippedCount res' = length (Bulk.skipped res')
  /\ Bulk.totalProcessed res' = done res'
  /\ (Bulk.totalProcessed res' <= Bulk.totalProcessed res + length items)%nat
  /\ (Bulk.stopOnError o = false ->
      Bulk.totalProcessed res'
      = (Bulk.totalProcessed res + length items)%nat)
  /\ (Bulk.stopOnError o = true ->
      (Bulk.errorCount res' <= Bulk.errorCount res + 1)%nat)
  /\ (Bulk.skipDuplicates o = false ->
      Bulk.skippedCount res' = Bulk.skippedCount res).
Proof.
  induction items as [|[urlData|] rest IH];
    intros i u o nowAt res st res' st';
    cbn zeta; simpl UrlService.bulk_loop.
  - intros [= <- <-]. intros. repeat split; auto; lia.
  - destruct res as [succ fl sk tp sc ec skc].
    cbn [Bulk.successful Bulk.failed Bulk.skipped Bulk.totalProcessed
         Bulk.successCount Bulk.errorCount Bulk.skippedCount].
    intros Hloop H1 H2 H3 H4.
    assert (Hnext : forall res1 st1,
      UrlService.bulk_loop env rest (S i) u o nowAt res1 st1
      = (inr res', st') ->
      Bulk.successCount res1 = length (Bulk.successful res1) ->
      Bulk.errorCount res1 = length (Bulk.failed res1) ->
      Bulk.skippedCount res1 = length (Bulk.skipped res1) ->
      Bulk.totalProcessed res1
      = (Bulk.successCount res1 + Bulk.errorCount res1
         + Bulk.skippedCount res1)%nat ->
      Bulk.totalProcessed res1 = S tp ->
      (ec <= Bulk.errorCount res1)%nat ->
      (Bulk.stopOnError o = true -> Bulk.errorCount res1 = ec) ->
      (Bulk.skipDuplicates o = false -> Bulk.skippedCount res1 = skc) ->
      Bulk.successCount res' = length (Bulk.successful res')
      /\ Bulk.errorCount res' = length (Bulk.failed res')
      /\ Bulk.skippedCount res' = length (Bulk.skipped res')
      /\ Bulk.totalProcessed res'
         = (Bulk.successCount res' + Bulk.errorCount res'
            + Bulk.skippedCount res')%nat
      /\ (Bulk.totalProcessed res' <= tp + S (length rest))%nat
      /\ (Bulk.stopOnError o = false ->
          Bulk.totalProcessed res' = (tp + S (length rest))%nat)
      /\ (Bulk.stopOnError o = true ->
          (Bulk.errorCount res' <= ec + 1)%nat)
      /\ (Bulk.skipDuplicates o = false ->
          Bulk.skippedCount res' = skc)).
    { intros res1 st1 Hrec A1 A2 A3 A4 A5 A6 A7 A8.
      destruct (IH (S i) u o nowAt res1 st1 res' st' Hrec A1 A2 A3 A4)
        as (G1 & G2 & G3 & G4 & G5 & G6 & G7 & G8).
      split_and!; auto; try lia.
      - intros Hs. rewrite (G6 Hs). lia.
      - intros Hs. specialize (G7 Hs). specialize (A7 Hs). lia.
      - intros Hs. rewrite (G8 Hs). auto. }
    destruct (if Bulk.skipDuplicates o then _ else _) as [ex|] eqn:Efound.
    { apply (Hnext _ _ Hloop); simpl; rewrite ?length_app; simpl; try lia.
      destruct (Bulk.skipDuplicates o); [discriminate | discriminate]. }
    match type of Hloop with
    | context [UrlService.createUrl env ?a ?n st] =>
        destruct (UrlService.createUrl env a n st) as [[e|r] st1]
    end.
    + destruct (Bulk.stopOnError o) eqn:Est.
      * injection Hloop as <- <-. simpl. rewrite !length_app. simpl.
        split_and!; try lia; try discriminate; auto.
      * apply (Hnext _ _ Hloop); simpl; rewrite ?length_app; simpl; try lia;
          try discriminate; auto.
    + apply (Hnext _ _ Hloop); simpl; rewrite ?length_app; simpl; try lia;
        auto.
  - discriminate.
Qed.

(** The loop returns results when no entry is [null]. *)
Lemma bulk_loop_returns env items : forall i u o nowAt res st,
  Forall is_Some items ->
  exists res' st',
    UrlService.bulk_loop env items i u o nowAt res st = (inr res', st').
Proof.
  induction items as [|[urlData|] rest IH]; intros i u o nowAt res st Hall;
    simpl.
  - eauto.
  - apply Forall_cons in Hall as [_ Hall].
    destruct (if Bulk.skipDuplicates o then _ else _); [apply IH; exact Hall |].
    match goal with
    | |- context [UrlService.createUrl env ?a ?n st] =>
        destruct (UrlService.createUrl env a n st) as [[e|r] st1]
    end.
    + destruct (Bulk.stopOnError o); [eauto | apply IH; exact Hall].
    + apply IH. exact Hall.
  - apply Forall_cons in Hall as [[x Hx] _]. discriminate.
Qed.

(** When the loop fails it has reached a [null] entry, and the state is the
    one in which the entries before it have left the collection. *)
Lemma bulk_loop_fails env items : forall i u o nowAt res st e st',
  UrlService.bulk_loop env items i u o nowAt res st = (inl e, st') ->
  e = NullEntry
  /\ exists k res',
       items !! k = Some None
       /\ UrlService.bulk_loop env (take k items) i u o nowAt res st
          = (inr res', st')
       /\ Bulk.totalProcessed res' = (Bulk.totalProcessed res + k)%nat.
Proof.
  induction items as [|[urlData|] rest IH]; intros i u o nowAt res st e st';
    simpl.
  - discriminate.
  - assert (Hnext : forall res1 st1,
      Bulk.totalProcessed res1 = S (Bulk.totalProcessed res) ->
      UrlService.bulk_loop env rest (S i) u o nowAt res1 st1 = (inl e, st') ->
      e = NullEntry
      /\ exists k res',
           rest !! k = Some None
           /\ UrlService.bulk_loop env (take k rest) (S i) u o nowAt res1 st1
              = (inr res', st')
           /\ Bulk.totalProcessed res'
              = (Bulk.totalProcessed res + S k)%nat).
    { intros res1 st1 Htp Hrec.
      destruct (IH _ _ _ _ _ _ _ _ Hrec) as (-> & k & res' & Hk & Hrun & Ht).
      split; [reflexivity |]. exists k, res'.
      split; [exact Hk |]. split; [exact Hrun | lia]. }
    destruct (if Bulk.skipDuplicates o then _ else _) as [ex|] eqn:Efound.
    { intros Hrec. apply Hnext in Hrec; [| reflexivity].
      destruct Hrec as (-> & k & res' & Hk & Hrun & Ht).
      split; [reflexivity |]. exists (S k), res'.
      split; [exact Hk |]. simpl. rewrite Efound.
      split; [exact Hrun | exact Ht]. }
    match goal with
    | |- context [UrlService.createUrl env ?a ?n st] =>
        destruct (UrlService.createUrl env a n st) as [[e1|r] st1] eqn:Ec
    end.
    + destruct (Bulk.stopOnError o) eqn:Est; [discriminate |].
      intros Hrec. apply Hnext in Hrec; [| reflexivity].
      destruct Hrec as (-> & k & res' & Hk & Hrun & Ht).
      split; [reflexivity |]. exists (S k), res'.
      split; [exact Hk |]. simpl. rewrite Efound, Ec, Est.
      split; [exact Hrun | exact Ht].
    + intros Hrec. apply Hnext in Hrec; [| reflexivity].
      destruct Hrec as (-> & k & res' & Hk & Hrun & Ht).
      split; [reflexivity |]. exists (S k), res'.
      split; [exact Hk |]. simpl. rewrite Efound, Ec.
      split; [exact Hrun | exact Ht].
  - intros [= <- <-]. split; [reflexivity |]. exists 0%nat, res.
    split; [reflexivity |]. split; [reflexivity | lia].
Qed.

(** A [null] entry fails the loop unless [stopOnError] has ended it
    before. *)
Lemma bulk_loop_null env items : forall i u o nowAt res st,
  Bulk.stopOnError o = false ->
  In None items ->
  exists st', UrlService.bulk_loop env items i u o nowAt res st
              = (inl NullEntry, st').
Proof.
  induction items as [|[urlData|] rest IH]; intros i u o nowAt res st Hs Hin;
    simpl.
  - destruct Hin.
  - destruct Hin as [Hin|Hin]; [discriminate |].
    destruct (if Bulk.skipDuplicates o then _ else _);
      [apply IH; assumption |].
    match goal with
    | |- context [UrlService.createUrl env ?a ?n st] =>
        destruct (UrlService.createUrl env a n st) as [[e|r] st1]
    end.
    + rewrite Hs. apply IH; assumption.
    + apply IH; assumption.
  - eauto.
Qed.

(** X9. [bulkCreateUrls] rejects an empty list and a list of more than 100
    entries without touching the state. When it returns results, every
    entry handled is counted exactly once as created, failed or skipped:
    the three counters are the lengths of the three lists and add up to
    [totalProcessed], which is the length of the request unless
    [stopOnError] cut the loop short at its first failure; without
    [skipDuplicates] nothing is skipped. It returns results whenever the
    request has 1 to 100 entries, none of them [null]: an entry that fails
    does not fail the batch. A [null] entry does: the call then fails as a
    whole, with the error of reading [originalUrl] from [null], and leaves
    the collection as the entries before the [null] have made it. *)
Theorem bulkCreateUrls_accounting (env : Env)
  (urlsData : list (option UrlData.t)) (u : nat) (o : Bulk.Options)
  (nowAt : nat -> Z) (st : State) :
  (urlsData = [] ->
   UrlService.bulkCreateUrls env urlsData u o nowAt st
   = (inl UrlsArrayRequired, st))
  /\ ((100 < length urlsData)%nat ->
      UrlService.bulkCreateUrls env urlsData u o nowAt st
      = (inl TooManyUrls, st))
  /\ (forall res st',
        UrlService.bulkCreateUrls env urlsData u o nowAt st = (inr res, st') ->
        Bulk.successCount res = length (Bulk.successful res)
        /\ Bulk.errorCount res = length (Bulk.failed res)
        /\ Bulk.skippedCount res = length (Bulk.skipped res)
        /\ Bulk.totalProcessed res
           = (Bulk.successCount res + Bulk.errorCount res
              + Bulk.skippedCount res)%nat
        /\ (Bulk.totalProcessed res <= length urlsData)%nat
        /\ (Bulk.stopOnError o = false ->
            Bulk.totalProcessed res = length urlsData)
        /\ (Bulk.stopOnError o = true -> (Bulk.errorCount res <= 1)%nat)
        /\ (Bulk.skipDuplicates o = false -> Bulk.skipped res = []))
  /\ (urlsData <> [] -> (length urlsData <= 100)%nat ->
      Forall is_Some urlsData ->
      exists res st',
        UrlService.bulkCreateUrls env urlsData u o nowAt st = (inr res, st'))
  /\ (urlsData <> [] -> (length urlsData <= 100)%nat ->
      forall e st',
        UrlService.bulkCreateUrls env urlsData u o nowAt st = (inl e, st') ->
        e = NullEntry
        /\ exists k res,
             urlsData !! k = Some None
             /\ UrlService.bulk_loop env (take k urlsData) 0 u o nowAt
                  Bulk.empty st = (inr res, st')
             /\ Bulk.totalProcessed res = k)
  /\ (urlsData <> [] -> (length urlsData <= 100)%nat ->
      Bulk.stopOnError o = false -> In None urlsData ->
      exists st',
        UrlService.bulkCreateUrls env urlsData u o nowAt st
        = (inl NullEntry, st')).
Proof.
  unfold UrlService.bulkCreateUrls.
  split; [intros ->; reflexivity |].
  split.
  { intros Hlen.
    destruct (Nat.eqb_spec (length urlsData) 0) as [E|E]; [lia |].
    destruct (Nat.ltb_spec 100 (length urlsData)); [reflexivity | lia]. }
  split.
  { intros res st'.
    destruct (Nat.eqb_spec (length urlsData) 0) as [E|E]; [discriminate |].
    destruct (Nat.ltb_spec 100 (length urlsData)); [discriminate |].
    destruct (UrlService.bulk_loop env urlsData 0 u o nowAt Bulk.empty st)
      as [[e|res0] st0] eqn:Eloop; [discriminate |].
    intros Hrun.
    assert (res = res0) as ->
      by (destruct (_ <? _)%nat; congruence).
    destruct (bulk_loop_accounting env urlsData 0 u o nowAt Bulk.empty st
                res0 st0 Eloop eq_refl eq_refl eq_refl eq_refl)
      as (G1 & G2 & G3 & G4 & G5 & G6 & G7 & G8).
    simpl in G5, G6, G7, G8. split_and!; auto.
    intros Hs. specialize (G8 Hs). rewrite G3 in G8.
    apply length_zero_iff_nil. exact G8. }
  assert (Hpast : urlsData <> [] -> (length urlsData <= 100)%nat ->
            (length urlsData =? 0)%nat = false
            /\ (100 <? length urlsData)%nat = false).
  { intros Hne Hlen. split; [apply Nat.eqb_neq | apply Nat.ltb_ge; exact Hlen].
    destruct urlsData; [contradiction | discriminate]. }
  split; [| split].
  - intros Hne Hlen Hall. destruct (Hpast Hne Hlen) as [E1 E2].
    rewrite E1, E2.
    destruct (bulk_loop_returns env urlsData 0 u o nowAt Bulk.empty st Hall)
      as (res & st' & ->).
    destruct (0 <? Bulk.successCount res)%nat; eexists _, _; reflexivity.
  - intros Hne Hlen e st'. destruct (Hpast Hne Hlen) as [E1 E2].
    rewrite E1, E2.
    destruct (UrlService.bulk_loop env urlsData 0 u o nowAt Bulk.empty st)
      as [[e0|res0] st0] eqn:Eloop.
    + intros [= <- <-]. apply bulk_loop_fails in Eloop. exact Eloop.
    + destruct (0 <? Bulk.successCount res0)%nat; discriminate.
  - intros Hne Hlen Hs Hin. destruct (Hpast Hne Hlen) as [E1 E2].
    rewrite E1, E2.
    destruct (bulk_loop_null env urlsData 0 u o nowAt Bulk.empty st Hs Hin)
      as [st' ->].
    eauto.
Qed.

Lemma bulkCreateUrls_accounting_witness :
  let items := [Some (Demo.args "https://valid.example" None None);
                Some (Demo.args "invalid-url" None None);
                Some (Demo.args "https://example.com" None None);
                Some (Demo.args "https://another.example" None None)] in
  let broken := [Some (Demo.args "https://valid.example" None None); None] in
  (exists res st',
     UrlService.bulkCreateUrls Demo.env items 1 (Demo.bulk_opts true)
       (fun i => Z.of_nat i) Demo.launch_state = (inr res, st')
     /\ Bulk.totalProcessed res = 4%nat
     /\ (Bulk.successCount res, Bulk.errorCount res, Bulk.skippedCount res)
        = (2%nat, 1%nat, 1%nat))
  /\ exists st',
       UrlService.bulkCreateUrls Demo.env broken 1 (Demo.bulk_opts true)
         (fun i => Z.of_nat i) Demo.launch_state = (inl NullEntry, st')
       /\ length (urls st') = 2%nat.
Proof.
  intros items broken. split.
  - destruct (bulkCreateUrls_accounting Demo.env items 1 (Demo.bulk_opts true)
                (fun i => Z.of_nat i) Demo.launch_state)
      as (_ & _ & Hacc & Hret & _).
    destruct Hret as (res & st' & Hres).
    + discriminate.
    + simpl. lia.
    + repeat constructor; eauto.
    + exists res, st'. split; [exact Hres |].
      destruct (Hacc res st' Hres) as (_ & _ & _ & _ & _ & Htot & _).
      split; [apply Htot; reflexivity |].
      vm_compute in Hres. injection Hres as <- _. reflexivity.
  - destruct (bulkCreateUrls_accounting Demo.env broken 1
                (Demo.bulk_opts true) (fun i => Z.of_nat i)
                Demo.launch_state) as (_ & _ & _ & _ & _ & Hnull).
    destruct Hnull as [st' Hrun].
    + discriminate.
    + simpl. lia.
    + reflexivity.
    + right. left. reflexivity.
    + exists st'. split; [exact Hrun |].
      vm_compute in Hrun. injection Hrun as <-. reflexivity.
Defined.

(** ** Ownership: delete, toggle, update *)

Lemma q_owned_true id u l :
  UrlService.q_owned id u l = true <-> _id l = id /\ userId l = Some u.
Proof.
  unfold UrlService.q_owned.
  rewrite andb_true_iff, !bool_decide_eq_true. tauto.
Qed.

Lemma findOne_None q ls :
  UrlService.findOne q ls = None <-> forall l, In l ls -> q l = false.
Proof.
  split; [apply find_none |].
  intros H. destruct (UrlService.findOne q ls) as [e|] eqn:E; [| reflexivity].
  apply findOne_In in E as [Hin Hq]. rewrite (H e Hin) in Hq. discriminate.
Qed.

Lemma delete_first_spec q ls e :
  UrlService.findOne q ls = Some e ->
  exists l1 l2,
    ls = l1 ++ e :: l2 /\ UrlService.delete_first q ls = l1 ++ l2
    /\ forall x, In x l1 -> q x = false.
Proof.
  unfold UrlService.findOne. induction ls as [|x ls IH]; simpl; [discriminate |].
  destruct (q x) eqn:Eq.
  - intros [= ->]. exists [], ls. simpl. split; [reflexivity |].
    split; [reflexivity | intros ? []].
  - intros H. destruct (IH H) as (l1 & l2 & -> & -> & Hb).
    exists (x :: l1), l2. simpl. split; [reflexivity |].
    split; [reflexivity |]. intros y [<-|Hy]; auto.
Qed.

Lemma others_of_app u l1 l2 :
  others_of u (l1 ++ l2) = others_of u l1 ++ others_of u l2.
Proof. apply List.filter_app. Qed.

(** X10. [deleteUrl] is for the owner only. When no Link has the given id
    and the caller as owner, be it that the Link is missing or belongs to
    someone else, it fails with one and the same error and changes nothing.
    Otherwise it removes exactly one Link, which has that id and that
    owner: every other Link stays, in its place, the Links of other users
    are untouched, and the owner's [urlCount] goes down by one. *)
Theorem deleteUrl_owner_only (urlId u : nat) (hard : bool) (st : State) :
  ((forall l, In l (urls st) -> ~ (_id l = urlId /\ userId l = Some u)) ->
   UrlService.deleteUrl urlId u hard st = (inl DeleteNotFound, st))
  /\ (forall l, In l (urls st) -> _id l = urlId -> userId l = Some u ->
      exists e l1 l2,
        _id e = urlId /\ userId e = Some u
        /\ urls st = l1 ++ e :: l2
        /\ UrlService.deleteUrl urlId u hard st
           = (inr true,
              mkState (l1 ++ l2)
                (alter (inc_urlCount (-1)) u (users st)) (nextId st)
                (rng st))
        /\ others_of u (l1 ++ l2) = others_of u (urls st)).
Proof.
  unfold UrlService.deleteUrl. split.
  - intros Hnone.
    assert (E : UrlService.findOne (UrlService.q_owned urlId u) (urls st)
                = None).
    { apply findOne_None. intros l Hin. apply not_true_iff_false.
      intros Hq. apply q_owned_true in Hq. exact (Hnone l Hin Hq). }
    rewrite E. reflexivity.
  - intros l Hin Hid Hown.
    destruct (findOne_is_Some (UrlService.q_owned urlId u) (urls st) l Hin)
      as [e He]; [apply q_owned_true; auto |].
    rewrite He.
    destruct (delete_first_spec _ _ _ He) as (l1 & l2 & Hls & Hdel & _).
    apply findOne_In in He as [_ Hq]. apply q_owned_true in Hq as [? Hue].
    exists e, l1, l2. split; [assumption |]. split; [assumption |].
    split; [exact Hls |]. split; [rewrite Hdel; reflexivity |].
    rewrite Hls, !others_of_app. f_equal. unfold others_of. simpl.
    rewrite Hue. destruct (bool_decide_reflect (Some u = Some u));
      [reflexivity | contradiction].
Qed.

Lemma deleteUrl_owner_only_witness :
  UrlService.deleteUrl 12 Sample.alice false Sample.state
  = (inl DeleteNotFound, Sample.state)
  /\ List.map _id (urls (UrlService.deleteUrl 11 Sample.alice false
                           Sample.state).2)
     = [10; 12; 13]%nat.
Proof.
  split; [| reflexivity].
  apply (deleteUrl_owner_only 12 Sample.alice false Sample.state).
  intros l Hin [Hid Hown].
  repeat (destruct Hin as [<-|Hin]; [vm_compute in Hid, Hown; congruence |]).
  destruct Hin.
Defined.

Lemma ids_unique_split ls e l1 l2 :
  ids_unique ls -> ls = l1 ++ e :: l2 ->
  (forall x, In x l1 -> _id x <> _id e)
  /\ (forall x, In x l2 -> _id x <> _id e).
Proof.
  unfold ids_unique. intros Hnd ->.
  rewrite List.map_app in Hnd. simpl in Hnd.
  apply NoDup_app in Hnd as (_ & Hdisj & Hnd2).
  apply NoDup_cons in Hnd2 as [Hnotin _].
  split.
  - intros x Hx Heq. apply (Hdisj (_id x)).
    + apply list_elem_of_In, in_map. exact Hx.
    + rewrite Heq. left.
  - intros x Hx Heq. apply Hnotin. rewrite <- Heq.
    apply list_elem_of_In, in_map. exact Hx.
Qed.

Lemma save_existing_at d e l1 l2 :
  (forall x, In x l1 -> _id x <> _id d) -> _id e = _id d ->
  UrlService.save_existing d (l1 ++ e :: l2) = l1 ++ d :: l2.
Proof.
  intros Hb He. induction l1 as [|x l1 IH]; simpl.
  - destruct (bool_decide_reflect (_id e = _id d)); [reflexivity | contradiction].
  - destruct (bool_decide_reflect (_id x = _id d)) as [E|E].
    + exfalso. apply (Hb x); [left; reflexivity | exact E].
    + f_equal. apply IH. intros y Hy. apply Hb. right. exact Hy.
Qed.

Lemma findOne_at q e l1 l2 :
  (forall x, In x l1 -> q x = false) -> q e = true ->
  UrlService.findOne q (l1 ++ e :: l2) = Some e.
Proof.
  intros Hb He. unfold UrlService.findOne.
  induction l1 as [|x l1 IH]; simpl.
  - rewrite He. reflexivity.
  - rewrite (Hb x (or_introl eq_refl)). apply IH.
    intros y Hy. apply Hb. right. exact Hy.
Qed.

Lemma findOne_split q ls e :
  UrlService.findOne q ls = Some e ->
  exists l1 l2, ls = l1 ++ e :: l2 /\ forall x, In x l1 -> q x = false.
Proof.
  intros H. destruct (delete_first_spec q ls e H) as (l1 & l2 & ? & _ & ?).
  eauto.
Qed.

Lemma set_isActive_twice l :
  set_isActive (negb (isActive (set_isActive (negb (isActive l)) l)))
    (set_isActive (negb (isActive l)) l) = l.
Proof. destruct l. simpl. rewrite negb_involutive. reflexivity. Qed.

(** What a successful [toggleUrlStatus] has done, for unique ids. *)
Lemma toggleUrlStatus_inv urlId u st t st1 :
  ids_unique (urls st) ->
  UrlService.toggleUrlStatus urlId u st = (inr t, st1) ->
  exists l0 l1 l2,
    _id l0 = urlId /\ userId l0 = Some u
    /\ t = set_isActive (negb (isActive l0)) l0
    /\ urls st = l1 ++ l0 :: l2
    /\ st1 = mkState (l1 ++ t :: l2) (users st) (nextId st) (rng st)
    /\ (forall x, In x l1 -> _id x <> urlId)
    /\ (forall x, In x l2 -> _id x <> urlId).
Proof.
  intros Hids. unfold UrlService.toggleUrlStatus.
  destruct (UrlService.findOne _ _) as [l0|] eqn:Ef; [| discriminate].
  intros [= <- <-].
  destruct (findOne_split _ _ _ Ef) as (l1 & l2 & Hls & _).
  apply findOne_In in Ef as [_ Hq]. apply q_owned_true in Hq as [Hid Hown].
  destruct (ids_unique_split _ _ _ _ Hids Hls) as [H1 H2].
  rewrite Hid in H1, H2.
  exists l0, l1, l2. repeat (split; [solve [auto] |]).
  split; [| auto].
  rewrite Hls. f_equal.
  apply save_existing_at; [| reflexivity].
  simpl. intros x Hx. rewrite Hid. apply H1. exact Hx.
Qed.

(** X11. With unique ids, [toggleUrlStatus] flips [isActive] of the one Link
    that has the id and the caller as owner and changes nothing else, and
    toggling a second time gives back the first state and the first Link:
    the operation is its own inverse. *)
Theorem toggleUrlStatus_involution (urlId u : nat) (st st1 : State)
  (t : Link) :
  ids_unique (urls st) ->
  UrlService.toggleUrlStatus urlId u st = (inr t, st1) ->
  exists l0,
    In l0 (urls st) /\ _id l0 = urlId /\ userId l0 = Some u
    /\ t = set_isActive (negb (isActive l0)) l0
    /\ List.map _id (urls st1) = List.map _id (urls st)
    /\ users st1 = users st
    /\ UrlService.toggleUrlStatus urlId u st1 = (inr l0, st).
Proof.
  intros Hids Ht.
  destruct (toggleUrlStatus_inv urlId u st t st1 Hids Ht)
    as (l0 & l1 & l2 & Hid & Hown & -> & Hls & -> & H1 & H2).
  exists l0. simpl.
  split; [rewrite Hls; apply in_or_app; right; left; reflexivity |].
  do 3 (split; [solve [auto] |]).
  split; [rewrite Hls, !List.map_app; reflexivity |].
  split; [reflexivity |].
  unfold UrlService.toggleUrlStatus. simpl.
  rewrite (findOne_at _ (set_isActive (negb (isActive l0)) l0)).
  - rewrite set_isActive_twice.
    rewrite save_existing_at;
      [| intros x Hx; rewrite Hid; apply H1; exact Hx | reflexivity].
    rewrite <- Hls, state_eta. reflexivity.
  - intros x Hx. apply not_true_iff_false. intros Hq.
    apply q_owned_true in Hq as [Hq _]. exact (H1 x Hx Hq).
  - apply q_owned_true. auto.
Qed.

Lemma sample_ids_unique : ids_unique (urls Sample.state).
Proof. unfold ids_unique. apply NoDup_ListNoDup. vm_compute.
  repeat constructor; simpl; intuition discriminate. Qed.

Lemma toggleUrlStatus_involution_witness :
  let st1 := (UrlService.toggleUrlStatus 11 Sample.alice Sample.state).2 in
  List.map isActive (urls st1) = [true; false; true; false]
  /\ (UrlService.toggleUrlStatus 11 Sample.alice st1).2 = Sample.state.
Proof.
  intros st1. split; [reflexivity |].
  destruct (UrlService.toggleUrlStatus 11 Sample.alice Sample.state)
    as [[e|t] st1'] eqn:E; [vm_compute in E; discriminate |].
  destruct (toggleUrlStatus_involution 11 Sample.alice Sample.state st1' t
              sample_ids_unique E) as (l0 & _ & _ & _ & _ & _ & _ & H).
  subst st1. simpl. rewrite H. reflexivity.
Defined.

Lemma codes_unique_split ls e l1 l2 c :
  codes_unique ls -> ls = l1 ++ e :: l2 -> code_of c e ->
  (forall x, In x l1 -> ~ code_of c x)
  /\ (forall x, In x l2 -> ~ code_of c x).
Proof.
  intros Hu -> Hc.
  assert (He : (l1 ++ e :: l2) !! length l1 = Some e).
  { rewrite lookup_app_r by lia. rewrite Nat.sub_diag. reflexivity. }
  split; intros x Hx Hcx.
  - apply list_elem_of_In, list_elem_of_lookup in Hx as [i Hi].
    pose proof (lookup_lt_Some _ _ _ Hi) as Hlt.
    assert (Hi' : (l1 ++ e :: l2) !! i = Some x)
      by (rewrite lookup_app_l by lia; exact Hi).
    pose proof (Hu _ _ _ _ c Hi' He Hcx Hc). lia.
  - apply list_elem_of_In, list_elem_of_lookup in Hx as [i Hi].
    assert (Hi' : (l1 ++ e :: l2) !! (length l1 + S i)%nat = Some x).
    { rewrite lookup_app_r by lia.
      replace (length l1 + S i - length l1)%nat with (S i) by lia.
      exact Hi. }
    pose proof (Hu _ _ _ _ c Hi' He Hcx Hc). lia.
Qed.

Lemma code_of_set_isActive c b l :
  code_of c (set_isActive b l) <-> code_of c l.
Proof. unfold code_of. destruct l. simpl. tauto. Qed.

Lemma findOne_none_around q l1 e l2 :
  (forall x, In x l1 -> q x = false) -> q e = false ->
  (forall x, In x l2 -> q x = false) ->
  UrlService.findOne q (l1 ++ e :: l2) = None.
Proof.
  intros H1 He H2. apply findOne_None. intros x Hx.
  apply in_app_or in Hx as [Hx|[<-|Hx]]; auto.
Qed.

(** X12. Deactivation through [toggleUrlStatus] is what makes a Link
    unreachable. With unique ids and codes, for a queried string that,
    trimmed, is the short code or the alias of the toggled Link: after
    toggling an active Link, [getUrlByShortCode] answers [null], at any
    time and without touching the state; after toggling an inactive Link it
    returns that Link, populated, as long as the Link has not expired, and
    the Link as it is when its owner is a user of the collection. *)
Theorem toggleUrlStatus_hides (urlId u : nat) (st st1 : State) (t : Link)
  (c : string) (now : Z) :
  ids_unique (urls st) ->
  codes_unique (urls st) ->
  UrlService.toggleUrlStatus urlId u st = (inr t, st1) ->
  code_of (Chars.trim c) t ->
  (isActive t = false ->
   forall incView, UrlService.getUrlByShortCode c incView now st1 = (None, st1))
  /\ (isActive t = true -> URL_MODEL.isExpired now t = false ->
      UrlService.getUrlByShortCode c false now st1
      = (Some (populate (users st1) t), st1)
      /\ (is_Some (users st !! u) ->
          UrlService.getUrlByShortCode c false now st1 = (Some t, st1))).
Proof.
  intros Hids Hcodes Ht Hc.
  destruct (toggleUrlStatus_inv urlId u st t st1 Hids Ht)
    as (l0 & l1 & l2 & Hid & Hown & -> & Hls & -> & _ & _).
  apply code_of_set_isActive in Hc as Hc0.
  destruct (codes_unique_split _ _ _ _ (Chars.trim c) Hcodes Hls Hc0)
    as [H1 H2].
  assert (Hq : forall x, ~ code_of (Chars.trim c) x ->
                         UrlService.q_active_code c x = false).
  { intros x Hx. apply not_true_iff_false. intros Hq.
    apply q_active_code_true in Hq as [Hq _]. exact (Hx Hq). }
  unfold UrlService.getUrlByShortCode. simpl urls. simpl users.
  split.
  - intros Hoff incView.
    rewrite findOne_none_around; [reflexivity | | |]; auto.
    apply not_true_iff_false. intros Hq'.
    apply q_active_code_true in Hq' as [_ Hq']. congruence.
  - intros Hon Hx.
    rewrite (findOne_at _ (set_isActive (negb (isActive l0)) l0)).
    + rewrite Hx. split; [reflexivity |]. intros Hex.
      rewrite (populate_known _ _ u); [reflexivity | exact Hown | exact Hex].
    + auto.
    + apply q_active_code_true. auto.
Qed.

Lemma sample_codes_unique : codes_unique (urls Sample.state).
Proof.
  intros i j l1 l2 c H1 H2 Hc1 Hc2.
  destruct i as [|[|[|[|i]]]]; simpl in H1; try discriminate H1;
    destruct j as [|[|[|[|j]]]]; simpl in H2; try discriminate H2;
    try reflexivity; exfalso;
    injection H1 as <-; injection H2 as <-;
    destruct Hc1 as [Hc1|Hc1], Hc2 as [Hc2|Hc2];
    simpl in Hc1, Hc2; congruence.
Qed.

Lemma toggleUrlStatus_hides_witness :
  let st1 := (UrlService.toggleUrlStatus 11 Sample.alice Sample.state).2 in
  UrlService.getUrlByShortCode "promo" false 100 Sample.state
  <> (None, Sample.state)
  /\ UrlService.getUrlByShortCode "promo" false 100 st1 = (None, st1).
Proof.
  intros st1. split; [vm_compute; discriminate |].
  destruct (UrlService.toggleUrlStatus 11 Sample.alice Sample.state)
    as [[e|t] st1'] eqn:E; [vm_compute in E; discriminate |].
  assert (Hc : code_of (Chars.trim "promo") t /\ isActive t = false).
  { vm_compute in E. injection E as <- _. split; [left |]; reflexivity. }
  destruct Hc as [Hc Hoff].
  destruct (toggleUrlStatus_hides 11 Sample.alice Sample.state st1' t
              "promo" 100 sample_ids_unique sample_codes_unique E Hc)
    as [H _].
  subst st1. apply H. exact Hoff.
Defined.

(** ** Bulk deletion *)

Lemma q_ids_owned_true ids u l :
  UrlService.q_ids_owned ids u l = true <->
  In (_id l) ids /\ userId l = Some u.
Proof.
  unfold UrlService.q_ids_owned.
  rewrite andb_true_iff, !bool_decide_eq_true, list_elem_of_In. tauto.
Qed.

Lemma others_of_filter_owned u (q : Link -> bool) ls :
  (forall l, q l = true -> userId l = Some u) ->
  others_of u (List.filter (fun l => negb (q l)) ls) = others_of u ls.
Proof.
  intros Hq. unfold others_of. induction ls as [|x ls IH]; simpl;
    [reflexivity |].
  destruct (q x) eqn:Eq; simpl.
  - rewrite (Hq x Eq).
    destruct (bool_decide_reflect (Some u = Some u)); [| contradiction].
    simpl. exact IH.
  - destruct (negb (bool_decide (userId x = Some u))); simpl; rewrite IH;
      reflexivity.
Qed.

Lemma ids_unique_filter (q : Link -> bool) ls :
  ids_unique ls -> ids_unique (List.filter q ls).
Proof.
  unfold ids_unique. induction ls as [|x l IH]; simpl; [auto |].
  intros Hnd. apply NoDup_cons in Hnd as [Hx Hnd].
  destruct (q x); simpl; [| auto].
  apply NoDup_cons. split; [| auto].
  intros Hin. apply Hx. apply list_elem_of_In in Hin.
  apply list_elem_of_In. apply in_map_iff in Hin as (y & Hy & Hf).
  apply filter_In in Hf as [Hf _]. apply in_map_iff. eauto.
Qed.

(** X13. [bulkDeleteUrls] rejects an empty list of ids. Otherwise it
    removes exactly the caller's Links whose id is in the list and nothing
    else: [deletedCount] is the number of Links gone, the Links of other
    users stay whatever ids are asked for, the caller's [urlCount] goes
    down by [deletedCount] and no other user's counter moves. With unique
    ids, [deletedCount] never exceeds [requestedCount]. *)
Theorem bulkDeleteUrls_owner_only (urlIds : list nat) (u : nat) (st : State) :
  (urlIds = [] ->
   UrlService.bulkDeleteUrls urlIds u st = (inl UrlIdsRequired, st))
  /\ (urlIds <> [] ->
      exists res st',
        UrlService.bulkDeleteUrls urlIds u st = (inr res, st')
        /\ UrlService.requestedCount res = length urlIds
        /\ (UrlService.deletedCount res + length (urls st'))%nat
           = length (urls st)
        /\ (UrlService.success res = true
            <-> (0 < UrlService.deletedCount res)%nat)
        /\ (forall l, In l (urls st') <->
                      In l (urls st)
                      /\ ~ (In (_id l) urlIds /\ userId l = Some u))
        /\ others_of u (urls st') = others_of u (urls st)
        /\ (forall usr, users st !! u = Some usr ->
              exists usr', users st' !! u = Some usr'
                /\ urlCount usr'
                   = urlCount usr - Z.of_nat (UrlService.deletedCount res))
        /\ (forall v, v <> u -> users st' !! v = users st !! v)
        /\ (ids_unique (urls st) ->
            (UrlService.deletedCount res <= UrlService.requestedCount res)%nat)).
Proof.
  unfold UrlService.bulkDeleteUrls.
  split; [intros ->; reflexivity |].
  intros Hne.
  destruct (Nat.eqb_spec (length urlIds) 0) as [E|E].
  { destruct urlIds; [contradiction | discriminate]. }
  set (q := UrlService.q_ids_owned urlIds u).
  eexists _, _. split; [reflexivity |]. simpl.
  split; [reflexivity |].
  split; [apply List.filter_length |].
  split; [apply Nat.ltb_lt |].
  split.
  { intros l. rewrite filter_In, negb_true_iff.
    rewrite <- (q_ids_owned_true urlIds u l). fold q.
    destruct (q l); intuition congruence. }
  split.
  { apply others_of_filter_owned. intros l Hq.
    apply q_ids_owned_true in Hq. tauto. }
  split.
  { intros usr Husr.
    destruct (Nat.ltb_spec 0 (length (List.filter q (urls st)))) as [Hp|Hz].
    - exists (inc_urlCount (- Z.of_nat (length (List.filter q (urls st)))) usr).
      unfold UrlService.inc_user_urlCount.
      rewrite lookup_alter_eq, Husr. split; [reflexivity |]. simpl. lia.
    - exists usr. split; [exact Husr | lia]. }
  split.
  { intros v Hv. destruct (_ <? _)%nat; [| reflexivity].
    unfold UrlService.inc_user_urlCount. apply lookup_alter_ne. auto. }
  intros Hids.
  rewrite <- (length_map _id (List.filter q (urls st))).
  apply NoDup_incl_length.
  - apply NoDup_ListNoDup, ids_unique_filter. exact Hids.
  - intros i Hi. apply in_map_iff in Hi as (y & <- & Hf).
    apply filter_In in Hf as [_ Hf]. apply q_ids_owned_true in Hf. tauto.
Qed.

Lemma bulkDeleteUrls_owner_only_witness :
  exists res st',
    UrlService.bulkDeleteUrls [10; 12; 13; 77]%nat Sample.alice Sample.state
    = (inr res, st')
    /\ UrlService.deletedCount res = 1%nat
    /\ List.map _id (urls st') = [11; 12; 13]%nat
    /\ others_of Sample.alice (urls st')
       = others_of Sample.alice (urls Sample.state).
Proof.
  destruct (bulkDeleteUrls_owner_only [10; 12; 13; 77]%nat Sample.alice
              Sample.state) as [_ H].
  destruct H as (res & st' & E & _ & _ & _ & _ & Ho & _); [discriminate |].
  exists res, st'. split; [exact E |].
  vm_compute in E. injection E as <- <-.
  split; [reflexivity |]. split; reflexivity.
Defined.

(** ** Updates *)

Lemma fixed_part_apply_update d l :
  body_update d -> fixed_part (UrlService.apply_update d l) = fixed_part l.
Proof.
  intros (H1 & H2 & H3 & H4 & H5 & H6 & H7 & H8).
  unfold fixed_part, UrlService.apply_update.
  rewrite H1, H2, H3, H4, H5, H6, H7, H8. reflexivity.
Qed.

Lemma userId_apply_update d l :
  body_update d -> userId (UrlService.apply_update d l) = userId l.
Proof.
  intros (_ & _ & _ & H4 & _). unfold UrlService.apply_update. simpl.
  rewrite H4. reflexivity.
Qed.

Lemma index_conflict_body d url' ls :
  body_update d -> UrlService.index_conflict d url' ls = false.
Proof.
  intros (_ & H2 & H3 & _). unfold UrlService.index_conflict.
  rewrite H2, H3. reflexivity.
Qed.

Lemma update_first_at q f e l1 l2 :
  (forall x, In x l1 -> q x = false) -> q e = true ->
  UrlService.update_first q f (l1 ++ e :: l2) = l1 ++ f e :: l2.
Proof.
  intros Hb He. induction l1 as [|x l1 IH]; simpl.
  - rewrite He. reflexivity.
  - rewrite (Hb x (or_introl eq_refl)). f_equal. apply IH.
    intros y Hy. apply Hb. right. exact Hy.
Qed.

Lemma owns_findOne u urlId ls :
  owns u urlId ls <->
  exists e, UrlService.findOne (UrlService.q_owned urlId u) ls = Some e.
Proof.
  split.
  - intros (l & Hin & Hid & Hown).
    apply (findOne_is_Some _ _ l Hin). apply q_owned_true. auto.
  - intros (e & He). apply findOne_In in He as [Hin Hq].
    apply q_owned_true in Hq as [? ?]. exists e. auto.
Qed.

Lemma not_owns_findOne u urlId ls :
  ~ owns u urlId ls ->
  UrlService.findOne (UrlService.q_owned urlId u) ls = None.
Proof.
  intros H. destruct (UrlService.findOne _ _) as [e|] eqn:E; [| reflexivity].
  exfalso. apply H. apply owns_findOne. eauto.
Qed.

(** What [updateUrl] does to the state. *)
Lemma updateUrl_inv urlId u d st r st' :
  UrlService.updateUrl urlId u d st = (r, st') ->
  (r = inl UpdateNotFound /\ st' = st /\ ~ owns u urlId (urls st))
  \/ exists l0 l1 l2,
       _id l0 = urlId /\ userId l0 = Some u
       /\ urls st = l1 ++ l0 :: l2
       /\ (forall x, In x l1 -> ~ (_id x = urlId /\ userId x = Some u))
       /\ ((r = inl UpdateDuplicateKey /\ st' = st
            /\ UrlService.index_conflict d (UrlService.apply_update d l0)
                 (urls st) = true)
           \/ (r = inr (UrlService.apply_update d l0)
               /\ UrlService.index_conflict d (UrlService.apply_update d l0)
                    (urls st) = false
               /\ st' = mkState (l1 ++ UrlService.apply_update d l0 :: l2)
                          (users st) (nextId st) (rng st))).
Proof.
  unfold UrlService.updateUrl.
  destruct (UrlService.findOne _ _) as [l0|] eqn:Ef.
  - cbv zeta. intros E. right.
    destruct (findOne_split _ _ _ Ef) as (l1 & l2 & Hls & Hb).
    pose proof Ef as Ef'. apply findOne_In in Ef' as [_ Hq].
    pose proof Hq as Hq'. apply q_owned_true in Hq' as [? ?].
    exists l0, l1, l2. do 3 (split; [solve [auto] |]).
    split.
    { intros x Hx Hxo. apply q_owned_true in Hxo.
      rewrite (Hb x Hx) in Hxo. discriminate. }
    destruct (UrlService.index_conflict d (UrlService.apply_update d l0)
                (urls st)) eqn:Ec.
    + injection E as <- <-. left. auto.
    + injection E as <- <-. right. split; [reflexivity |].
      split; [reflexivity |].
      rewrite Hls. rewrite (update_first_at _ _ l0 l1 l2 Hb Hq). reflexivity.
  - intros [= <- <-]. left. repeat split.
    intros Ho. apply owns_findOne in Ho as [e He]. congruence.
Qed.

Lemma updateUrl_users urlId u d st :
  users (UrlService.updateUrl urlId u d st).2 = users st.
Proof.
  destruct (UrlService.updateUrl urlId u d st) as [r st'] eqn:E.
  apply updateUrl_inv in E.
  destruct E as [(_ & -> & _)
                |(l0 & l1 & l2 & _ & _ & _ & _
                  & [(_ & -> & _)|(_ & _ & ->)])];
    reflexivity.
Qed.

Lemma updateUrl_frame urlId u d st :
  body_update d ->
  List.map fixed_part (urls (UrlService.updateUrl urlId u d st).2)
  = List.map fixed_part (urls st)
  /\ others_of u (urls (UrlService.updateUrl urlId u d st).2)
     = others_of u (urls st).
Proof.
  intros Hd.
  destruct (UrlService.updateUrl urlId u d st) as [r st'] eqn:E.
  apply updateUrl_inv in E.
  destruct E as [(_ & -> & _)
                |(l0 & l1 & l2 & Hid & Hown & Hls & _
                  & [(_ & -> & _)|(_ & _ & ->)])];
    simpl; [auto | auto |].
  split.
  - rewrite Hls, !List.map_app. simpl.
    rewrite (fixed_part_apply_update d l0 Hd). reflexivity.
  - rewrite Hls, !others_of_app. f_equal. unfold others_of.
    cbn [List.filter]. rewrite (userId_apply_update d l0 Hd), Hown.
    destruct (bool_decide_reflect (Some u = Some u)); [reflexivity |].
    contradiction.
Qed.

(** X14. [updateUrl] is for the owner only. A caller who owns no Link
    with the id gets the same error whether the Link exists or not, and
    the state stays as it is. For the owner, the first Link of theirs
    with the id takes the values of the update, its strings trimmed, every
    other Link stays as it is, and the updated Link is returned; an update
    that sets a short code or an alias another Link holds fails instead and
    changes nothing. The users stay as they are in every case. An update that sets
    nothing but the title, the description and the active flag never
    fails for the owner and leaves every Link's id, URL, short code, alias,
    owner, expiry and counters as they were, and so the Links of other
    users. *)
Theorem updateUrl_owner_only (urlId u : nat) (d : UrlService.UpdateData)
  (st : State) :
  let out := UrlService.updateUrl urlId u d st in
  users out.2 = users st
  /\ (~ owns u urlId (urls st) -> out = (inl UpdateNotFound, st))
  /\ (owns u urlId (urls st) ->
      exists l0 l1 l2,
        urls st = l1 ++ l0 :: l2 /\ _id l0 = urlId /\ userId l0 = Some u
        /\ (forall x, In x l1 -> ~ (_id x = urlId /\ userId x = Some u))
        /\ ((UrlService.index_conflict d (UrlService.apply_update d l0)
               (urls st) = true
             /\ out = (inl UpdateDuplicateKey, st))
            \/ (UrlService.index_conflict d (UrlService.apply_update d l0)
                  (urls st) = false
                /\ out = (inr (UrlService.apply_update d l0),
                          mkState (l1 ++ UrlService.apply_update d l0 :: l2)
                            (users st) (nextId st) (rng st)))))
  /\ (body_update d ->
      List.map fixed_part (urls out.2) = List.map fixed_part (urls st)
      /\ others_of u (urls out.2) = others_of u (urls st)
      /\ (owns u urlId (urls st) ->
          exists l0,
            In l0 (urls st) /\ _id l0 = urlId /\ userId l0 = Some u
            /\ out.1 = inr (UrlService.apply_update d l0)
            /\ In (UrlService.apply_update d l0) (urls out.2)
            /\ title (UrlService.apply_update d l0)
               = UrlService.set_path
                   (UrlService.trim_opt <$> UrlService.upd_title d) (title l0)
            /\ isActive (UrlService.apply_update d l0)
               = UrlService.set_path (UrlService.upd_isActive d)
                   (isActive l0))).
Proof.
  intros out. subst out.
  split; [apply updateUrl_users |].
  pose proof (updateUrl_frame urlId u d st) as Hframe.
  destruct (UrlService.updateUrl urlId u d st) as [r st'] eqn:E.
  apply updateUrl_inv in E.
  destruct E as [(-> & -> & Hno)
                |(l0 & l1 & l2 & Hid & Hown & Hls & Hfirst & Hcase)].
  - split; [reflexivity |]. split; [contradiction |].
    intros Hd. destruct (Hframe Hd) as [F1 F2].
    split; [exact F1 |]. split; [exact F2 | contradiction].
  - assert (Ho : owns u urlId (urls st)).
    { exists l0. rewrite Hls.
      split; [apply in_or_app; right; left; reflexivity | auto]. }
    split; [intros Hno; contradiction |].
    split.
    { intros _. exists l0, l1, l2. do 3 (split; [solve [auto] |]).
      split; [exact Hfirst |].
      destruct Hcase as [(-> & -> & Hc)|(-> & Hc & ->)]; [left | right];
        auto. }
    intros Hd. destruct (Hframe Hd) as [F1 F2].
    split; [exact F1 |]. split; [exact F2 |].
    intros _. exists l0.
    split; [rewrite Hls; apply in_or_app; right; left; reflexivity |].
    do 2 (split; [solve [auto] |]).
    destruct Hcase as [(_ & _ & Hc)|(-> & _ & ->)].
    { rewrite (index_conflict_body d _ _ Hd) in Hc. discriminate. }
    split; [reflexivity |].
    split; [simpl; apply in_or_app; right; left; reflexivity |].
    split; reflexivity.
Qed.

Lemma updateUrl_owner_only_witness :
  let d := UrlService.mkUpdateData None None None (Some (Some " New title "))
             None None (Some false) None None None None in
  UrlService.updateUrl 10 Sample.bob d Sample.state
  = (inl UpdateNotFound, Sample.state)
  /\ List.map title
       (urls (UrlService.updateUrl 10 Sample.alice d Sample.state).2)
     = [Some "New title"; None; None; None]
  /\ List.map fixed_part
       (urls (UrlService.updateUrl 10 Sample.alice d Sample.state).2)
     = List.map fixed_part (urls Sample.state).
Proof.
  intros d.
  assert (Hd : body_update d) by (repeat split).
  split; [| split; [reflexivity |]].
  - apply (updateUrl_owner_only 10 Sample.bob d Sample.state).
    intros (l & Hin & Hid & Hown).
    repeat (destruct Hin as [<-|Hin]; [vm_compute in Hid, Hown; congruence |]).
    destruct Hin.
  - apply (updateUrl_owner_only 10 Sample.alice d Sample.state). exact Hd.
Defined.

(** The entries of a bulk update that are no [null] set nothing but the
    title, the description and the active flag. *)
Lemma bulk_update_loop_spec updates : forall i u res st r st',
  UrlService.bulk_update_loop updates i u res st = (r, st') ->
  UrlService.BulkUpdate.successCount res
  = length (UrlService.BulkUpdate.successful res) ->
  UrlService.BulkUpdate.errorCount res
  = length (UrlService.BulkUpdate.failed res) ->
  users st' = users st
  /\ (Forall (fun e => forall id d, e = Some (id, d) -> body_update d)
        updates ->
      List.map fixed_part (urls st') = List.map fixed_part (urls st)
      /\ others_of u (urls st') = others_of u (urls st))
  /\ match r with
     | inl e => e = NullUpdate /\ In None updates
     | inr res' =>
         Forall is_Some updates
         /\ UrlService.BulkUpdate.successCount res'
            = length (UrlService.BulkUpdate.successful res')
         /\ UrlService.BulkUpdate.errorCount res'
            = length (UrlService.BulkUpdate.failed res')
         /\ UrlService.BulkUpdate.totalProcessed res'
            = (UrlService.BulkUpdate.totalProcessed res
               + length updates)%nat
         /\ (UrlService.BulkUpdate.successCount res'
             + UrlService.BulkUpdate.errorCount res')%nat
            = (UrlService.BulkUpdate.successCount res
               + UrlService.BulkUpdate.errorCount res + length updates)%nat
     end.
Proof.
  induction updates as [|[[id data]|] rest IH]; intros i u res st r st';
    simpl UrlService.bulk_update_loop.
  - intros [= <- <-] H1 H2. split; [reflexivity |]. split; [auto |].
    split; [constructor |]. simpl. repeat split; lia.
  - destruct res as [succ fl tp sc ec].
    cbn [UrlService.BulkUpdate.successful UrlService.BulkUpdate.failed
         UrlService.BulkUpdate.totalProcessed
         UrlService.BulkUpdate.successCount
         UrlService.BulkUpdate.errorCount].
    intros E H1 H2.
    assert (Hnext : forall res1 st1,
      UrlService.bulk_update_loop rest (S i) u res1 st1 = (r, st') ->
      UrlService.BulkUpdate.successCount res1
      = length (UrlService.BulkUpdate.successful res1) ->
      UrlService.BulkUpdate.errorCount res1
      = length (UrlService.BulkUpdate.failed res1) ->
      UrlService.BulkUpdate.totalProcessed res1 = S tp ->
      (UrlService.BulkUpdate.successCount res1
       + UrlService.BulkUpdate.errorCount res1)%nat = S (sc + ec) ->
      users st1 = users st ->
      (body_update data ->
       List.map fixed_part (urls st1) = List.map fixed_part (urls st)
       /\ others_of u (urls st1) = others_of u (urls st)) ->
      users st' = users st
      /\ (Forall (fun e => forall id d, e = Some (id, d) -> body_update d)
            (Some (id, data) :: rest) ->
          List.map fixed_part (urls st') = List.map fixed_part (urls st)
          /\ others_of u (urls st') = others_of u (urls st))
      /\ match r with
         | inl e => e = NullUpdate /\ In None (Some (id, data) :: rest)
         | inr res' =>
             Forall is_Some (Some (id, data) :: rest)
             /\ UrlService.BulkUpdate.successCount res'
                = length (UrlService.BulkUpdate.successful res')
             /\ UrlService.BulkUpdate.errorCount res'
                = length (UrlService.BulkUpdate.failed res')
             /\ UrlService.BulkUpdate.totalProcessed res'
                = (tp + length (Some (id, data) :: rest))%nat
             /\ (UrlService.BulkUpdate.successCount res'
                 + UrlService.BulkUpdate.errorCount res')%nat
                = (sc + ec + length (Some (id, data) :: rest))%nat
         end).
    { intros res1 st1 E1 A1 A2 A3 A4 A5 A6.
      destruct (IH (S i) u res1 st1 r st' E1 A1 A2) as (G1 & G2 & G3).
      split; [congruence |]. split.
      - intros Hall. inversion Hall as [|? ? Hd Hrest]; subst.
        destruct (G2 Hrest) as [G21 G22].
        destruct (A6 (Hd id data eq_refl)) as [A61 A62].
        split; congruence.
      - destruct r as [e|res'].
        + destruct G3 as [-> Hin]. split; [reflexivity | right; exact Hin].
        + destruct G3 as (F & C1 & C2 & C3 & C4).
          split; [constructor; [eexists; reflexivity | exact F] |].
          simpl length. repeat split; lia. }
    destruct id as [urlId|].
    + pose proof (updateUrl_users urlId u data st) as B2.
      pose proof (updateUrl_frame urlId u data st) as B1.
      destruct (UrlService.updateUrl urlId u data st) as [[e|l] st1];
        simpl in B1, B2;
        apply (Hnext _ _ E); simpl; rewrite ?length_app; simpl; auto; lia.
    + apply (Hnext _ _ E); simpl; rewrite ?length_app; simpl; auto; lia.
  - intros [= <- <-] H1 H2. split; [reflexivity |]. split; [auto |].
    split; [reflexivity | left; reflexivity].
Qed.

(** X15. [bulkUpdateUrls] rejects an empty list and a list of more than 50
    updates without touching the state. A request whose entries are all
    objects is handled to the end: [totalProcessed] is the length of the
    request, each entry is counted once, as a success or as a failure, and
    a failing entry (an absent id, a Link of someone else) does not stop
    the others. A request of at most 50 entries with a [null] entry fails
    as a whole, after the updates before that entry. The users stay as
    they are in every case; and when the updates set nothing but titles,
    descriptions and active flags, the ids, URLs, codes, owners, expiries
    and counters of all Links and the Links of other users do too. *)
Theorem bulkUpdateUrls_accounting
  (updates : list (option (option nat * UrlService.UpdateData))) (u : nat)
  (st : State) :
  (updates = [] ->
   UrlService.bulkUpdateUrls updates u st = (inl UpdatesRequired, st))
  /\ ((50 < length updates)%nat ->
      UrlService.bulkUpdateUrls updates u st = (inl TooManyUpdates, st))
  /\ users (UrlService.bulkUpdateUrls updates u st).2 = users st
  /\ (Forall (fun e => forall id d, e = Some (id, d) -> body_update d)
        updates ->
      List.map fixed_part (urls (UrlService.bulkUpdateUrls updates u st).2)
      = List.map fixed_part (urls st)
      /\ others_of u (urls (UrlService.bulkUpdateUrls updates u st).2)
         = others_of u (urls st))
  /\ (updates <> [] -> (length updates <= 50)%nat ->
      Forall is_Some updates ->
      exists res st',
        UrlService.bulkUpdateUrls updates u st = (inr res, st')
        /\ UrlService.BulkUpdate.totalProcessed res = length updates
        /\ (UrlService.BulkUpdate.successCount res
            + UrlService.BulkUpdate.errorCount res)%nat = length updates
        /\ UrlService.BulkUpdate.successCount res
           = length (UrlService.BulkUpdate.successful res)
        /\ UrlService.BulkUpdate.errorCount res
           = length (UrlService.BulkUpdate.failed res))
  /\ ((length updates <= 50)%nat -> In None updates ->
      exists st',
        UrlService.bulkUpdateUrls updates u st = (inl NullUpdate, st')).
Proof.
  unfold UrlService.bulkUpdateUrls.
  split; [intros ->; reflexivity |].
  split.
  { intros Hlen.
    destruct (Nat.eqb_spec (length updates) 0) as [E|E]; [lia |].
    destruct (Nat.ltb_spec 50 (length updates)); [reflexivity | lia]. }
  destruct (UrlService.bulk_update_loop updates 0 u
              UrlService.BulkUpdate.empty st) as [r st'] eqn:El.
  destruct (bulk_update_loop_spec updates 0 u UrlService.BulkUpdate.empty
              st r st' El eq_refl eq_refl) as (G1 & G2 & G3).
  split.
  { destruct (length updates =? 0)%nat; [reflexivity |].
    destruct (50 <? length updates)%nat; [reflexivity | exact G1]. }
  split.
  { intros Hall.
    destruct (length updates =? 0)%nat; [auto |].
    destruct (50 <? length updates)%nat; [auto | exact (G2 Hall)]. }
  split.
  - intros Hne Hlen Hall.
    destruct (Nat.eqb_spec (length updates) 0) as [E|E].
    { destruct updates; [contradiction | discriminate]. }
    destruct (Nat.ltb_spec 50 (length updates)); [lia |].
    destruct r as [e|res].
    + destruct G3 as [_ Hin]. exfalso.
      rewrite Forall_forall in Hall.
      destruct (Hall None (proj2 (list_elem_of_In _ _) Hin)) as [x Hx].
      discriminate.
    + destruct G3 as (_ & C1 & C2 & C3 & C4). simpl in C3, C4.
      exists res, st'. split_and!; auto.
  - intros Hlen Hin.
    destruct (Nat.eqb_spec (length updates) 0) as [E|E].
    { destruct updates; [destruct Hin | discriminate]. }
    destruct (Nat.ltb_spec 50 (length updates)); [lia |].
    destruct r as [e|res].
    + destruct G3 as [-> _]. exists st'. reflexivity.
    + destruct G3 as (Hall & _). exfalso.
      rewrite Forall_forall in Hall.
      destruct (Hall None (proj2 (list_elem_of_In _ _) Hin)) as [x Hx].
      discriminate.
Qed.

Lemma bulkUpdateUrls_accounting_witness :
  let off := UrlService.mkUpdateData None None None None None None
               (Some false) None None None None in
  let updates := [Some (Some 10%nat, off); Some (None, off);
                  Some (Some 12%nat, off); Some (Some 11%nat, off)] in
  (exists res st',
     UrlService.bulkUpdateUrls updates Sample.alice Sample.state
     = (inr res, st')
     /\ (UrlService.BulkUpdate.successCount res,
         UrlService.BulkUpdate.errorCount res) = (2%nat, 2%nat)
     /\ List.map isActive (urls st') = [false; false; true; false])
  /\ (exists st',
        UrlService.bulkUpdateUrls [Some (Some 10%nat, off); None]
          Sample.alice Sample.state = (inl NullUpdate, st')
        /\ List.map isActive (urls st') = [false; true; true; false]).
Proof.
  intros off updates. split.
  - destruct (bulkUpdateUrls_accounting updates Sample.alice Sample.state)
      as (_ & _ & _ & _ & H & _).
    destruct H as (res & st' & E & _);
      [discriminate | simpl; lia
       | repeat constructor; eexists; reflexivity |].
    exists res, st'. split; [exact E |].
    vm_compute in E. injection E as <- <-. split; reflexivity.
  - destruct (bulkUpdateUrls_accounting [Some (Some 10%nat, off); None]
                Sample.alice Sample.state)
      as (_ & _ & _ & _ & _ & H).
    destruct H as (st' & E); [simpl; lia | right; left; reflexivity |].
    exists st'. split; [exact E |].
    vm_compute in E. injection E as <-. reflexivity.
Defined.

(** X16. The operations that check ownership agree, and tell a stranger
    nothing. For a user who owns no Link with the given id, reading the
    Link or its statistics, updating, toggling and deleting it all fail
    with their not-found error and leave the state as it is, whether the id
    is unknown or belongs to someone else. For the owner, reading returns a
    Link with that id and owner, populated (the Link as it is when the
    owner is a user of the collection), and the statistics are those of
    that Link. *)
Theorem ownership_uniform (urlId u : nat) (now : Z) (st : State)
  (d : UrlService.UpdateData) (hard : bool) :
  (~ owns u urlId (urls st) ->
   UrlService.getUrlById urlId (Some u) st = None
   /\ UrlService.getUrlStats urlId (Some u) now st = inl UrlNotFound
   /\ UrlService.updateUrl urlId u d st = (inl UpdateNotFound, st)
   /\ UrlService.toggleUrlStatus urlId u st = (inl ToggleNotFound, st)
   /\ UrlService.deleteUrl urlId u hard st = (inl DeleteNotFound, st))
  /\ (owns u urlId (urls st) ->
      exists l,
        In l (urls st) /\ _id l = urlId /\ userId l = Some u
        /\ UrlService.getUrlById urlId (Some u) st
           = Some (populate (users st) l)
        /\ (is_Some (users st !! u) ->
            UrlService.getUrlById urlId (Some u) st = Some l)
        /\ exists s,
             UrlService.getUrlStats urlId (Some u) now st = inr s
             /\ UrlService.stats_id s = urlId
             /\ UrlService.stats_clickCount s = clickCount l
             /\ UrlService.stats_isExpired s = URL_MODEL.isExpired now l).
Proof.
  assert (Hq : forall l, UrlService.q_id_of urlId (Some u) l
                         = UrlService.q_owned urlId u l) by reflexivity.
  assert (Hf : UrlService.findOne (UrlService.q_id_of urlId (Some u)) (urls st)
               = UrlService.findOne (UrlService.q_owned urlId u) (urls st)).
  { reflexivity. }
  unfold UrlService.getUrlById, UrlService.getUrlStats,
    UrlService.updateUrl, UrlService.toggleUrlStatus, UrlService.deleteUrl.
  rewrite Hf. split.
  - intros Hno. rewrite (not_owns_findOne u urlId (urls st) Hno).
    repeat split.
  - intros Ho. apply owns_findOne in Ho as [e He]. rewrite He.
    apply findOne_In in He as [Hin Hqe]. apply q_owned_true in Hqe as [? ?].
    exists e. do 3 (split; [solve [auto] |]).
    split; [reflexivity |].
    split.
    { intros Hex. simpl. rewrite (populate_known _ _ u); auto. }
    eexists. split; [reflexivity |]. simpl. auto.
Qed.

Lemma ownership_uniform_witness :
  UrlService.getUrlById 12 None Sample.state <> None
  /\ UrlService.getUrlById 12 (Some Sample.alice) Sample.state = None
  /\ UrlService.getUrlById 99 (Some Sample.alice) Sample.state = None.
Proof.
  split; [vm_compute; discriminate |].
  assert (H : forall id, (id = 12 \/ id = 99)%nat ->
                         ~ owns Sample.alice id (urls Sample.state)).
  { intros id Hid (l & Hin & Hl & Hown).
    repeat (destruct Hin as [<-|Hin];
            [vm_compute in Hl, Hown; destruct Hid; congruence |]).
    destruct Hin. }
  split.
  - apply (ownership_uniform 12 Sample.alice 0 Sample.state
             UrlService.no_update false).
    apply H. left. reflexivity.
  - apply (ownership_uniform 99 Sample.alice 0 Sample.state
             UrlService.no_update false).
    apply H. right. reflexivity.
Defined.

(** ** Cleanup of expired Links *)

Lemma q_expired_isExpired now l :
  URL_MODEL.q_expired now l = URL_MODEL.isExpired now l.
Proof. reflexivity. Qed.

Lemma findOne_filter_keeps q p ls e :
  UrlService.findOne q ls = Some e -> p e = true ->
  UrlService.findOne q (List.filter p ls) = Some e.
Proof.
  unfold UrlService.findOne. induction ls as [|x ls IH]; simpl;
    [discriminate |].
  destruct (q x) eqn:Eq.
  - intros [= ->] Hp. rewrite Hp. simpl. rewrite Eq. reflexivity.
  - intros He Hp. destruct (p x); simpl; [rewrite Eq |]; auto.
Qed.

Lemma codes_unique_first c q ls l :
  codes_unique ls -> In l ls -> code_of c l ->
  (forall x, q x = true -> code_of c x) ->
  UrlService.findOne q ls = if q l then Some l else None.
Proof.
  intros Hu Hin Hc Hq.
  apply in_split in Hin as (l1 & l2 & Hls).
  destruct (codes_unique_split _ _ _ _ c Hu Hls Hc) as [H1 H2].
  assert (Hn : forall x, ~ code_of c x -> q x = false).
  { intros x Hx. apply not_true_iff_false. intros E. exact (Hx (Hq x E)). }
  rewrite Hls. destruct (q l) eqn:El.
  - apply findOne_at; auto.
  - apply findOne_none_around; auto.
Qed.

Lemma filter_idem {A} (p : A -> bool) (l : list A) :
  List.filter p (List.filter p l) = List.filter p l.
Proof.
  induction l as [|x l IH]; simpl; [reflexivity |].
  destruct (p x) eqn:E; simpl; [rewrite E, IH |]; auto.
Qed.

(** X17. [cleanupExpiredUrls] deletes exactly the Links whose [expiresAt]
    lies in the past: [deletedCount] is the number of Links gone, a Link
    without [expiresAt] is never deleted, no expired Link is left and a
    second cleanup at the same time deletes nothing. It never takes away a
    Link the resolver returns; with unique codes every code resolves after
    the cleanup exactly as before. *)
Theorem cleanupExpiredUrls_exact (now : Z) (st : State) :
  let deleted := (URL_MODEL.cleanupExpiredUrls now (urls st)).1 in
  let ls := (URL_MODEL.cleanupExpiredUrls now (urls st)).2 in
  let st' := mkState ls (users st) (nextId st) (rng st) in
  (deleted + length ls)%nat = length (urls st)
  /\ (forall l, In l ls <->
                In l (urls st) /\ URL_MODEL.isExpired now l = false)
  /\ (forall l, In l (urls st) -> expiresAt l = None -> In l ls)
  /\ URL_MODEL.cleanupExpiredUrls now ls = (0%nat, ls)
  /\ (forall c l,
        (UrlService.getUrlByShortCode c false now st).1 = Some l ->
        (UrlService.getUrlByShortCode c false now st').1 = Some l)
  /\ (codes_unique (urls st) ->
      forall c,
        (UrlService.getUrlByShortCode c false now st').1
        = (UrlService.getUrlByShortCode c false now st).1).
Proof.
  unfold URL_MODEL.cleanupExpiredUrls.
  set (keep := fun l => negb (URL_MODEL.q_expired now l)).
  assert (Hkeep : forall l, keep l = true <->
                            URL_MODEL.isExpired now l = false).
  { intros l. unfold keep. rewrite negb_true_iff. reflexivity. }
  assert (Hresolve : forall c l,
    (UrlService.getUrlByShortCode c false now st).1 = Some l ->
    (UrlService.getUrlByShortCode c false now
       (mkState (List.filter keep (urls st)) (users st) (nextId st)
          (rng st))).1 = Some l).
  { intros c l. unfold UrlService.getUrlByShortCode. simpl urls.
    destruct (UrlService.findOne _ (urls st)) as [e|] eqn:Ef;
      [| discriminate].
    destruct (URL_MODEL.isExpired now e) eqn:Ex; [discriminate |].
    simpl. intros [= <-].
    rewrite (findOne_filter_keeps _ keep _ e Ef); [| apply Hkeep; exact Ex].
    rewrite Ex. reflexivity. }
  cbn zeta. simpl fst. simpl snd.
  split; [apply List.filter_length |].
  split; [intros l; rewrite filter_In, Hkeep; reflexivity |].
  split.
  { intros l Hin He. apply filter_In. split; [exact Hin |].
    apply Hkeep. unfold URL_MODEL.isExpired. rewrite He. reflexivity. }
  split.
  { f_equal.
    - apply length_zero_iff_nil.
      destruct (List.filter (URL_MODEL.q_expired now) _) as [|x r] eqn:E;
        [reflexivity |].
      assert (Hx : In x (x :: r)) by (left; reflexivity).
      rewrite <- E in Hx. apply filter_In in Hx as [Hx Hq].
      apply filter_In in Hx as [_ Hk]. unfold keep in Hk.
      rewrite Hq in Hk. discriminate.
    - apply filter_idem. }
  split; [exact Hresolve |].
  intros Hu c.
  destruct (UrlService.getUrlByShortCode c false now st).1 as [l|] eqn:E.
  { apply Hresolve. exact E. }
  destruct (UrlService.getUrlByShortCode c false now
              (mkState (List.filter keep (urls st)) (users st) (nextId st)
                 (rng st))).1 as [l|] eqn:E'; [| reflexivity].
  exfalso. revert E E'. unfold UrlService.getUrlByShortCode. simpl urls.
  destruct (UrlService.findOne _ (List.filter keep (urls st)))
    as [e|] eqn:Ef; [| discriminate].
  apply findOne_In in Ef as [Hin Hq].
  apply filter_In in Hin as [Hin Hk]. apply Hkeep in Hk.
  pose proof Hq as Hq'. apply q_active_code_true in Hq' as [Hc _].
  rewrite (codes_unique_first (Chars.trim c) _ _ e Hu Hin Hc), Hq, Hk.
  - discriminate.
  - intros x Hx. apply q_active_code_true in Hx. tauto.
Qed.

Lemma cleanupExpiredUrls_exact_witness :
  let out := URL_MODEL.cleanupExpiredUrls 100 (urls Sample.state) in
  out.1 = 1%nat
  /\ List.map _id out.2 = [10; 11; 13]%nat
  /\ forall c,
       (UrlService.getUrlByShortCode c false 100
          (mkState out.2 (users Sample.state) (nextId Sample.state)
             (rng Sample.state))).1
       = (UrlService.getUrlByShortCode c false 100 Sample.state).1.
Proof.
  intros out. split; [reflexivity |]. split; [reflexivity |].
  apply (cleanupExpiredUrls_exact 100 Sample.state).
  exact sample_codes_unique.
Defined.

(** ** Batch validation of redirects *)

Lemma getUrlByShortCode_read c now st :
  (UrlService.getUrlByShortCode c false now st).2 = st
  /\ forall l,
       (UrlService.getUrlByShortCode c false now st).1 = Some l ->
       exists l0,
         l = populate (users st) l0
         /\ In l0 (urls st) /\ code_of (Chars.trim c) l0
         /\ isActive l0 = true
         /\ URL_MODEL.isExpired now l0 = false.
Proof.
  unfold UrlService.getUrlByShortCode.
  destruct (UrlService.findOne _ _) as [e|] eqn:Ef;
    [| split; [reflexivity | discriminate]].
  apply findOne_In in Ef as [Hin Hq].
  apply q_active_code_true in Hq as [Hc Ha].
  destruct (URL_MODEL.isExpired now e) eqn:Ex;
    [split; [reflexivity | discriminate] |].
  split; [reflexivity |]. intros l [= <-]. exists e. auto.
Qed.

Lemma validate_one_spec now later st c :
  let r := Redirect.validate_one now later st c in
  Redirect.shortCode r = c
  /\ (Redirect.valid r = true ->
      Redirect.active r = true
      /\ exists l, In l (urls st) /\ code_of (Chars.trim c) l
                   /\ Redirect.destination r = Some (originalUrl l)
                   /\ Redirect.handleRedirect c now st
                      = Redirect.Found (originalUrl l)
                   /\ URL_MODEL.isExpired now l = false
                   /\ Redirect.expired r = URL_MODEL.isExpired later l)
  /\ (Redirect.valid r = false ->
      Redirect.handleRedirect c now st
      = Redirect.NotFound "Short URL not found or expired").
Proof.
  unfold Redirect.validate_one, Redirect.handleRedirect.
  destruct (getUrlByShortCode_read c now st) as [_ Hr].
  destruct (UrlService.getUrlByShortCode c false now st).1 as [l|];
    cbn zeta; simpl.
  - destruct (Hr l eq_refl) as (l0 & -> & Hin & Hc & Ha & Hx).
    rewrite isExpired_populate.
    destruct (populate_fields (users st) l0)
      as (_ & -> & _ & _ & -> & _).
    split; [reflexivity |]. split; [| discriminate].
    intros _. split; [exact Ha |]. exists l0. auto 10.
  - split; [reflexivity |]. split; [discriminate | reflexivity].
Qed.

Lemma count_ext_in (p q : Redirect.Validation -> bool) rs :
  (forall r, In r rs -> p r = q r) -> Redirect.count p rs = Redirect.count q rs.
Proof.
  intros H. unfold Redirect.count. f_equal. apply filter_ext_in. exact H.
Qed.

(** X18. [validateBatchRedirects] refuses more than 50 codes. Otherwise it
    gives one result per code, in order, and a summary in which [valid] and
    [invalid] add up to [total] and [active] always equals [valid], since
    the resolver returns active Links only. A code is valid exactly when a
    redirect for it would be answered, and then [destination] is the target
    of that redirect. A valid result is reported expired only if its Link,
    the one that carries the code as the lookup trims it, expired between
    the lookup and the reading of the flag, so with both at the same
    instant [expired] is 0. *)
Theorem validateBatchRedirects_summary (shortCodes : list string)
  (now later : Z) (st : State) :
  ((50 < length shortCodes)%nat ->
   Redirect.validateBatchRedirects shortCodes now later st
   = inl (Redirect.BadRequest "Maximum 50 short codes allowed per batch"))
  /\ ((length shortCodes <= 50)%nat ->
      exists results summary,
        Redirect.validateBatchRedirects shortCodes now later st
        = inr (results, summary)
        /\ List.map Redirect.shortCode results = shortCodes
        /\ Redirect.total summary = length shortCodes
        /\ (Redirect.valid_count summary + Redirect.invalid_count summary)%nat
           = Redirect.total summary
        /\ Redirect.active_count summary = Redirect.valid_count summary
        /\ (Redirect.expired_count summary <= Redirect.valid_count summary)%nat
        /\ (later <= now -> Redirect.expired_count summary = 0%nat)
        /\ forall r, In r results ->
             (Redirect.valid r = true <->
              exists target,
                Redirect.handleRedirect (Redirect.shortCode r) now st
                = Redirect.Found target
                /\ Redirect.destination r = Some target)
             /\ (Redirect.valid r = true -> Redirect.expired r = true ->
                 exists l t, In l (urls st)
                             /\ code_of (Chars.trim (Redirect.shortCode r)) l
                             /\ expiresAt l = Some t /\ now <= t < later)).
Proof.
  unfold Redirect.validateBatchRedirects. split.
  - intros H. destruct (Nat.ltb_spec 50 (length shortCodes));
      [reflexivity | lia].
  - intros H. destruct (Nat.ltb_spec 50 (length shortCodes)); [lia |].
    set (results := List.map (Redirect.validate_one now later st) shortCodes).
    assert (Hall : forall r, In r results ->
              exists c, r = Redirect.validate_one now later st c).
    { intros r Hr. apply in_map_iff in Hr as (c & <- & _). eauto. }
    assert (Hexp : forall r, In r results ->
              Redirect.valid r = true -> Redirect.expired r = true ->
              exists l t, In l (urls st)
                          /\ code_of (Chars.trim (Redirect.shortCode r)) l
                          /\ expiresAt l = Some t /\ now <= t < later).
    { intros r Hr Hv He. destruct (Hall r Hr) as [c ->].
      destruct (validate_one_spec now later st c) as (Hsc & Hval & _).
      cbn zeta in Hsc, Hval. rewrite Hsc.
      destruct (Hval Hv) as (_ & l & Hin & Hc & _ & _ & Hx & Hex).
      rewrite Hex in He. apply isExpired_true in He as (t & Ht & Hlt).
      exists l, t. repeat (split; [solve [auto] |]).
      split; [| exact Hlt].
      unfold URL_MODEL.isExpired in Hx. rewrite Ht in Hx.
      apply Z.ltb_ge in Hx. exact Hx. }
    exists results. eexists. split; [reflexivity |]. simpl.
    split.
    { subst results. rewrite List.map_map.
      rewrite <- (List.map_id shortCodes) at 2. apply map_ext.
      intros c. apply (validate_one_spec now later st c). }
    split; [reflexivity |].
    split.
    { unfold Redirect.count. rewrite List.filter_length.
      subst results. apply length_map. }
    split.
    { apply count_ext_in. intros r Hr. destruct (Hall r Hr) as [c ->].
      destruct (validate_one_spec now later st c) as (_ & Hval & _).
      cbn zeta in Hval.
      destruct (Redirect.valid _) eqn:Ev; [| reflexivity].
      destruct (Hval eq_refl) as [-> _]. reflexivity. }
    split.
    { unfold Redirect.count.
      induction results as [|r rs IH]; simpl; [lia |].
      assert (IH' := IH (fun x Hx => Hall x (or_intror Hx))
                        (fun x Hx => Hexp x (or_intror Hx))).
      destruct (Redirect.valid r), (Redirect.expired r); simpl; lia. }
    split.
    { intros Hlater. unfold Redirect.count. apply length_zero_iff_nil.
      destruct (List.filter _ results) as [|r rs] eqn:E; [reflexivity |].
      assert (Hr : In r (r :: rs)) by (left; reflexivity).
      rewrite <- E in Hr. apply filter_In in Hr as [Hr Hb].
      apply andb_true_iff in Hb as [Hv He].
      destruct (Hexp r Hr Hv He) as (l & t & _ & _ & _ & Ht). lia. }
    intros r Hr. split; [| apply Hexp; exact Hr].
    destruct (Hall r Hr) as [c ->].
    destruct (validate_one_spec now later st c) as (Hsc & Hval & Hinv).
    cbn zeta in Hsc, Hval, Hinv. rewrite Hsc. split.
    + intros Hv. destruct (Hval Hv) as (_ & l & _ & _ & Hd & Hh & _).
      exists (originalUrl l). auto.
    + intros (target & Hh & _).
      destruct (Redirect.valid _) eqn:Ev; [reflexivity |].
      rewrite (Hinv eq_refl) in Hh. discriminate.
Qed.

Lemma validateBatchRedirects_summary_witness :
  exists results summary,
    Redirect.validateBatchRedirects [" promo "; "ccc333"; "ddd444"; "nope"]
      40 40 Sample.state = inr (results, summary)
    /\ List.map Redirect.valid results = [true; false; false; false]
    /\ Redirect.active_count summary = Redirect.valid_count summary
    /\ Redirect.expired_count summary = 0%nat.
Proof.
  destruct (validateBatchRedirects_summary
              [" promo "; "ccc333"; "ddd444"; "nope"] 40 40 Sample.state)
    as [_ H].
  destruct H as (results & summary & E & _ & _ & _ & Ha & _ & Hx & _);
    [simpl; lia |].
  exists results, summary. split; [exact E |].
  split; [vm_compute in E; injection E as <- _; reflexivity |].
  split; [exact Ha | apply Hx; lia].
Defined.

(** ** The error handler *)

Lemma duplicate_message_nonempty err : ErrorHandler.duplicate_message err <> "".
Proof.
  unfold ErrorHandler.duplicate_message.
  repeat destruct (ErrorHandler.has_key _ _); discriminate.
Qed.

Ltac decide_rules :=
  repeat match goal with
         | |- context [bool_decide ?P] =>
             destruct (bool_decide_reflect P)
         | H : context [bool_decide ?P] |- _ =>
             destruct (bool_decide_reflect P)
         end.

(** X19. [errorHandler] throws, and so sends no response, exactly for a
    [ValidationError] that carries no [errors]. In every other case it
    answers with a non-zero status and a non-empty message, and of the
    rules that apply the last one in the source decides: an over-large body
    gives 413; else an expired or invalid token gives 401 and a validation
    error 400 with the joined messages; else a duplicate key (code 11000)
    gives 400, also for a cast error; else a cast error gives 404; and when
    no rule applies the status is the error's own [statusCode], or 500,
    with the error's message. The errors of [createUrl], thrown as plain
    [Error]s, therefore all arrive as 500 with their text. *)
Theorem errorHandler_classifies (err : ErrorHandler.Err) :
  let too_large := ErrorHandler.type err = Some "entity.too.large" in
  let named n := ErrorHandler.name err = n in
  (ErrorHandler.errorHandler err = None
   <-> named "ValidationError" /\ ErrorHandler.errors err = None)
  /\ (forall status msg,
        ErrorHandler.errorHandler err = Some (status, msg) ->
        status <> 0%nat /\ msg <> ""
        /\ (too_large -> (status, msg) = (413%nat, "Request body too large"))
        /\ (~ too_large -> named "TokenExpiredError" ->
            (status, msg) = (401%nat, "Token expired"))
        /\ (~ too_large -> named "JsonWebTokenError" ->
            (status, msg) = (401%nat, "Invalid token"))
        /\ (~ too_large -> named "ValidationError" ->
            exists messages,
              ErrorHandler.errors err = Some messages
              /\ status = 400%nat
              /\ msg = if bool_decide (String.concat ", " messages = "")
                       then "Server Error"
                       else String.concat ", " messages)
        /\ (~ too_large -> ~ named "TokenExpiredError" ->
            ~ named "JsonWebTokenError" -> ~ named "ValidationError" ->
            (ErrorHandler.code err = Some 11000 ->
             (status, msg) = (400%nat, ErrorHandler.duplicate_message err))
            /\ (ErrorHandler.code err <> Some 11000 -> named "CastError" ->
                (status, msg) = (404%nat, "Resource not found"))
            /\ (ErrorHandler.code err <> Some 11000 -> ~ named "CastError" ->
                status = match ErrorHandler.statusCode err with
                         | Some c => if (c =? 0)%nat then 500%nat else c
                         | None => 500%nat
                         end
                /\ msg = if bool_decide (ErrorHandler.message err = "")
                         then "Server Error" else ErrorHandler.message err)))
  /\ (forall e,
        ErrorHandler.errorHandler
          (ErrorHandler.plain (UrlService.createUrl_message e))
        = Some (500%nat, UrlService.createUrl_message e)).
Proof.
  cbn zeta.
  pose proof (duplicate_message_nonempty err) as Hdup.
  split.
  { unfold ErrorHandler.errorHandler, ErrorHandler.validation_rule.
    destruct (bool_decide_reflect (ErrorHandler.name err = "ValidationError"))
      as [Hn|Hn].
    - destruct (ErrorHandler.errors err) as [ms|].
      + split; [discriminate | intros [_ [=]]].
      + split; [auto | reflexivity].
    - split; [discriminate | intros [? _]; contradiction]. }
  split.
  { intros status msg.
    unfold ErrorHandler.errorHandler, ErrorHandler.validation_rule,
      ErrorHandler.rule.
    destruct (ErrorHandler.errors err) as [ms|] eqn:Ems.
    - intros H.
      split.
      { revert H. decide_rules; simpl; intros [= <- <-]; try discriminate;
          destruct (ErrorHandler.statusCode err) as [c|]; try discriminate;
          destruct (Nat.eqb_spec c 0); try discriminate; assumption. }
      split.
      { revert H. decide_rules; simpl in *; intros [= <- <-];
          try discriminate; try assumption; try congruence. }
      split; [intros H0; revert H; decide_rules; simpl in *;
              intros [= <- <-]; try reflexivity; congruence |].
      split; [intros H1 H2; revert H; decide_rules; simpl in *;
              intros [= <- <-]; try reflexivity; congruence |].
      split; [intros H1 H2; revert H; decide_rules; simpl in *;
              intros [= <- <-]; try reflexivity; congruence |].
      split.
      { intros H1 H2. exists ms. split; [reflexivity |].
        revert H. decide_rules; simpl in *; intros [= <- <-];
          try (split; reflexivity); try congruence. }
      intros H1 H2 H3 H4. split; [| split].
      + intros H5. revert H. decide_rules; simpl in *; intros [= <- <-];
          try reflexivity; congruence.
      + intros H5 H6. revert H. decide_rules; simpl in *; intros [= <- <-];
          try reflexivity; congruence.
      + intros H5 H6. revert H. decide_rules; simpl in *; intros [= <- <-];
          try (split; reflexivity); congruence.
    - destruct (bool_decide_reflect
                  (ErrorHandler.name err = "ValidationError")) as [Hn|Hn];
        [discriminate |].
      intros H.
      split.
      { revert H. decide_rules; simpl; intros [= <- <-]; try discriminate;
          destruct (ErrorHandler.statusCode err) as [c|]; try discriminate;
          destruct (Nat.eqb_spec c 0); try discriminate; assumption. }
      split.
      { revert H. decide_rules; simpl in *; intros [= <- <-];
          try discriminate; try assumption; try congruence. }
      split; [intros H0; revert H; decide_rules; simpl in *;
              intros [= <- <-]; try reflexivity; congruence |].
      split; [intros H1 H2; revert H; decide_rules; simpl in *;
              intros [= <- <-]; try reflexivity; congruence |].
      split; [intros H1 H2; revert H; decide_rules; simpl in *;
              intros [= <- <-]; try reflexivity; congruence |].
      split; [intros _ H2; contradiction |].
      intros H1 H2 H3 H4. split; [| split].
      + intros H5. revert H. decide_rules; simpl in *; intros [= <- <-];
          try reflexivity; congruence.
      + intros H5 H6. revert H. decide_rules; simpl in *; intros [= <- <-];
          try reflexivity; congruence.
      + intros H5 H6. revert H. decide_rules; simpl in *; intros [= <- <-];
          try (split; reflexivity); congruence. }
  intros e. unfold UrlService.createUrl_message. simpl.
  reflexivity.
Qed.

(** ** Authentication middleware *)

Lemma append_assoc (a b c : string) : (a +:+ b) +:+ c = a +:+ (b +:+ c).
Proof.
  induction a as [|x a IH]; [reflexivity |].
  change (String x ((a +:+ b) +:+ c) = String x (a +:+ (b +:+ c))).
  rewrite IH. reflexivity.
Qed.

Lemma append_nil_r (a : string) : a +:+ "" = a.
Proof.
  induction a as [|x a IH]; [reflexivity |].
  change (String x (a +:+ "") = String x a). rewrite IH. reflexivity.
Qed.

Lemma append_cons x (a b : string) : String x a +:+ b = String x (a +:+ b).
Proof. reflexivity. Qed.

Lemma split_space_acc_no_space t : forall cur,
  no_space t -> Auth.split_space_acc cur t = [cur +:+ t].
Proof.
  unfold no_space. induction t as [|c t IH]; intros cur; simpl.
  - intros _. rewrite append_nil_r. reflexivity.
  - rewrite andb_true_iff, negb_true_iff. intros [Hc Ht].
    rewrite Hc, (IH _ Ht), append_assoc. reflexivity.
Qed.

(** Every piece of a split is free of spaces. *)
Lemma split_space_acc_pieces s : forall cur t,
  no_space cur -> In t (Auth.split_space_acc cur s) -> no_space t.
Proof.
  induction s as [|c s IH]; intros cur t Hcur; simpl.
  - intros [<-|[]]. exact Hcur.
  - destruct (Ascii.eqb c " "%char) eqn:Ec.
    + intros [<-|Hin]; [exact Hcur |]. apply (IH "" t); [reflexivity | exact Hin].
    + apply IH. unfold no_space in *.
      clear IH. induction cur as [|x cur IHc]; simpl in *.
      * rewrite Ec. reflexivity.
      * apply andb_true_iff in Hcur as [Hx Hcur]. rewrite Hx. simpl.
        apply IHc. exact Hcur.
Qed.

Lemma token_of_Some h t :
  Auth.token_of h = Some t ->
  t <> "" /\ no_space t
  /\ exists s, h = Some s /\ Auth.startsWith "Bearer" s = true
               /\ nth_error (Auth.split_space s) 1 = Some t.
Proof.
  unfold Auth.token_of. destruct h as [s|]; [| discriminate].
  destruct (negb (bool_decide (s = "")) && Auth.startsWith "Bearer" s)
    eqn:Eb; [| discriminate].
  apply andb_true_iff in Eb as [_ Hb].
  destruct (nth_error (Auth.split_space s) 1) as [x|] eqn:En; [| discriminate].
  destruct (bool_decide_reflect (x = "")) as [|Hx]; [discriminate |].
  intros [= <-]. split; [exact Hx |]. split; [| eauto].
  apply nth_error_In in En.
  apply (split_space_acc_pieces s "" x); [reflexivity | exact En].
Qed.

(** X20. The token the middlewares read from the [authorization] header is
    never empty and never contains a space, and it is only read from a
    header that starts with "Bearer". The header "Bearer " followed by a
    non-empty token without spaces yields exactly that token; a missing
    header, a bare "Bearer" and a second space right after the first yield
    none. *)
Theorem token_of_bearer (t : string) :
  (forall h t', Auth.token_of h = Some t' ->
     t' <> "" /\ no_space t'
     /\ exists s, h = Some s /\ Auth.startsWith "Bearer" s = true)
  /\ (t <> "" -> no_space t ->
      Auth.token_of (Some ("Bearer " +:+ t)) = Some t)
  /\ Auth.token_of None = None
  /\ Auth.token_of (Some "Bearer") = None
  /\ Auth.token_of (Some ("Bearer  " +:+ t)) = None
  /\ Auth.token_of (Some ("Basic " +:+ t)) = None.
Proof.
  split.
  { intros h t' H. apply token_of_Some in H as (? & ? & s & ? & ? & _).
    eauto. }
  split.
  { intros Hne Hns. unfold Auth.token_of.
    change (negb (bool_decide ("Bearer " +:+ t = ""))
            && Auth.startsWith "Bearer" ("Bearer " +:+ t)) with true.
    cbn match.
    change (Auth.split_space ("Bearer " +:+ t))
      with ("Bearer" :: Auth.split_space_acc "" t).
    rewrite (split_space_acc_no_space t "" Hns).
    change (nth_error ["Bearer"; "" +:+ t] 1) with (Some t). cbn match.
    destruct (bool_decide_reflect (t = "")); [contradiction | reflexivity]. }
  split; [reflexivity |]. split; [reflexivity |].
  split; reflexivity.
Qed.

Lemma token_of_bearer_witness :
  Auth.token_of (Some "Bearer alice-token") = Some "alice-token".
Proof.
  apply (token_of_bearer "alice-token"); [discriminate | reflexivity].
Defined.

(** X21. [optionalAuth] never turns a request away and [protect] never lets
    one through without a user. Every refusal of [protect] is a 401. Both
    attach the same user: [protect] admits a request as user [x] exactly
    when [optionalAuth] attaches [x], and what [protect] refuses,
    [optionalAuth] passes on as anonymous. The user attached is a user of
    the collection whose id the verified token names. *)
Theorem protect_optionalAuth_agree (jwt_verify : string -> option nat)
  (authorization : option string) (us : gmap nat User) :
  (forall status m,
      Auth.optionalAuth jwt_verify authorization us <> Auth.Denied status m)
  /\ Auth.protect jwt_verify authorization us <> Auth.Next None
  /\ (forall status m,
        Auth.protect jwt_verify authorization us = Auth.Denied status m ->
        status = 401%nat
        /\ Auth.optionalAuth jwt_verify authorization us = Auth.Next None)
  /\ (forall x,
        Auth.protect jwt_verify authorization us = Auth.Next (Some x)
        <-> Auth.optionalAuth jwt_verify authorization us
            = Auth.Next (Some x))
  /\ (forall id user,
        Auth.protect jwt_verify authorization us = Auth.Next (Some (id, user))
        -> us !! id = Some user
           /\ exists token, Auth.token_of authorization = Some token
                            /\ jwt_verify token = Some id).
Proof.
  unfold Auth.protect, Auth.optionalAuth.
  destruct (Auth.token_of authorization) as [token|];
    [destruct (jwt_verify token) as [id|] eqn:Ej;
     [destruct (us !! id) as [user|] eqn:Eu |] |];
    split_and!; try discriminate;
    try (intros status m [= <- <-]; split; reflexivity);
    try (intros x; split; intros H; congruence);
    try (intros id0 user0 H; discriminate H).
  all: try (intros status m H; discriminate H).
  intros id0 user0 [= <- <-]. split; [exact Eu | eauto].
Qed.

Lemma protect_optionalAuth_agree_witness :
  let us := users Sample.state in
  Auth.protect Sample.verify (Some "Bearer alice-token") us
  = Auth.Next (Some (Sample.alice, mkUser 2 13))
  /\ Auth.optionalAuth Sample.verify (Some "Bearer alice-token") us
     = Auth.Next (Some (Sample.alice, mkUser 2 13))
  /\ Auth.protect Sample.verify (Some "Bearer ghost-token") us
     = Auth.Denied 401 "Token is valid but user no longer exists"
  /\ Auth.optionalAuth Sample.verify (Some "Bearer ghost-token") us
     = Auth.Next None.
Proof.
  intros us.
  assert (H1 : Auth.protect Sample.verify (Some "Bearer alice-token") us
               = Auth.Next (Some (Sample.alice, mkUser 2 13)))
    by reflexivity.
  assert (H2 : Auth.protect Sample.verify (Some "Bearer ghost-token") us
               = Auth.Denied 401 "Token is valid but user no longer exists")
    by reflexivity.
  split; [exact H1 |].
  split.
  - apply (protect_optionalAuth_agree Sample.verify
             (Some "Bearer alice-token") us). exact H1.
  - split; [exact H2 |].
    destruct (protect_optionalAuth_agree Sample.verify
                (Some "Bearer ghost-token") us) as (_ & _ & H & _).
    apply (H _ _ H2).
Defined.

(** ** Recent Links *)

#[local] Instance recent_order_total : Total UrlService.recent_order.
Proof.
  intros a b. unfold UrlService.recent_order.
  destruct (Z.le_ge_cases (createdAt a) (createdAt b)); [right | left]; lia.
Qed.

#[local] Instance recent_order_trans : Transitive UrlService.recent_order.
Proof. intros a b c. unfold UrlService.recent_order. lia. Qed.

(** A sorted, limited selection: the prefix of the sorted matches. *)
Lemma limit_sort_filter (R : relation Link) `{!forall a b, Decision (R a b)}
  `{!Total R} `{!Transitive R} (q : Link -> bool) (n : nat) (ls : list Link) :
  let r := URL_MODEL.limit n (merge_sort R (List.filter q ls)) in
  (forall l, In l r -> In l ls /\ q l = true)
  /\ StronglySorted R r
  /\ (n <> 0%nat -> (length r <= n)%nat)
  /\ exists rest,
       r ++ rest ≡ₚ List.filter q ls
       /\ (forall x y, In x r -> In y rest -> R x y)
       /\ (rest <> [] -> length r = n).
Proof.
  intros r. subst r.
  set (sorted := merge_sort R (List.filter q ls)).
  assert (Hperm : sorted ≡ₚ List.filter q ls) by apply merge_sort_Permutation.
  assert (Hsorted : StronglySorted R sorted)
    by (apply StronglySorted_merge_sort; assumption).
  destruct (limit_firstn n sorted) as (m & Hm & Hlim & Hzero).
  assert (Hsplit : URL_MODEL.limit n sorted ++ skipn m sorted = sorted).
  { rewrite Hm. apply firstn_skipn. }
  rewrite <- Hsplit in Hsorted.
  split; [| split; [| split]].
  - intros l Hl. apply filter_In.
    apply list_elem_of_In. rewrite <- Hperm, <- Hsplit.
    apply list_elem_of_In, in_or_app. left. exact Hl.
  - eapply StronglySorted_app_1_l. exact Hsorted.
  - intros Hn. rewrite Hm, (Hlim Hn). apply firstn_le_length.
  - exists (skipn m sorted). split; [| split].
    + rewrite Hsplit. exact Hperm.
    + intros x y Hx Hy.
      eapply StronglySorted_app_1_elem_of;
        [exact Hsorted | apply list_elem_of_In; exact Hx
        | apply list_elem_of_In; exact Hy].
    + intros Hrest.
      assert (Hlen : (m < length sorted)%nat).
      { destruct (Nat.lt_ge_cases m (length sorted)) as [?|Hge];
          [assumption |].
        exfalso. apply Hrest. apply skipn_all2. exact Hge. }
      assert (Hn : n <> 0%nat).
      { intros E0. specialize (Hzero E0). lia. }
      rewrite Hm, (Hlim Hn), length_firstn. rewrite (Hlim Hn) in Hlen. lia.
Qed.

(** X22. [getRecentUrls] returns, populated, Links of the collection that
    belong to [userId], when one is given, and have the requested
    [isActive], when one is given; newest first; cut at [limit] entries
    when [limit] is not 0; and every match left out is at most as recent
    as every Link returned. *)
Theorem getRecentUrls_newest_first (o : UrlService.Recent.Options)
  (st : State) :
  let r := UrlService.getRecentUrls o st in
  exists found,
    r = List.map (populate (users st)) found
    /\ (forall l, In l found ->
          In l (urls st)
          /\ (forall u, UrlService.Recent.userId o = Some u ->
                        userId l = Some u)
          /\ (forall b, UrlService.Recent.isActive o = Some b ->
                        isActive l = b))
    /\ StronglySorted (fun a b => createdAt b <= createdAt a) r
    /\ (UrlService.Recent.limit o <> 0%nat ->
        (length r <= UrlService.Recent.limit o)%nat)
    /\ forall x, In x (urls st) -> UrlService.recent_query o x = true ->
         In x found
         \/ (length r = UrlService.Recent.limit o
             /\ forall y, In y r -> createdAt x <= createdAt y).
Proof.
  intros r. subst r. unfold UrlService.getRecentUrls.
  destruct (limit_sort_filter UrlService.recent_order
              (UrlService.recent_query o) (UrlService.Recent.limit o)
              (urls st)) as (H1 & H2 & H3 & rest & Hperm & Hord & Hfull).
  set (found := URL_MODEL.limit _ _) in *.
  assert (Hcreated : forall l,
            createdAt (populate (users st) l) = createdAt l).
  { intros l. apply (populate_fields (users st) l). }
  exists found. split; [reflexivity |].
  split; [| split; [| split; [rewrite length_map; exact H3 |]]].
  - intros l Hl. destruct (H1 l Hl) as [Hin Hq]. split; [exact Hin |].
    unfold UrlService.recent_query in Hq. apply andb_true_iff in Hq as [Hu Ha].
    split.
    + intros u Eu. rewrite Eu in Hu. apply bool_decide_eq_true in Hu. exact Hu.
    + intros b Eb. rewrite Eb in Ha. apply bool_decide_eq_true in Ha. exact Ha.
  - apply (StronglySorted_map_populate UrlService.recent_order);
      [| exact H2].
    intros a b. unfold UrlService.recent_order. rewrite !Hcreated. auto.
  - intros x Hin Hq.
    assert (Hx : In x (List.filter (UrlService.recent_query o) (urls st)))
      by (apply filter_In; auto).
    apply list_elem_of_In in Hx. rewrite <- Hperm in Hx.
    apply list_elem_of_In, in_app_or in Hx as [Hx|Hx]; [left; exact Hx |].
    right. rewrite length_map. split.
    + apply Hfull. intros ->. destruct Hx.
    + intros y Hy. apply in_map_iff in Hy as (y0 & <- & Hy0).
      rewrite Hcreated. exact (Hord y0 x Hy0 Hx).
Qed.

(** ** Age and average clicks per day *)

(** X23. For a Link created not later than now and less than [2^53]
    milliseconds ago, [ageInDays] is the number of whole days since its
    creation. With [clickCount * 100] below [2^52], [averageClicksPerDay]
    is [clickCount] divided by that age, or by 1 on the first day, rounded
    to two decimals: the number [n / 100] for a whole number of hundredths
    [n] within a half, and the rounding of the two operations before
    [Math.round], of [clickCount / age * 100]. It is finite, lies between
    0 and [clickCount] and within 0.005 and the rounding of
    [clickCount / age]; on the first day it is [clickCount] itself. *)
Theorem averageClicksPerDay_bounded (now : Z) (l : Link) :
  createdAt l <= now -> now - createdAt l < 2 ^ 53 ->
  Z.of_N (clickCount l) * 100 < 2 ^ 52 ->
  let days := (now - createdAt l) / 86400000 in
  let age := if days =? 0 then 1 else days in
  let count := inject_Z (Z.of_N (clickCount l)) in
  let average := URL_MODEL.averageClicksPerDay now l in
  URL_MODEL.ageInDays now l = Number.of_Z days
  /\ 0 <= days
  /\ exists n : Z,
       0 <= n <= Z.of_N (clickCount l) * 100
       /\ average = Number.div (Number.of_Z n) (Number.of_Z 100)
       /\ (Qabs (inject_Z n - 100 * (count / inject_Z age))
           <= (1 # 2) + 200 * count * (1 # 2 ^ 53))%Q
       /\ Number.is_finite average = true
       /\ (0 <= Number.to_Q average <= count)%Q
       /\ (Qabs (Number.to_Q average - count / inject_Z age)
           <= (1 # 200) + 3 * count * (1 # 2 ^ 53))%Q
       /\ (days = 0 -> (Number.to_Q average == count)%Q).
Proof.
  intros Hle H53 Hc. cbv zeta.
  set (days := (now - createdAt l) / 86400000).
  assert (Hdays : 0 <= days) by (subst days; apply Z.div_pos; lia).
  assert (Hdays53 : days < 2 ^ 53).
  { subst days. apply Z.div_lt_upper_bound; [lia |].
    change (2 ^ 53) with 9007199254740992 in *. lia. }
  assert (Hage : URL_MODEL.ageInDays now l = Number.of_Z days).
  { unfold URL_MODEL.ageInDays. change (1000 * 60 * 60 * 24) with 86400000.
    apply days_spec. lia. }
  split; [exact Hage |]. split; [exact Hdays |].
  unfold URL_MODEL.averageClicksPerDay. rewrite Hage.
  set (age := if days =? 0 then 1 else days).
  assert (Hor : Number.or_else (Number.of_Z days) (Number.of_Z 1)
                = Number.of_Z age).
  { subst age. destruct (Z.eqb_spec days 0) as [->|Hnz]; [reflexivity |].
    destruct (of_Z_spec days ltac:(lia)) as [(m & e & -> & _) _].
    reflexivity. }
  rewrite Hor.
  assert (Hage1 : 1 <= age < 2 ^ 53).
  { subst age. destruct (Z.eqb_spec days 0); [split; [lia | reflexivity] | lia]. }
  destruct (average_spec (clickCount l) age Hc Hage1)
    as (n & Hn & Hv & Hnear & Hfin & Hrange & Hclose & Hfirst).
  exists n. split; [exact Hn |]. split; [exact Hv |].
  split; [exact Hnear |]. split; [exact Hfin |]. split; [exact Hrange |].
  split; [exact Hclose |].
  intros E. apply Hfirst. subst age. rewrite E. reflexivity.
Qed.

Lemma averageClicksPerDay_bounded_witness :
  let l := set_clickCount 23 Demo.previewed in
  let now := createdAt l + 16 * 86400000 + 1000 in
  createdAt l <= now /\ now - createdAt l < 2 ^ 53
  /\ Z.of_N (clickCount l) * 100 < 2 ^ 52
  /\ URL_MODEL.ageInDays now l = Number.of_Z 16
  /\ URL_MODEL.averageClicksPerDay now l
     = Number.div (Number.of_Z 144) (Number.of_Z 100).
Proof.
  intros l now.
  assert (H0 : createdAt l <= now) by (vm_compute; discriminate).
  assert (H1 : now - createdAt l < 2 ^ 53) by (vm_compute; reflexivity).
  assert (H2 : Z.of_N (clickCount l) * 100 < 2 ^ 52)
    by (vm_compute; reflexivity).
  split; [exact H0 |]. split; [exact H1 |]. split; [exact H2 |]. split.
  - exact (proj1 (averageClicksPerDay_bounded now l H0 H1 H2)).
  - vm_compute. reflexivity.
Defined.

(** ** URLs fit for a QR code *)

Lemma validateUrlForQR_iff (URL_parses : string -> bool) (url : string) :
  isValid (QR.validateUrlForQR URL_parses url) = true <->
  url <> "" /\ (String.length url <= 2048)%nat
  /\ URL_parses url = true
  /\ Chars.all_chars QR.is_printable url = true.
Proof.
  unfold QR.validateUrlForQR, QR.has_problematic_chars.
  destruct (bool_decide_reflect (url = "")) as [E|E]; cbn [isValid].
  - split; [discriminate | intros [? _]; contradiction].
  - rewrite Nat.eqb_eq, !length_push_if.
    destruct (Nat.ltb_spec 2048 (String.length url));
      destruct (URL_parses url);
      destruct (Chars.all_chars QR.is_printable url);
      cbn [length negb];
      (split;
       [intros H0; try (simpl in H0; lia); repeat split; auto; lia
       | intros (? & ? & ? & ?); try discriminate; try lia;
         reflexivity]).
Qed.

(** X24. [validateUrlForQR] reports an empty URL with the single error
    "URL is required". A non-empty URL is valid exactly when it has at most
    2048 characters, parses as a URL and consists of printable ASCII
    characters only, and each of the three errors is listed iff its check
    fails. In particular every printable [originalUrl] of at most 2048
    characters that [createUrl] accepts is fit for a QR code. *)
Theorem validateUrlForQR_valid_iff (URL_parses : string -> bool)
  (url : string) :
  (url = "" ->
   QR.validateUrlForQR URL_parses url
   = {| isValid := false; errors := ["URL is required"] |})
  /\ (isValid (QR.validateUrlForQR URL_parses url) = true <->
      url <> "" /\ (String.length url <= 2048)%nat
      /\ URL_parses url = true
      /\ Chars.all_chars QR.is_printable url = true)
  /\ (url <> "" ->
      (In "URL is too long for QR code (max 2048 characters)"
          (errors (QR.validateUrlForQR URL_parses url))
       <-> (2048 < String.length url)%nat)
      /\ (In "Invalid URL format"
             (errors (QR.validateUrlForQR URL_parses url))
          <-> URL_parses url = false)
      /\ (In "URL contains non-printable characters that may cause issues"
             (errors (QR.validateUrlForQR URL_parses url))
          <-> Chars.all_chars QR.is_printable url = false))
  /\ (forall env,
        UrlService._isValidUrl env url = true ->
        (String.length url <= 2048)%nat ->
        Chars.all_chars QR.is_printable url = true ->
        isValid (QR.validateUrlForQR
                   (fun u => bool_decide (is_Some (NodeURL_protocol env u)))
                   url) = true).
Proof.
  split; [intros ->; reflexivity |].
  split; [apply validateUrlForQR_iff |].
  split.
  - intros Hne. unfold QR.validateUrlForQR, QR.has_problematic_chars.
    destruct (bool_decide_reflect (url = "")) as [E|E]; [contradiction |].
    cbn [errors]. rewrite !In_push_if, !negb_true_iff, Nat.ltb_lt.
    repeat split; intros H;
      repeat match goal with
             | H : _ \/ _ |- _ => destruct H
             | H : _ /\ _ |- _ => destruct H
             | H : In _ [] |- _ => destruct H
             end; try discriminate; try assumption; auto 6.
  - intros env Hv Hl Hp. apply validateUrlForQR_iff.
    unfold UrlService._isValidUrl in Hv.
    destruct (bool_decide_reflect (url = "")) as [E|E]; [discriminate |].
    split; [exact E |]. split; [exact Hl |]. split; [| exact Hp].
    apply bool_decide_eq_true.
    destruct (NodeURL_protocol env url); [eauto | discriminate].
Qed.

(** ** Pagination *)

Lemma page_count_spec (total : nat) (limit : Z) :
  1 <= limit ->
  UrlService.page_count total limit = - ((- Z.of_nat total) / limit).
Proof.
  intros Hl. destruct limit as [|p|p]; try lia.
  unfold UrlService.page_count.
  rewrite <- (Qceiling_comp _ _ (Qmake_Qdiv (Z.of_nat total) p)).
  unfold Qceiling, Qfloor. simpl. reflexivity.
Qed.

Lemma page_count_next (total : nat) (limit page : Z) :
  1 <= limit ->
  page < UrlService.page_count total limit <->
  page * limit < Z.of_nat total.
Proof.
  intros Hl. rewrite (page_count_spec _ _ Hl).
  pose proof (Z.div_mod (- Z.of_nat total) limit ltac:(lia)) as Hdm.
  pose proof (Z.mod_pos_bound (- Z.of_nat total) limit ltac:(lia)) as Hm.
  set (q := (- Z.of_nat total) / limit) in *.
  set (m := (- Z.of_nat total) mod limit) in *.
  split; intros H; nia.
Qed.

Lemma In_firstn_skipn {A} (n m : nat) (ls : list A) (x : A) :
  In x (firstn n (skipn m ls)) -> In x ls.
Proof.
  intros H. rewrite <- (firstn_skipn m ls). apply in_or_app. right.
  rewrite <- (firstn_skipn n (skipn m ls)). apply in_or_app. left. exact H.
Qed.

(** X25. For [1 <= page] and [1 <= limit], [getUserUrls] pages through
    the Links of the user that match the filter, in the order the sort
    puts them in: the Link at place [n] of the page, [n] below [limit], is
    the one at place [(page - 1) * limit + n] of the sorted matches. So
    the page holds [min(limit, totalUrls - (page - 1) * limit)] Links, all
    of them the user's and of the requested [isActive], and a page past
    the end is empty; [totalPages] is [totalUrls / limit] rounded up;
    [hasNextPage] is true exactly when Links remain after this page and
    [hasPrevPage] exactly when the page is not the first. *)
Theorem getUserUrls_pagination (search_matches : string -> Link -> bool)
  (sort_by : string -> bool -> list Link -> list Link) (owner : nat)
  (o : UrlService.UserUrls.Options) (st : State) :
  (forall f desc ls, sort_by f desc ls ≡ₚ ls) ->
  1 <= UrlService.UserUrls.page o -> 1 <= UrlService.UserUrls.limit o ->
  let matched :=
    List.filter (UrlService.user_urls_query search_matches owner o)
      (urls st) in
  let sorted :=
    sort_by (UrlService.UserUrls.sortBy o)
      (bool_decide (UrlService.UserUrls.sortOrder o = "desc")) matched in
  let page := Z.to_nat (UrlService.UserUrls.page o) in
  let limit := Z.to_nat (UrlService.UserUrls.limit o) in
  let total := length matched in
  exists found p,
    UrlService.getUserUrls search_matches sort_by owner o st
    = Some (found, p)
    /\ UrlService.UserUrls.totalUrls p = total
    /\ UrlService.UserUrls.currentPage p = UrlService.UserUrls.page o
    /\ (forall n, (n < limit)%nat ->
          found !! n = sorted !! ((page - 1) * limit + n)%nat)
    /\ length found = Nat.min limit (total - (page - 1) * limit)
    /\ (forall l, In l found ->
          In l (urls st) /\ userId l = Some owner
          /\ forall b, UrlService.UserUrls.isActive o = Some b ->
                       isActive l = b)
    /\ UrlService.UserUrls.totalPages p
       = (Z.of_nat total + Z.of_nat limit - 1) / Z.of_nat limit
    /\ (UrlService.UserUrls.hasNextPage p = true
        <-> (page * limit < total)%nat)
    /\ (UrlService.UserUrls.hasPrevPage p = true <-> (1 < page)%nat)
    /\ ((total <= (page - 1) * limit)%nat -> found = []).
Proof.
  intros Hperm Hp Hl. cbn zeta. unfold UrlService.getUserUrls.
  destruct (Z.leb_spec 1 (UrlService.UserUrls.page o)) as [_|]; [| lia].
  destruct (Z.leb_spec 1 (UrlService.UserUrls.limit o)) as [_|]; [| lia].
  cbn [andb].
  set (matched := List.filter _ (urls st)).
  set (sorted := sort_by _ _ matched).
  assert (Hs : sorted ≡ₚ matched) by apply Hperm.
  assert (Hlen : length sorted = length matched)
    by (apply Permutation_length; exact Hs).
  set (pz := UrlService.UserUrls.page o) in *.
  set (lz := UrlService.UserUrls.limit o) in *.
  assert (Hskip : Z.to_nat ((pz - 1) * lz)
                  = ((Z.to_nat pz - 1) * Z.to_nat lz)%nat).
  { rewrite Z2Nat.inj_mul by lia. rewrite Z2Nat.inj_sub by lia.
    reflexivity. }
  rewrite Hskip.
  set (page := Z.to_nat pz). set (limit := Z.to_nat lz).
  assert (Hpage : (1 <= page)%nat) by (subst page; lia).
  assert (Hlimit : (1 <= limit)%nat) by (subst limit; lia).
  eexists _, _. split; [reflexivity |]. simpl.
  split; [reflexivity |]. split; [reflexivity |].
  split.
  { intros n Hn. rewrite lookup_take_lt by exact Hn.
    apply lookup_drop. }
  split; [rewrite length_firstn, length_skipn, Hlen; reflexivity |].
  split.
  { intros l Hin. apply In_firstn_skipn in Hin.
    apply list_elem_of_In in Hin. rewrite Hs in Hin.
    apply list_elem_of_In, filter_In in Hin as [Hin Hq].
    unfold UrlService.user_urls_query in Hq.
    rewrite !andb_true_iff in Hq. destruct Hq as [[Hu Ha] _].
    apply bool_decide_eq_true in Hu. do 2 (split; [assumption |]).
    intros b Hb. rewrite Hb in Ha. apply bool_decide_eq_true in Ha.
    exact Ha. }
  split.
  { rewrite (page_count_spec _ _ Hl). subst limit.
    rewrite Z2Nat.id by lia.
    set (a := Z.of_nat (length matched)).
    pose proof (Z.div_mod (- a) lz ltac:(lia)).
    pose proof (Z.mod_pos_bound (- a) lz ltac:(lia)).
    pose proof (Z.div_mod (a + lz - 1) lz ltac:(lia)).
    pose proof (Z.mod_pos_bound (a + lz - 1) lz ltac:(lia)).
    nia. }
  split.
  { rewrite Z.ltb_lt, (page_count_next _ _ _ Hl). subst page limit.
    split; intros H; nia. }
  split.
  { rewrite Z.ltb_lt. subst page. lia. }
  intros Hpast. rewrite skipn_all2; [apply firstn_nil | lia].
Qed.

Lemma getUserUrls_pagination_witness :
  let o := UrlService.UserUrls.mkOptions 2 1 "createdAt" "desc" "" None in
  exists found p,
    UrlService.getUserUrls (fun _ _ => true) Sample.by_created
      Sample.alice o Sample.state = Some (found, p)
    /\ List.map _id found = [10%nat]
    /\ UrlService.UserUrls.totalUrls p = 2%nat
    /\ UrlService.UserUrls.hasNextPage p = false
    /\ UrlService.UserUrls.hasPrevPage p = true.
Proof.
  intros o.
  destruct (getUserUrls_pagination (fun _ _ => true) Sample.by_created
              Sample.alice o Sample.state)
    as (found & p & E & _).
  - intros f desc ls. apply merge_sort_Permutation.
  - vm_compute. discriminate.
  - vm_compute. discriminate.
  - exists found, p. split; [exact E |].
    vm_compute in E. injection E as <- <-.
    repeat split.
Defined.

(** ** Alias availability *)



